(** * Customer Insights: aggregation, cache and webhook listener

    A shallow embedding of the TypeScript sources

      - [src/utils/calculations.ts]  (the insight aggregator),
      - [src/api/stripeClient.ts]    (the TTL cache in front of the collector),
      - the webhook module            (signature check, dispatch, deduplication),

    followed by the properties of the design specification that concern them.

    Conventions.

    - A JavaScript [number] is an IEEE-754 binary64 value.  The integer
      fields of the Stripe objects (amounts in minor units, Unix timestamps)
      and the counters of the code (lengths, score points) are carried as
      [Z].  The sums of amounts ([reduce]) and the lifetime total are
      computed on [number] as in the source, and are exact only while they
      stay below 2^53; so are every division, every multiplication of a
      quotient and every comparison of a quotient, with the binary64
      operations of [SpecFloat] (round to nearest, ties to even).
    - [Date.now()] is an explicit argument (milliseconds).
    - An exception is a [Throw] result; the only one the aggregator can raise
      is the [RangeError] of [toISOString] on an invalid date.
    - Module-level mutable objects ([cache], [processedEvents]) and the console
      form an explicit state that is threaded through the effectful code.
    - The payments API and the SDK's signature verification are outside the
      repository; they appear as functions the code is parameterised by.
      In front of the cache the collector is summarised by the answer of
      the API; its pagination loops are modelled on their own.  The decimal
      rendering of numbers inside description strings is not modelled. *)

From Stdlib Require Import ZArith List Bool Lia Sorted.
From Stdlib Require Import Floats.SpecFloat.
From stdpp Require Import gmap strings.

Local Open Scope string_scope.
Local Open Scope Z_scope.
Local Open Scope list_scope.

(* ===================================================================== *)
(** * JavaScript numbers *)
(* ===================================================================== *)

Module Js.

Definition number := spec_float.

Definition prec : Z := 53.
Definition emax : Z := 1024.

(** The number denoted by an integer (exact below 2^53). *)
Definition of_Z (z : Z) : number := binary_normalize prec emax z 0 false.

Definition add : number -> number -> number := SFadd prec emax.
Definition sub : number -> number -> number := SFsub prec emax.
Definition mul : number -> number -> number := SFmul prec emax.
Definition div : number -> number -> number := SFdiv prec emax.

(** [x < y], [x > y], [x <= y] and [x === y] on numbers. *)
Definition ltb (x y : number) : bool := SFltb x y.
Definition gtb (x y : number) : bool := SFltb y x.
Definition leb (x y : number) : bool := SFleb x y.
Definition eqb (x y : number) : bool := SFeqb x y.

(** [Math.floor]. *)
Definition floor (x : number) : number :=
  match x with
  | S754_finite s m e =>
      if 0 <=? e then x
      else
        let q := Z.shiftr (if s then Z.neg m else Z.pos m) (- e) in
        binary_normalize prec emax q 0 s
  | _ => x
  end.

(** [a / b] for two integers. *)
Definition quot (a b : Z) : number := div (of_Z a) (of_Z b).

(** Numeric literals of the sources. *)
Definition zero : number := S754_zero false.
Definition lit_0_3 : number := S754_finite false 5404319552844595 (-54).
Definition lit_0_5 : number := S754_finite false 4503599627370496 (-53).
Definition lit_0_01 : number := S754_finite false 5764607523034235 (-59).

(** Truthiness of a number ([x ? .. : ..], [x || d]); integers only. *)
Definition truthyZ (z : Z) : bool := negb (z =? 0).

End Js.

(** Truthiness of a string. *)
Definition truthy_string (s : string) : bool := negb (String.eqb s "").

(** [s || d] on strings. *)
Definition string_or (s d : string) : string := if truthy_string s then s else d.

(* ===================================================================== *)
(** * Data model (the fields of the Stripe objects the code reads) *)
(* ===================================================================== *)

(** A field that holds an id, an expanded object or nothing
    ([string | Stripe.X | null]). *)
Inductive Expandable :=
| Absent
| Id (id : string)
| Expanded (id : string).

(** [!!x] for such a field. *)
Definition truthy_ref (x : Expandable) : bool :=
  match x with
  | Absent => false
  | Id s => truthy_string s
  | Expanded _ => true
  end.

Inductive ChargeStatus := succeeded | pending | failed.

Definition ChargeStatus_eqb (a b : ChargeStatus) : bool :=
  match a, b with
  | succeeded, succeeded | pending, pending | failed, failed => true
  | _, _ => false
  end.

Module Charge.
Record t := mk {
  id : string;
  amount : Z;                       (* minor units *)
  amount_refunded : option Z;       (* read as [amount_refunded || 0] *)
  currency : string;
  status : ChargeStatus;
  invoice : Expandable;
  disputed : bool;
  created : Z;                      (* Unix seconds *)
  payment_method_type : option string  (* payment_method_details?.type *)
}.
End Charge.

Module Customer.
Record t := mk {
  id : string;
  created : Z
}.
End Customer.

Inductive SubscriptionStatus :=
| active | canceled | incomplete | incomplete_expired
| past_due | paused | trialing | unpaid.

Inductive Interval := day | week | month | year.

Module Price.
Record t := mk {
  recurring : option (Interval * Z);   (* interval, interval_count *)
  unit_amount : option Z
}.
End Price.

Module Subscription.
Record t := mk {
  id : string;
  status : SubscriptionStatus;
  items : list (option Price.t);       (* items.data[i].price *)
  current_period_end : Z
}.
End Subscription.

(** Payment intents and invoices are collected but never inspected. *)
Module PaymentIntent.
Record t := mk { id : string; amount : Z }.
End PaymentIntent.

Module Invoice.
Record t := mk { id : string }.
End Invoice.

Record StripeCustomerData := {
  customer : Customer.t;
  charges : list Charge.t;
  paymentIntents : list PaymentIntent.t;
  subscriptions : list Subscription.t;
  invoices : list Invoice.t
}.

(* ===================================================================== *)
(** * Lifetime value *)
(* ===================================================================== *)

Record Breakdown := {
  oneTime : Js.number;
  subscription : Js.number;
  refunded : Js.number
}.

Record LifetimeValue := {
  total : Js.number;
  currency : string;
  breakdown : Breakdown
}.

Definition is_succeeded (c : Charge.t) : bool :=
  ChargeStatus_eqb (Charge.status c) succeeded.

Definition is_failed (c : Charge.t) : bool :=
  ChargeStatus_eqb (Charge.status c) failed.

Definition has_invoice (c : Charge.t) : bool := truthy_ref (Charge.invoice c).

(** [charge.amount_refunded || 0] *)
Definition refund_of (c : Charge.t) : Z :=
  match Charge.amount_refunded c with
  | Some r => if Js.truthyZ r then r else 0
  | None => 0
  end.

(** [xs.reduce((sum, charge) => sum + f(charge), 0)]: the accumulator is a
    [number] and every [+] is a binary64 addition. *)
Definition sum_by {A} (f : A -> Z) (xs : list A) : Js.number :=
  fold_left (fun sum x => Js.add sum (Js.of_Z (f x))) xs Js.zero.

(** [cents / 100]: conversion to display units. *)
Definition to_units (cents : Js.number) : Js.number :=
  Js.div cents (Js.of_Z 100).

Definition oneTimeTotal (charges : list Charge.t) : Js.number :=
  sum_by Charge.amount
    (List.filter (fun c => negb (has_invoice c))
       (List.filter is_succeeded charges)).

Definition subscriptionTotal (charges : list Charge.t) : Js.number :=
  sum_by Charge.amount
    (List.filter has_invoice (List.filter is_succeeded charges)).

Definition refundedTotal (charges : list Charge.t) : Js.number :=
  sum_by refund_of charges.

Definition calculateLifetimeValue
    (charges : list Charge.t) (subscriptions : list Subscription.t)
  : LifetimeValue :=
  let successfulCharges := List.filter is_succeeded charges in
  let currency :=
    match successfulCharges with
    | c :: _ => string_or (Charge.currency c) "usd"
    | [] => "usd"
    end in
  let total := Js.sub (Js.add (oneTimeTotal charges) (subscriptionTotal charges))
                      (refundedTotal charges) in
  {| total := to_units total;
     currency := currency;
     breakdown := {| oneTime := to_units (oneTimeTotal charges);
                     subscription := to_units (subscriptionTotal charges);
                     refunded := to_units (refundedTotal charges) |} |}.

(* ===================================================================== *)
(** * Payment pattern *)
(* ===================================================================== *)

Record PaymentPattern := {
  successRate : Js.number;
  totalPayments : Z;
  successfulPayments : Z;
  failedPayments : Z;
  averagePaymentAmount : Js.number;
  preferredPaymentMethod : option string
}.

(** [xs.filter(p).length] and [xs.length] *)
Definition count {A} (p : A -> bool) (xs : list A) : Z :=
  Z.of_nat (length (List.filter p xs)).

Definition len {A} (xs : list A) : Z := Z.of_nat (length xs).

(** [xs[i]]: [undefined] outside the array. *)
Definition item {A} (xs : list A) (i : Z) : option A :=
  if i <? 0 then None else nth_error xs (Z.to_nat i).

(** A [Map<string, number>] keeps its keys in insertion order; [set] on a
    key that is present keeps the key's position. *)
Fixpoint map_get (k : string) (m : list (string * Z)) : option Z :=
  match m with
  | [] => None
  | (k', v) :: m' => if String.eqb k k' then Some v else map_get k m'
  end.

Fixpoint map_set (k : string) (v : Z) (m : list (string * Z))
  : list (string * Z) :=
  match m with
  | [] => [(k, v)]
  | (k', v') :: m' =>
      if String.eqb k k' then (k', v) :: m' else (k', v') :: map_set k v m'
  end.

(** [paymentMethodCounts.get(type) || 0] *)
Definition map_get_or0 (k : string) (m : list (string * Z)) : Z :=
  match map_get k m with
  | Some v => if Js.truthyZ v then v else 0
  | None => 0
  end.

Definition paymentMethodCounts (charges : list Charge.t) : list (string * Z) :=
  fold_left
    (fun m charge =>
       match Charge.payment_method_type charge with
       | Some type =>
           if truthy_string type
           then map_set type (map_get_or0 type m + 1) m
           else m
       | None => m
       end)
    charges [].

(** The [forEach] over the counts: state is [(maxCount, preferred)]. *)
Definition preferred (counts : list (string * Z)) : option string :=
  snd (fold_left
         (fun (acc : Z * option string) (entry : string * Z) =>
            let '(method, count) := entry in
            if fst acc <? count then (count, Some method) else acc)
         counts (0, None)).

Definition analyzePaymentPattern
    (charges : list Charge.t) (paymentIntents : list PaymentIntent.t)
  : PaymentPattern :=
  let successfulPayments := count is_succeeded charges in
  let failedPayments := count is_failed charges in
  let totalPayments := len charges in
  let successRate :=
    if 0 <? totalPayments
    then Js.mul (Js.quot successfulPayments totalPayments) (Js.of_Z 100)
    else Js.zero in
  let averagePaymentAmount :=
    if 0 <? totalPayments
    then Js.div (Js.div (sum_by Charge.amount charges) (Js.of_Z totalPayments))
                (Js.of_Z 100)
    else Js.zero in
  {| successRate := successRate;
     totalPayments := totalPayments;
     successfulPayments := successfulPayments;
     failedPayments := failedPayments;
     averagePaymentAmount := averagePaymentAmount;
     preferredPaymentMethod := preferred (paymentMethodCounts charges) |}.

(* ===================================================================== *)
(** * Risk assessment *)
(* ===================================================================== *)

Inductive RiskFactorType :=
| high_chargeback_rate | payment_failures | velocity_check
| new_customer_large_amount.

Inductive Severity := low | medium | high.

(** The template strings of the descriptions, with the values they
    interpolate (the decimal rendering by [toFixed] is not modelled). *)
Inductive Description :=
| FailureRateText (percent : Js.number)
| ChargebacksText (chargebacks : Z)
| NewCustomerText (months : Js.number)
| VelocityText (transactions : Z) (days : Js.number).

Record RiskFactor := {
  type : RiskFactorType;
  severity : Severity;
  description : Description;
  value : Js.number
}.

Inductive Recommendation := low_risk | medium_risk | high_risk.

Record RiskAssessment := {
  score : Z;
  factors : list RiskFactor;
  recommendation : Recommendation
}.

(** The two mutable locals of [assessRisk]. *)
Record RiskAcc := {
  acc_factors : list RiskFactor;
  riskScore : Z
}.

(** [const factors = []; let riskScore = 0] *)
Definition no_risk : RiskAcc := {| acc_factors := []; riskScore := 0 |}.

(** [factors.push(f); riskScore += points] *)
Definition flag (f : RiskFactor) (points : Z) (acc : RiskAcc) : RiskAcc :=
  {| acc_factors := acc_factors acc ++ [f];
     riskScore := riskScore acc + points |}.

Definition failureRate (charges : list Charge.t) : Js.number :=
  let failedCharges := count is_failed charges in
  let totalCharges := len charges in
  if 0 <? totalCharges then Js.quot failedCharges totalCharges else Js.zero.

(** Factor 1: payment failure rate. *)
Definition paymentFailures (charges : list Charge.t) (acc : RiskAcc) : RiskAcc :=
  let failureRate := failureRate charges in
  if Js.gtb failureRate Js.lit_0_3 then
    flag {| type := payment_failures;
            severity := if Js.gtb failureRate Js.lit_0_5 then high else medium;
            description := FailureRateText (Js.mul failureRate (Js.of_Z 100));
            value := failureRate |}
         (if Js.gtb failureRate Js.lit_0_5 then 30 else 15) acc
  else acc.

Definition chargebacks (charges : list Charge.t) : Z :=
  count Charge.disputed charges.

Definition chargebackRate (charges : list Charge.t) : Js.number :=
  Js.quot (chargebacks charges) (len charges).

(** Factor 2: chargeback history. *)
Definition chargebackHistory (charges : list Charge.t) (acc : RiskAcc) : RiskAcc :=
  let chargebacks := chargebacks charges in
  if 0 <? chargebacks then
    let chargebackRate := chargebackRate charges in
    flag {| type := high_chargeback_rate;
            severity := if Js.gtb chargebackRate Js.lit_0_01 then high else medium;
            description := ChargebacksText chargebacks;
            value := Js.of_Z chargebacks |}
         (if Js.gtb chargebackRate Js.lit_0_01 then 40 else 20) acc
  else acc.

(** [(Date.now() / 1000 - customer.created) / (86400 * 30)], in months. *)
Definition accountAge (now : Z) (customer : Customer.t) : Js.number :=
  if Js.truthyZ (Customer.created customer)
  then Js.div (Js.sub (Js.quot now 1000) (Js.of_Z (Customer.created customer)))
              (Js.of_Z (86400 * 30))
  else Js.zero.

Definition largeCharges (charges : list Charge.t) : Z :=
  count (fun c => 50000 <? Charge.amount c) charges.

(** Factor 3: new customer with a large transaction. *)
Definition newCustomerLargeAmount
    (now : Z) (customer : Customer.t) (charges : list Charge.t) (acc : RiskAcc)
  : RiskAcc :=
  let accountAge := accountAge now customer in
  if Js.ltb accountAge (Js.of_Z 1) && (0 <? largeCharges charges) then
    flag {| type := new_customer_large_amount;
            severity := medium;
            description := NewCustomerText accountAge;
            value := accountAge |}
         15 acc
  else acc.

(** [xs[i]?.created || 0] *)
Definition created_or0 (c : option Charge.t) : Z :=
  match c with
  | Some c => if Js.truthyZ (Charge.created c) then Charge.created c else 0
  | None => 0
  end.

Definition daysBetween (charges : list Charge.t) : Js.number :=
  let firstCharge := created_or0 (item charges (len charges - 1)) in
  let lastCharge := created_or0 (item charges 0) in
  Js.quot (lastCharge - firstCharge) 86400.

(** Factor 4: velocity check. *)
Definition velocityCheck (charges : list Charge.t) (acc : RiskAcc) : RiskAcc :=
  if 10 <? len charges then
    let daysBetween := daysBetween charges in
    if Js.ltb daysBetween (Js.of_Z 7) then
      flag {| type := velocity_check;
              severity := medium;
              description := VelocityText (len charges) daysBetween;
              value := Js.of_Z (len charges) |}
           10 acc
    else acc
  else acc.

Definition recommend (riskScore : Z) : Recommendation :=
  if riskScore <? 20 then low_risk
  else if riskScore <? 50 then medium_risk
  else high_risk.

Definition assessRisk
    (now : Z) (customer : Customer.t) (charges : list Charge.t)
    (paymentIntents : list PaymentIntent.t)
  : RiskAssessment :=
  let acc := no_risk in
  let acc := paymentFailures charges acc in
  let acc := chargebackHistory charges acc in
  let acc := newCustomerLargeAmount now customer charges acc in
  let acc := velocityCheck charges acc in
  {| score := Z.min (riskScore acc) 100;
     factors := acc_factors acc;
     recommendation := recommend (riskScore acc) |}.

(* ===================================================================== *)
(** * Exceptions and dates *)
(* ===================================================================== *)

Inductive Exn :=
| RangeError (message : string)
| Error (message : string).

Inductive Result (A : Type) :=
| Ok (a : A)
| Throw (e : Exn).
Arguments Ok {A} a.
Arguments Throw {A} e.

#[global] Instance Result_ret : MRet Result := fun _ a => Ok a.

#[global] Instance Result_bind : MBind Result := fun _ _ k r =>
  match r with
  | Ok a => k a
  | Throw e => Throw e
  end.

(** The ISO-8601 rendering of an instant, identified by its epoch
    milliseconds (the rendering is injective on valid dates). *)
Record IsoString := { epoch_ms : Z }.

(** [new Date(ms).toISOString()]: a time value beyond +-8.64e15 ms makes an
    invalid date, on which [toISOString] throws. *)
Definition toISOString (ms : Z) : Result IsoString :=
  if (Z.abs ms <=? 8640000000000000)
  then Ok {| epoch_ms := ms |}
  else Throw (RangeError "Invalid time value").

(* ===================================================================== *)
(** * Subscription health *)
(* ===================================================================== *)

Record SubscriptionHealth := {
  activeSubscriptions : Z;
  totalSubscriptions : Z;
  churnedSubscriptions : Z;
  monthlyRecurringRevenue : Js.number;
  nextBillingDate : option IsoString
}.

Definition is_active (s : Subscription.t) : bool :=
  match Subscription.status s with active => true | _ => false end.

Definition is_churned (s : Subscription.t) : bool :=
  match Subscription.status s with canceled | unpaid => true | _ => false end.

(** [sub.items.data[0]?.price] *)
Definition first_price (sub : Subscription.t) : option Price.t :=
  match item (Subscription.items sub) 0 with
  | Some price => price
  | None => None
  end.

Definition monthlyAmount (sub : Subscription.t) : Js.number :=
  let recurring :=
    match first_price sub with
    | Some p => Price.recurring p
    | None => None
    end in
  let intervalCount :=
    match recurring with
    | Some (_, n) => if Js.truthyZ n then n else 1
    | None => 1
    end in
  let interval := option_map fst recurring in
  let amount :=
    match first_price sub with
    | Some p => match Price.unit_amount p with
                | Some a => if Js.truthyZ a then a else 0
                | None => 0
                end
    | None => 0
    end in
  match interval with
  | Some year => Js.quot amount 12
  | Some month => Js.quot amount intervalCount
  | _ => Js.of_Z amount
  end.

Definition analyzeSubscriptions (subscriptions : list Subscription.t)
  : Result SubscriptionHealth :=
  let activeSubscriptions := count is_active subscriptions in
  let totalSubscriptions := len subscriptions in
  let churnedSubscriptions := count is_churned subscriptions in
  let monthlyRecurringRevenue :=
    Js.div
      (fold_left (fun sum sub => Js.add sum (monthlyAmount sub))
                 (List.filter is_active subscriptions) Js.zero)
      (Js.of_Z 100) in
  let activeSubs := List.filter is_active subscriptions in
  nextBillingDate ←
     match activeSubs with
     | sub :: _ =>
         d ← toISOString (Subscription.current_period_end sub * 1000);
         Ok (Some d)
     | [] => Ok None
     end;
  Ok {| activeSubscriptions := activeSubscriptions;
        totalSubscriptions := totalSubscriptions;
        churnedSubscriptions := churnedSubscriptions;
        monthlyRecurringRevenue := monthlyRecurringRevenue;
        nextBillingDate := nextBillingDate |}.

(* ===================================================================== *)
(** * Metadata *)
(* ===================================================================== *)

Record Metadata := {
  firstPurchaseDate : option IsoString;
  lastPurchaseDate : option IsoString;
  daysSinceLastPurchase : option Js.number;
  totalTransactions : Z
}.

(** [[...charges].sort((a, b) => a.created - b.created)]: the sort is
    stable, so is this insertion of each element after its equals. *)
Fixpoint insert_by_created (c : Charge.t) (sorted : list Charge.t)
  : list Charge.t :=
  match sorted with
  | [] => [c]
  | d :: rest =>
      if Charge.created c <? Charge.created d
      then c :: d :: rest
      else d :: insert_by_created c rest
  end.

Definition sort_by_created (charges : list Charge.t) : list Charge.t :=
  fold_left (fun sorted c => insert_by_created c sorted) charges [].

Definition extractMetadata
    (now : Z) (charges : list Charge.t) (customer : Customer.t)
  : Result Metadata :=
  let sortedCharges := sort_by_created charges in
  let firstCharge := item sortedCharges 0 in
  let lastCharge := item sortedCharges (len sortedCharges - 1) in
  firstPurchaseDate ←
     match firstCharge with
     | Some c => d ← toISOString (Charge.created c * 1000); Ok (Some d)
     | None => Ok None
     end;
  lastPurchaseDate ←
     match lastCharge with
     | Some c => d ← toISOString (Charge.created c * 1000); Ok (Some d)
     | None => Ok None
     end;
  let daysSinceLastPurchase :=
    match lastCharge with
    | Some c =>
        Some (Js.floor
                (Js.div (Js.sub (Js.quot now 1000) (Js.of_Z (Charge.created c)))
                        (Js.of_Z 86400)))
    | None => None
    end in
  Ok {| firstPurchaseDate := firstPurchaseDate;
        lastPurchaseDate := lastPurchaseDate;
        daysSinceLastPurchase := daysSinceLastPurchase;
        totalTransactions := len charges |}.

(* ===================================================================== *)
(** * The aggregator *)
(* ===================================================================== *)

Record CustomerInsights := {
  customerId : string;
  lifetimeValue : LifetimeValue;
  paymentPattern : PaymentPattern;
  riskAssessment : RiskAssessment;
  subscriptionHealth : SubscriptionHealth;
  metadata : Metadata
}.

Definition calculateCustomerInsights (now : Z) (data : StripeCustomerData)
  : Result CustomerInsights :=
  let lifetimeValue := calculateLifetimeValue (charges data) (subscriptions data) in
  let paymentPattern := analyzePaymentPattern (charges data) (paymentIntents data) in
  let riskAssessment :=
    assessRisk now (customer data) (charges data) (paymentIntents data) in
  subscriptionHealth ← analyzeSubscriptions (subscriptions data);
  metadata ← extractMetadata now (charges data) (customer data);
  Ok {| customerId := Customer.id (customer data);
        lifetimeValue := lifetimeValue;
        paymentPattern := paymentPattern;
        riskAssessment := riskAssessment;
        subscriptionHealth := subscriptionHealth;
        metadata := metadata |}.

(* ===================================================================== *)
(** * Process state and effects *)
(* ===================================================================== *)

Record CacheEntry := {
  data : StripeCustomerData;
  timestamp : Z
}.

(** One constructor per [console.log] / [console.warn] / [console.error]
    call of the modelled code, with the identifiers it prints. *)
Inductive LogEntry :=
| LogFetchError (customerId : string)
| LogCacheHit (customerId : string)
| LogCacheMiss (customerId : string)
| LogCacheInvalidated (customerId : string)
| LogSignatureFailed
| LogProcessing (eventType : string)
| LogUnhandled (eventType : string)
| LogCustomerCreated (customerId : string)
| LogCustomerUpdated (customerId : string)
| LogChargeSucceeded (customerId : string)
| LogChargeFailed (customerId : string)
| LogSubscriptionCreated (customerId objectId : string)
| LogSubscriptionDeleted (customerId objectId : string)
| WarnNoCustomer (eventType objectId : string)
| LogDuplicate (eventId : string)
| LogProcessingFailed.

(** The module-level [cache] and [processedEvents], and the console. *)
Record State := {
  cache : gmap string CacheEntry;
  processedEvents : gset string;
  console : list LogEntry
}.

Definition Eff (A : Type) : Type := State -> Result A * State.

#[global] Instance Eff_ret : MRet Eff := fun _ a st => (Ok a, st).

#[global] Instance Eff_bind : MBind Eff := fun _ _ k m st =>
  match m st with
  | (Ok a, st') => k a st'
  | (Throw e, st') => (Throw e, st')
  end.

Definition throw {A} (e : Exn) : Eff A := fun st => (Throw e, st).

(** [try { m } catch (error) { h error }] *)
Definition try_catch {A} (m : Eff A) (h : Exn -> Eff A) : Eff A := fun st =>
  match m st with
  | (Ok a, st') => (Ok a, st')
  | (Throw e, st') => h e st'
  end.

Definition log (entry : LogEntry) : Eff unit := fun st =>
  (Ok tt, {| cache := cache st;
             processedEvents := processedEvents st;
             console := console st ++ [entry] |}).

Definition cache_get (customerId : string) : Eff (option CacheEntry) := fun st =>
  (Ok (cache st !! customerId), st).

Definition cache_set (customerId : string) (entry : CacheEntry) : Eff unit :=
  fun st =>
  (Ok tt, {| cache := <[customerId := entry]> (cache st);
             processedEvents := processedEvents st;
             console := console st |}).

Definition cache_delete (customerId : string) : Eff unit := fun st =>
  (Ok tt, {| cache := delete customerId (cache st);
             processedEvents := processedEvents st;
             console := console st |}).

(* ===================================================================== *)
(** * Collector and cache *)
(* ===================================================================== *)

(** The answer of the payments API for one customer: the five collected
    record sets, or [None] when any of the requests fails. *)
Definition Upstream := string -> option StripeCustomerData.

Definition fetchCustomerData (api : Upstream) (customerId : string)
  : Eff StripeCustomerData :=
  match api customerId with
  | Some d => mret d
  | None =>
      _ ← log (LogFetchError customerId);
      throw (Error ("Failed to fetch data for customer " ++ customerId)%string)
  end.

Definition CACHE_TTL : Z := 5 * 60 * 1000.

(** [now] is the clock read by the freshness test, [now'] the clock read
    when the fetched data is stored. *)
Definition fetchCustomerDataWithCache
    (api : Upstream) (now now' : Z) (customerId : string) (bypassCache : bool)
  : Eff StripeCustomerData :=
  hit ← (if negb bypassCache then
            cached ← cache_get customerId;
            match cached with
            | Some c =>
                if now - timestamp c <? CACHE_TTL
                then mret (Some (data c)) else mret None
            | None => mret None
            end
          else mret None);
  match hit with
  | Some d =>
      _ ← log (LogCacheHit customerId);
      mret d
  | None =>
      _ ← log (LogCacheMiss customerId);
      d ← fetchCustomerData api customerId;
      _ ← cache_set customerId {| data := d; timestamp := now' |};
      mret d
  end.

Definition invalidateCache (customerId : string) : Eff unit :=
  _ ← cache_delete customerId;
  log (LogCacheInvalidated customerId).

(* ===================================================================== *)
(** * Webhook listener *)
(* ===================================================================== *)

(** [event.data.object]: the handlers read its [id] and its [customer]. *)
Module Event.
Record t := mk {
  id : string;
  type : string;
  object_id : string;
  object_customer : Expandable
}.
End Event.

(** [stripe.webhooks.constructEvent(payload, signature, secret)] of the
    Stripe SDK: the parsed event when the signature header verifies against
    the secret, [None] when it throws. *)
Definition ConstructEvent := string -> option string -> string -> option Event.t.

Definition verifyWebhookSignature
    (constructEvent : ConstructEvent)
    (payload : string) (signature : option string) (secret : string)
  : Eff Event.t :=
  match constructEvent payload signature secret with
  | Some event => mret event
  | None =>
      _ ← log LogSignatureFailed;
      throw (Error "Invalid webhook signature")
  end.

(** [typeof x.customer === 'string' ? x.customer : x.customer?.id],
    followed by the test [!customerId]. *)
Definition customerId_of (event : Event.t) : option string :=
  match Event.object_customer event with
  | Id s => if truthy_string s then Some s else None
  | Expanded s => if truthy_string s then Some s else None
  | Absent => None
  end.

Definition handleCustomerCreated (event : Event.t) : Eff unit :=
  log (LogCustomerCreated (Event.object_id event)).

Definition handleCustomerUpdated (event : Event.t) : Eff unit :=
  _ ← log (LogCustomerUpdated (Event.object_id event));
  invalidateCache (Event.object_id event).

Definition handleChargeSucceeded (event : Event.t) : Eff unit :=
  match customerId_of event with
  | None => log (WarnNoCustomer "charge.succeeded" (Event.object_id event))
  | Some customerId =>
      _ ← log (LogChargeSucceeded customerId);
      invalidateCache customerId
  end.

Definition handleChargeFailed (event : Event.t) : Eff unit :=
  match customerId_of event with
  | None => log (WarnNoCustomer "charge.failed" (Event.object_id event))
  | Some customerId =>
      _ ← log (LogChargeFailed customerId);
      invalidateCache customerId
  end.

Definition handleSubscriptionCreated (event : Event.t) : Eff unit :=
  match customerId_of event with
  | None => log (WarnNoCustomer "subscription.created" (Event.object_id event))
  | Some customerId =>
      _ ← log (LogSubscriptionCreated customerId (Event.object_id event));
      invalidateCache customerId
  end.

Definition handleSubscriptionDeleted (event : Event.t) : Eff unit :=
  match customerId_of event with
  | None => log (WarnNoCustomer "subscription.deleted" (Event.object_id event))
  | Some customerId =>
      _ ← log (LogSubscriptionDeleted customerId (Event.object_id event));
      invalidateCache customerId
  end.

Definition handleWebhook (event : Event.t) : Eff unit :=
  _ ← log (LogProcessing (Event.type event));
  if String.eqb (Event.type event) "customer.created" then
    handleCustomerCreated event
  else if String.eqb (Event.type event) "customer.updated" then
    handleCustomerUpdated event
  else if String.eqb (Event.type event) "charge.succeeded" then
    handleChargeSucceeded event
  else if String.eqb (Event.type event) "charge.failed" then
    handleChargeFailed event
  else if String.eqb (Event.type event) "subscription.created" then
    handleSubscriptionCreated event
  else if String.eqb (Event.type event) "subscription.deleted" then
    handleSubscriptionDeleted event
  else
    log (LogUnhandled (Event.type event)).

Definition isEventProcessed (eventId : string) : Eff bool := fun st =>
  (Ok (bool_decide (eventId ∈ processedEvents st)), st).

Definition markEventProcessed (eventId : string) : Eff unit := fun st =>
  (Ok tt, {| cache := cache st;
             processedEvents := {[eventId]} ∪ processedEvents st;
             console := console st |}).

(** [hay.includes(needle)] *)
Fixpoint includes (needle hay : string) : bool :=
  String.prefix needle hay ||
  match hay with
  | EmptyString => false
  | String _ rest => includes needle rest
  end.

Definition message_of (e : Exn) : string :=
  match e with
  | RangeError m => m
  | Error m => m
  end.

Inductive ResponseBody :=
| Received
| ErrorBody (error : string).

Record Response := {
  status : Z;
  body : ResponseBody
}.

Record Request := {
  req_body : string;
  stripe_signature : option string      (* req.headers['stripe-signature'] *)
}.

(** [process.env.STRIPE_WEBHOOK_SECRET || ''] *)
Definition webhookSecret (env_secret : option string) : string :=
  match env_secret with
  | Some s => string_or s ""
  | None => ""
  end.

(** The request handler returned by [createWebhookEndpoint()];
    [env_secret] is [process.env.STRIPE_WEBHOOK_SECRET]. *)
Definition createWebhookEndpoint
    (constructEvent : ConstructEvent) (env_secret : option string)
    (req : Request)
  : Eff Response :=
  let signature := stripe_signature req in
  let webhookSecret := webhookSecret env_secret in
  try_catch
    (event ← verifyWebhookSignature constructEvent (req_body req)
                                     signature webhookSecret;
     duplicate ← isEventProcessed (Event.id event);
     if (duplicate : bool) then
       _ ← log (LogDuplicate (Event.id event));
       mret {| status := 200; body := Received |}
     else
       _ ← handleWebhook event;
       _ ← markEventProcessed (Event.id event);
       mret {| status := 200; body := Received |})
    (fun error =>
       _ ← log LogProcessingFailed;
       if includes "signature" (message_of error)
       then mret {| status := 400; body := ErrorBody "Invalid signature" |}
       else mret {| status := 500; body := ErrorBody "Internal server error" |}).

(** The number of cache invalidations recorded on the console. *)
Definition invalidations (entries : list LogEntry) : nat :=
  length (List.filter
            (fun e => match e with LogCacheInvalidated _ => true | _ => false end)
            entries).

(* ===================================================================== *)
(** * Collector: the paginated fetches *)
(* ===================================================================== *)

(** The parameters of a [stripe.X.list({...})] call. *)
Record ListParams := {
  lp_customer : string;
  lp_limit : Z;
  lp_status : option string;
  lp_starting_after : option string
}.

(** A page of a list endpoint: [response.data] and [response.has_more]. *)
Record Page (A : Type) := {
  page_data : list A;
  has_more : bool
}.
Arguments page_data {A} _.
Arguments has_more {A} _.

(** What [stripe.customers.retrieve] resolves to. *)
Inductive Retrieved :=
| Live (customer : Customer.t)
| Deleted (id : string).

(** The endpoints of the payments API, over a server with states [S]: each
    call answers (or fails) and moves the server to a new state. *)
Record StripeApi (S : Type) := {
  customers_retrieve : string -> list string -> S -> Result Retrieved * S;
  charges_list : ListParams -> S -> Result (Page Charge.t) * S;
  paymentIntents_list : ListParams -> S -> Result (Page PaymentIntent.t) * S;
  subscriptions_list : ListParams -> S -> Result (Page Subscription.t) * S;
  invoices_list : ListParams -> S -> Result (Page Invoice.t) * S
}.
Arguments customers_retrieve {S} _.
Arguments charges_list {S} _.
Arguments paymentIntents_list {S} _.
Arguments subscriptions_list {S} _.
Arguments invoices_list {S} _.

(** A fetch that is still looping when the fuel runs out has no outcome. *)
Definition Fetch (S A : Type) : Type := S -> option (Result A * S).

Definition fetchCustomer {S} (api : StripeApi S) (customerId : string)
  : Fetch S Customer.t := fun s =>
  match customers_retrieve api customerId
          ["default_source"; "invoice_settings.default_payment_method"] s with
  | (Ok (Live customer), s') => Some (Ok customer, s')
  | (Ok (Deleted _), s') => Some (Throw (Error "Customer has been deleted"), s')
  | (Throw e, s') => Some (Throw e, s')
  end.

(** The pagination loop shared, word for word, by [fetchCharges],
    [fetchPaymentIntents], [fetchSubscriptions] and [fetchInvoices]:
    [collected] is the array being filled, [startingAfter] the cursor. *)
Fixpoint paginate {S A}
    (id_of : A -> string)
    (list_call : ListParams -> S -> Result (Page A) * S)
    (params : option string -> ListParams)
    (fuel : nat) (collected : list A) (startingAfter : option string)
  : Fetch S (list A) := fun s =>
  match fuel with
  | O => None
  | Datatypes.S fuel' =>
      match list_call (params startingAfter) s with
      | (Throw e, s') => Some (Throw e, s')
      | (Ok response, s') =>
          let collected' := collected ++ page_data response in
          let startingAfter' :=
            if 0 <? len (page_data response) then
              match item (page_data response) (len (page_data response) - 1) with
              | Some last => Some (id_of last)
              | None => startingAfter
              end
            else startingAfter in
          if has_more response
          then paginate id_of list_call params fuel' collected' startingAfter' s'
          else Some (Ok collected', s')
      end
  end.

Definition fetchCharges {S} (api : StripeApi S) (customerId : string)
    (fuel : nat) : Fetch S (list Charge.t) :=
  paginate Charge.id (charges_list api)
    (fun startingAfter =>
       {| lp_customer := customerId; lp_limit := 100; lp_status := None;
          lp_starting_after := startingAfter |})
    fuel [] None.

Definition fetchPaymentIntents {S} (api : StripeApi S) (customerId : string)
    (fuel : nat) : Fetch S (list PaymentIntent.t) :=
  paginate PaymentIntent.id (paymentIntents_list api)
    (fun startingAfter =>
       {| lp_customer := customerId; lp_limit := 100; lp_status := None;
          lp_starting_after := startingAfter |})
    fuel [] None.

Definition fetchSubscriptions {S} (api : StripeApi S) (customerId : string)
    (fuel : nat) : Fetch S (list Subscription.t) :=
  paginate Subscription.id (subscriptions_list api)
    (fun startingAfter =>
       {| lp_customer := customerId; lp_limit := 100; lp_status := Some "all";
          lp_starting_after := startingAfter |})
    fuel [] None.

Definition fetchInvoices {S} (api : StripeApi S) (customerId : string)
    (fuel : nat) : Fetch S (list Invoice.t) :=
  paginate Invoice.id (invoices_list api)
    (fun startingAfter =>
       {| lp_customer := customerId; lp_limit := 100; lp_status := None;
          lp_starting_after := startingAfter |})
    fuel [] None.

(* ===================================================================== *)
(** * Notions used in the statements *)
(* ===================================================================== *)

(** "Sum amounts of records with outcome succeeded, split into
    linked-to-recurring-billing vs not linked, minus the sum of refunded
    amounts across all records regardless of outcome." *)
Fixpoint spec_oneTime (records : list Charge.t) : Z :=
  match records with
  | [] => 0
  | r :: rest =>
      (match Charge.status r, truthy_ref (Charge.invoice r) with
       | succeeded, false => Charge.amount r
       | _, _ => 0
       end) + spec_oneTime rest
  end.

Fixpoint spec_subscription (records : list Charge.t) : Z :=
  match records with
  | [] => 0
  | r :: rest =>
      (match Charge.status r, truthy_ref (Charge.invoice r) with
       | succeeded, true => Charge.amount r
       | _, _ => 0
       end) + spec_subscription rest
  end.

Fixpoint spec_refunded (records : list Charge.t) : Z :=
  match records with
  | [] => 0
  | r :: rest =>
      (match Charge.amount_refunded r with
       | Some a => a
       | None => 0
       end) + spec_refunded rest
  end.

(** The sum of the integers [f x], in exact integer arithmetic. *)
Definition exact_sum {A} (f : A -> Z) (xs : list A) : Z :=
  fold_left (fun sum x => sum + f x) xs 0.

(** The volume of a list of payment records: all amounts and all refunded
    amounts, added up in absolute value. *)
Definition volume (records : list Charge.t) : Z :=
  exact_sum (fun r => Z.abs (Charge.amount r) + Z.abs (refund_of r)) records.

(** The integer [m] with the sign [s]. *)
Definition with_sign (s : bool) (m : Z) : Z := if s then - m else m.

(** The number [x], read as the exact real number [v * 2^e] it denotes, is
    less than half a minor unit (0.005 display units) away from [n] minor
    units: rounded to the currency's minor unit, [x] is [n]. *)
Definition reads_minor_units (x : Js.number) (n : Z) : Prop :=
  match x with
  | S754_zero _ => n = 0
  | S754_finite s m e =>
      let v := with_sign s (Z.pos m) in
      if 0 <=? e then 100 * v * 2 ^ e = n
      else Z.abs (200 * v - 2 * n * 2 ^ (- e)) < 2 ^ (- e)
  | _ => False
  end.

(** Each of the four blocks adds its own points and factors to whatever
    was accumulated before it. *)
Definition additive (block : RiskAcc -> RiskAcc) : Prop :=
  forall acc,
    riskScore (block acc) = riskScore acc + riskScore (block no_risk) /\
    acc_factors (block acc) = acc_factors acc ++ acc_factors (block no_risk).

(** A Unix time (seconds) whose instant is a valid [Date]. *)
Definition valid_time (seconds : Z) : Prop :=
  Z.abs (seconds * 1000) <= 8640000000000000.

Definition valid_times (data : StripeCustomerData) : Prop :=
  (forall c, In c (charges data) -> valid_time (Charge.created c)) /\
  (forall s, In s (subscriptions data) ->
             valid_time (Subscription.current_period_end s)).

(** The points of the three factors other than the failure rate. *)
Definition other_points
    (now : Z) (customer : Customer.t) (charges : list Charge.t) : Z :=
  riskScore (chargebackHistory charges no_risk)
  + riskScore (newCustomerLargeAmount now customer charges no_risk)
  + riskScore (velocityCheck charges no_risk).

(** The factor reported for a failure rate of 3 in 4. *)
Definition failures_3_of_4 : RiskFactor :=
  {| type := payment_failures;
     severity := high;
     description := FailureRateText (Js.of_Z 75);
     value := Js.quot 3 4 |}.

(** The outcome of a lookup that misses in state [st]: the payments API is
    consulted; its data is returned and stored with the time of storing, or
    its failure is thrown and nothing is stored. *)
Definition is_miss
    (api : Upstream) (now' : Z) (customerId : string) (st : State)
    (out : Result StripeCustomerData * State) : Prop :=
  match api customerId with
  | Some fresh =>
      out = (Ok fresh,
             {| cache := <[customerId := {| data := fresh; timestamp := now' |}]>
                           (cache st);
                processedEvents := processedEvents st;
                console := console st ++ [LogCacheMiss customerId] |})
  | None =>
      exists message,
        out = (Throw (Error message),
               {| cache := cache st;
                  processedEvents := processedEvents st;
                  console := console st ++ [LogCacheMiss customerId;
                                            LogFetchError customerId] |})
  end.

(** The outcome of a lookup that hits on [d]: [d] is returned and nothing
    but the console changes. *)
Definition is_hit
    (d : StripeCustomerData) (customerId : string) (st : State)
    (out : Result StripeCustomerData * State) : Prop :=
  out = (Ok d,
         {| cache := cache st;
            processedEvents := processedEvents st;
            console := console st ++ [LogCacheHit customerId] |}).

(** The customer whose cache entry a notification invalidates, by type tag:
    entity-updated invalidates the entity itself; payment-succeeded,
    payment-failed, subscription-created and subscription-deleted invalidate
    the customer the object names, if it names one; entity-created and
    unknown types invalidate nothing. *)
Definition invalidation_target (event : Event.t) : option string :=
  if String.eqb (Event.type event) "customer.created" then None
  else if String.eqb (Event.type event) "customer.updated"
       then Some (Event.object_id event)
  else if String.eqb (Event.type event) "charge.succeeded"
          || String.eqb (Event.type event) "charge.failed"
          || String.eqb (Event.type event) "subscription.created"
          || String.eqb (Event.type event) "subscription.deleted"
       then customerId_of event
  else None.

Definition invalidation_count (event : Event.t) : nat :=
  match invalidation_target event with
  | Some _ => 1
  | None => 0
  end.

Definition invalidated_cache (event : Event.t) (st : State)
  : gmap string CacheEntry :=
  match invalidation_target event with
  | Some customerId => delete customerId (cache st)
  | None => cache st
  end.

Definition acknowledged : Response := {| status := 200; body := Received |}.

(* ===================================================================== *)
(** * Notions used in the further properties *)
(* ===================================================================== *)

(** The records that follow the record whose id is [cursor]. *)
Fixpoint after_id {A} (id_of : A -> string) (cursor : string)
    (records : list A) : list A :=
  match records with
  | [] => []
  | r :: rest =>
      if String.eqb (id_of r) cursor then rest else after_id id_of cursor rest
  end.

(** A list endpoint that serves a fixed sequence of records by cursor: at
    most [limit] records after the cursor, and whether more remain. *)
Definition paged_server {A} (id_of : A -> string) (records : list A)
  : ListParams -> unit -> Result (Page A) * unit := fun params s =>
  let rest :=
    match lp_starting_after params with
    | None => records
    | Some cursor => after_id id_of cursor records
    end in
  (Ok {| page_data := firstn (Z.to_nat (lp_limit params)) rest;
         has_more := lp_limit params <? len rest |}, s).

(** The cursor the pagination loop holds after collecting [collected]:
    the id of the last record collected. *)
Definition cursor_of {A} (id_of : A -> string)
    (collected : list A) (cursor : option string) : Prop :=
  match cursor with
  | None => collected = []
  | Some c => exists before x, collected = before ++ [x] /\ c = id_of x
  end.

(** The payment method type a charge counts for, if any. *)
Definition method_of (c : Charge.t) : option string :=
  match Charge.payment_method_type c with
  | Some type => if truthy_string type then Some type else None
  | None => None
  end.

(** The number of charges that count for the payment method [type]. *)
Definition occurrences (type : string) (charges : list Charge.t) : Z :=
  count (fun c => match method_of c with
                  | Some t => String.eqb t type
                  | None => false
                  end) charges.

(** The body of the [forEach] that fills [paymentMethodCounts]. *)
Definition count_method (m : list (string * Z)) (charge : Charge.t)
  : list (string * Z) :=
  match Charge.payment_method_type charge with
  | Some type =>
      if truthy_string type
      then map_set type (map_get_or0 type m + 1) m
      else m
  | None => m
  end.

(** The body of the [forEach] that picks the preferred method; the state
    is [(maxCount, preferredPaymentMethod)]. *)
Definition prefer (acc : Z * option string) (entry : string * Z)
  : Z * option string :=
  let '(method, count) := entry in
  if fst acc <? count then (count, Some method) else acc.

(** Every count held by the map is positive. *)
Definition positive_counts (m : list (string * Z)) : Prop :=
  forall k v, map_get k m = Some v -> 0 < v.

(** The points the score holds for a reported factor. *)
Definition factor_points (f : RiskFactor) : Z :=
  match type f, severity f with
  | payment_failures, high => 30
  | payment_failures, _ => 15
  | high_chargeback_rate, high => 40
  | high_chargeback_rate, _ => 20
  | new_customer_large_amount, _ => 15
  | velocity_check, _ => 10
  end.

(** The condition under which [assessRisk] reports a factor of a type. *)
Definition flagged
    (now : Z) (customer : Customer.t) (charges : list Charge.t)
    (t : RiskFactorType) : Prop :=
  match t with
  | payment_failures => Js.gtb (failureRate charges) Js.lit_0_3 = true
  | high_chargeback_rate => 0 < chargebacks charges
  | new_customer_large_amount =>
      Js.ltb (accountAge now customer) (Js.of_Z 1) = true /\
      0 < largeCharges charges
  | velocity_check =>
      10 < len charges /\ Js.ltb (daysBetween charges) (Js.of_Z 7) = true
  end.

(** What a block leaves when run on its own: nothing, or the one factor of
    its type with the points it adds, according to its condition. *)
Definition block_shape
    (now : Z) (customer : Customer.t) (cs : list Charge.t)
    (t : RiskFactorType) (acc : RiskAcc) : Prop :=
  (acc_factors acc = [] /\ riskScore acc = 0 /\ ~ flagged now customer cs t) \/
  (exists f, acc_factors acc = [f] /\ type f = t /\
             factor_points f = riskScore acc /\ flagged now customer cs t).

(** A number that is a zero, an infinity or a finite value of sign [s]
    (so, not NaN). *)
Definition has_sign (s : bool) (x : Js.number) : Prop :=
  x = S754_zero s \/ x = S754_infinity s \/
  exists m e, x = S754_finite s m e.

(** A number other than [-0] whose exponent, if it has one, is at least
    the smallest exponent of binary64. *)
Definition regular (x : Js.number) : Prop :=
  match x with
  | S754_zero s => s = false
  | S754_finite _ _ e => -1074 <= e
  | _ => True
  end.

(** The exponent of the rounding grid of binary64 at magnitude [e]. *)
Definition fexp64 (e : Z) : Z := Z.max (e - 53) (-1074).

(** The two halves of [binary_round]: alignment with a first shift, then
    rounding with a second shift. *)
Definition first_step (p : positive) (e : Z) : shr_record * Z :=
  let '(mz, ez) :=
    shl_align p e (fexp Js.prec Js.emax (Z.pos (digits2_pos p) + e)) in
  shr_fexp Js.prec Js.emax (Z.pos mz) ez loc_Exact.

Definition second_step (s : bool) (st : shr_record * Z) : Js.number :=
  let '(mrs', e') := st in
  let '(mrs'', e'') :=
    shr_fexp Js.prec Js.emax
      (round_nearest_even (shr_m mrs') (loc_of_shr_record mrs')) e' loc_Exact in
  match shr_m mrs'' with
  | Z0 => S754_zero s
  | Zpos m => if e'' <=? Js.emax - Js.prec then S754_finite s m e''
              else S754_infinity s
  | _ => S754_nan
  end.

(** [a] was created no later than [b]. *)
Definition not_after (a b : Charge.t) : Prop :=
  Charge.created a <= Charge.created b.

(** The first active subscription, in input order. *)
Definition first_active (subs : list Subscription.t) : option Subscription.t :=
  head (List.filter is_active subs).

(** Deliveries handled one after the other by the endpoint. *)
Fixpoint deliver_all
    (constructEvent : ConstructEvent) (env_secret : option string)
    (reqs : list Request) (st : State) : list Response * State :=
  match reqs with
  | [] => ([], st)
  | req :: rest =>
      match createWebhookEndpoint constructEvent env_secret req st with
      | (Ok response, st') =>
          let '(responses, st'') :=
            deliver_all constructEvent env_secret rest st' in
          (response :: responses, st'')
      | (Throw _, st') => ([], st')
      end
  end.

(* ===================================================================== *)
(** * Sample inputs *)
(* ===================================================================== *)

(** A charge with the given amount, refund, outcome and billing link. *)
Definition sample_charge
    (amount refund : Z) (status : ChargeStatus) (invoice : Expandable)
  : Charge.t :=
  Charge.mk "ch_sample" amount (Some refund) "eur" status invoice false
            1700000000 (Some "card").

(** Scenario A: three succeeded charges of 1000, 2000 and 3000 minor units,
    500 refunded on the first. *)
Definition scenario_A : list Charge.t :=
  [ sample_charge 1000 500 succeeded Absent;
    sample_charge 2000 0 succeeded Absent;
    sample_charge 3000 0 succeeded (Id "in_1") ].

(** Two succeeded charges of 10 and 20 minor units, the second linked to
    recurring billing. *)
Definition dime_and_twenty : list Charge.t :=
  [ sample_charge 10 0 succeeded Absent;
    sample_charge 20 0 succeeded (Id "in_1") ].


(** A one-time charge of 2^53 minor units followed by two of one minor unit,
    and the same charges with the large one last. *)
Definition large_first : list Charge.t :=
  [ sample_charge 9007199254740992 0 succeeded Absent;
    sample_charge 1 0 succeeded Absent;
    sample_charge 1 0 succeeded Absent ].

Definition large_last : list Charge.t :=
  [ sample_charge 1 0 succeeded Absent;
    sample_charge 1 0 succeeded Absent;
    sample_charge 9007199254740992 0 succeeded Absent ].

(** One succeeded and three failed charges. *)
Definition scenario_B : StripeCustomerData :=
  {| customer := Customer.mk "cus_B" 1600000000;
     charges := [ sample_charge 1200 0 failed Absent;
                  sample_charge 1200 0 succeeded Absent;
                  sample_charge 1200 0 failed Absent;
                  sample_charge 1200 0 failed Absent ];
     paymentIntents := [];
     subscriptions := [];
     invoices := [] |}.

Definition settled_customer : Customer.t := Customer.mk "cus_1" 1600000000.
Definition clock : Z := 1700000000000.

Definition plain_charge : Charge.t :=
  Charge.mk "ch_plain" 1000 (Some 0) "usd" succeeded Absent false
            1700000000 (Some "card").

Definition disputed_charge : Charge.t :=
  Charge.mk "ch_disputed" 1000 (Some 0) "usd" succeeded Absent true
            1700000000 (Some "card").

(** One disputed charge among 99, and among 100, all at the same instant. *)
Definition one_dispute_in_99 : list Charge.t :=
  disputed_charge :: repeat plain_charge 98.

Definition one_dispute_in_100 : list Charge.t :=
  disputed_charge :: repeat plain_charge 99.

Definition disputed_success : Charge.t :=
  Charge.mk "ch_1" 60000 (Some 0) "usd" succeeded Absent true
            1700000000 (Some "card").

Definition disputed_failure : Charge.t :=
  Charge.mk "ch_1" 60000 (Some 0) "usd" failed Absent true
            1700000000 (Some "card").

Definition one_failure_in_3 : list Charge.t :=
  [ disputed_success; plain_charge; sample_charge 500 0 failed Absent ].

Definition two_failures_in_3 : list Charge.t :=
  [ disputed_failure; plain_charge; sample_charge 500 0 failed Absent ].

Definition empty_state : State :=
  {| cache := ∅; processedEvents := ∅; console := [] |}.

Definition api_down : Upstream := fun _ => None.

Definition created_event : Event.t :=
  Event.mk "evt_1" "customer.created" "cus_E" Absent.

Definition charge_event : Event.t :=
  Event.mk "evt_2" "charge.succeeded" "ch_9" (Id "cus_E").

(** A stand-in for the SDK's verification: the signature header must be the
    secret itself, and the payload names one of the two events above. *)
Definition sample_constructEvent : ConstructEvent :=
  fun payload signature secret =>
    match signature with
    | Some s =>
        if String.eqb s secret then
          if String.eqb payload "created" then Some created_event
          else if String.eqb payload "charge" then Some charge_event
          else None
        else None
    | None => None
    end.

Definition signed (payload : string) : Request :=
  {| req_body := payload; stripe_signature := Some "whsec_1" |}.

Definition forged (payload : string) : Request :=
  {| req_body := payload; stripe_signature := Some "whsec_guess" |}.

Definition sample_endpoint : Request -> Eff Response :=
  createWebhookEndpoint sample_constructEvent (Some "whsec_1").

(** An API whose list endpoints serve fixed record sequences by cursor. *)
Definition sample_api
    (cs : list Charge.t) (pis : list PaymentIntent.t)
    (subs : list Subscription.t) (invs : list Invoice.t) : StripeApi unit :=
  {| customers_retrieve := fun id _ s => (Ok (Deleted id), s);
     charges_list := paged_server Charge.id cs;
     paymentIntents_list := paged_server PaymentIntent.id pis;
     subscriptions_list := paged_server Subscription.id subs;
     invoices_list := paged_server Invoice.id invs |}.

(** An API whose list endpoints always answer an empty page and report
    that more remain. *)
Definition stalled_api : StripeApi unit :=
  {| customers_retrieve := fun id _ s => (Ok (Deleted id), s);
     charges_list := fun _ s => (Ok {| page_data := []; has_more := true |}, s);
     paymentIntents_list :=
       fun _ s => (Ok {| page_data := []; has_more := true |}, s);
     subscriptions_list :=
       fun _ s => (Ok {| page_data := []; has_more := true |}, s);
     invoices_list :=
       fun _ s => (Ok {| page_data := []; has_more := true |}, s) |}.

(** [n] charges with pairwise distinct ids: [id], then [id] with one more
    character in front at each step. *)
Fixpoint numbered_charges (n : nat) (id : string) : list Charge.t :=
  match n with
  | O => []
  | Datatypes.S n' =>
      Charge.mk id 100 None "usd" succeeded Absent false 1700000000 None
      :: numbered_charges n' (String (Ascii.ascii_of_nat 49) id)
  end.

(** Five charges: sepa, card, card, sepa and one without a method. *)
Definition method_charges : list Charge.t :=
  [ Charge.mk "a" 1 None "usd" succeeded Absent false 1 (Some "sepa");
    Charge.mk "b" 1 None "usd" succeeded Absent false 2 (Some "card");
    Charge.mk "c" 1 None "usd" succeeded Absent false 3 (Some "card");
    Charge.mk "d" 1 None "usd" succeeded Absent false 4 (Some "sepa");
    Charge.mk "e" 1 None "usd" succeeded Absent false 5 None ].

(** Three charges created at 30, 10 and 20 seconds. *)
Definition dated_charges : list Charge.t :=
  [ Charge.mk "x" 1 None "usd" succeeded Absent false 30 None;
    Charge.mk "y" 1 None "usd" succeeded Absent false 10 None;
    Charge.mk "z" 1 None "usd" succeeded Absent false 20 None ].

(** A charge created at a time that is no valid date. *)
Definition undated_charge : Charge.t :=
  Charge.mk "u" 1 None "usd" succeeded Absent false 8640000000001 None.

(** Twelve charges in ascending order, 100 days apart. *)
Definition ascending_charges : list Charge.t :=
  map (fun k => Charge.mk "asc" 1000 (Some 0) "usd" succeeded Absent false
                          (1600000000 + 8640000 * Z.of_nat k) (Some "card"))
      (seq 0 12).

Definition monthly_price : option Price.t :=
  Some {| Price.recurring := Some (month, 1); Price.unit_amount := Some 2000 |}.

(** A canceled subscription followed by two active ones. *)
Definition sample_subscriptions : list Subscription.t :=
  [ Subscription.mk "sub_1" canceled [monthly_price] 1690000000;
    Subscription.mk "sub_2" active [monthly_price] 1700000000;
    Subscription.mk "sub_3" active [monthly_price] 1695000000 ].

(** An active subscription whose period end is no valid date, among valid
    ones. *)
Definition misdated_subscriptions : list Subscription.t :=
  [ Subscription.mk "sub_1" canceled [monthly_price] 1690000000;
    Subscription.mk "sub_4" active [monthly_price] 8640000000001;
    Subscription.mk "sub_2" active [monthly_price] 1700000000 ].

Definition api_up : Upstream := fun _ => Some scenario_B.

(** The data of scenario B stored for customer "cus_E" at time 1000. *)
Definition stocked_state : State :=
  snd (cache_set "cus_E" {| data := scenario_B; timestamp := 1000 |}
                 empty_state).

(** The state after the charge notification has been processed once and
    the data of "cus_E" stored again at time 5000. *)
Definition refreshed_state : State :=
  snd (cache_set "cus_E" {| data := scenario_B; timestamp := 5000 |}
         (snd (sample_endpoint (signed "charge") stocked_state))).

(* ===================================================================== *)
(** * The model on concrete values *)
(* ===================================================================== *)

(** The literals are the doubles nearest to 0.3, 0.5 and 0.01 (what the
    correctly rounded divisions give). *)
Example literals_are_nearest :
  Js.quot 3 10 = Js.lit_0_3 /\ Js.quot 1 2 = Js.lit_0_5 /\
  Js.quot 1 100 = Js.lit_0_01.
Proof. vm_compute. repeat split; reflexivity. Qed.

Example floor_examples :
  Js.floor (Js.quot 7 2) = Js.of_Z 3 /\
  Js.floor (Js.quot (-7) 2) = Js.of_Z (-4) /\
  Js.floor (Js.quot 3 10) = Js.zero /\
  Js.floor (Js.of_Z 12) = Js.of_Z 12.
Proof. vm_compute. repeat split; reflexivity. Qed.

(** Ties between payment methods go to the one met first. *)
Example preferred_method_tie :
  preferred (paymentMethodCounts
               [ Charge.mk "a" 1 None "usd" succeeded Absent false 1 (Some "sepa");
                 Charge.mk "b" 1 None "usd" succeeded Absent false 2 (Some "card");
                 Charge.mk "c" 1 None "usd" succeeded Absent false 3 (Some "card");
                 Charge.mk "d" 1 None "usd" succeeded Absent false 4 (Some "sepa");
                 Charge.mk "e" 1 None "usd" succeeded Absent false 5 None ])
  = Some "sepa".
Proof. reflexivity. Qed.

(** The sort is by creation time and keeps the order of equal times. *)
Example sort_is_stable :
  map Charge.id
      (sort_by_created
         [ Charge.mk "a" 1 None "usd" succeeded Absent false 30 None;
           Charge.mk "b" 1 None "usd" succeeded Absent false 10 None;
           Charge.mk "c" 1 None "usd" succeeded Absent false 30 None;
           Charge.mk "d" 1 None "usd" succeeded Absent false 10 None ])
  = ["b"; "d"; "a"; "c"].
Proof. reflexivity. Qed.

Example metadata_of_scenario_A :
  extractMetadata 1700086400000 scenario_A (Customer.mk "cus_A" 1600000000)
  = Ok {| firstPurchaseDate := Some {| epoch_ms := 1700000000000 |};
          lastPurchaseDate := Some {| epoch_ms := 1700000000000 |};
          daysSinceLastPurchase := Some (Js.of_Z 1);
          totalTransactions := 3 |}.
Proof. vm_compute. reflexivity. Qed.

(** A timestamp outside the range of [Date] makes the aggregator throw. *)
Example invalid_date_throws :
  extractMetadata 0
    [Charge.mk "z" 1 None "usd" succeeded Absent false 8640000000001 None]
    (Customer.mk "cus_Z" 0)
  = Throw (RangeError "Invalid time value").
Proof. vm_compute. reflexivity. Qed.

(* ===================================================================== *)
(** * Properties: binary64 arithmetic on integers *)
(* ===================================================================== *)

(** The number of binary digits of a positive integer. *)
Lemma digits2_pos_bounds (p : positive) :
  2 ^ (Z.pos (digits2_pos p) - 1) <= Z.pos p < 2 ^ Z.pos (digits2_pos p).
Proof.
  induction p as [p IH|p IH|]; cbn [digits2_pos].
  - rewrite Pos2Z.inj_succ.
    replace (Z.succ (Z.pos (digits2_pos p)) - 1) with (Z.succ (Z.pos (digits2_pos p) - 1)) by lia.
    rewrite !Z.pow_succ_r by lia. lia.
  - rewrite Pos2Z.inj_succ.
    replace (Z.succ (Z.pos (digits2_pos p)) - 1) with (Z.succ (Z.pos (digits2_pos p) - 1)) by lia.
    rewrite !Z.pow_succ_r by lia. lia.
  - cbn. lia.
Qed.

Lemma digits2_pos_unique (p : positive) (d : Z) :
  2 ^ (d - 1) <= Z.pos p < 2 ^ d -> Z.pos (digits2_pos p) = d.
Proof.
  intros [Hlo Hhi]. pose proof (digits2_pos_bounds p) as [Blo Bhi].
  assert (0 < d) as Hd.
  { destruct (Z.ltb_spec 0 d) as [|Hle]; [assumption|exfalso].
    destruct (Z.eq_dec d 0) as [->|Hne]; [cbn in Hhi; lia|].
    rewrite (Z.pow_neg_r 2 d) in Hhi by lia. lia. }
  destruct (Z.lt_trichotomy (Z.pos (digits2_pos p)) d) as [Hlt|[Heq|Hgt]];
    [|assumption|].
  - assert (2 ^ Z.pos (digits2_pos p) <= 2 ^ (d - 1)) by (apply Z.pow_le_mono_r; lia). lia.
  - assert (2 ^ d <= 2 ^ (Z.pos (digits2_pos p) - 1)) by (apply Z.pow_le_mono_r; lia). lia.
Qed.

(** Shifting left. *)
Lemma iter_xO (p d : positive) :
  Z.pos (Pos.iter xO p d) = Z.pos p * 2 ^ Z.pos d.
Proof.
  induction d as [|d IH] using Pos.peano_ind.
  - cbn. lia.
  - rewrite Pos.iter_succ, Pos2Z.inj_succ, Z.pow_succ_r by lia.
    rewrite Pos2Z.inj_xO, IH. lia.
Qed.

Lemma digits2_pos_shift (p q : positive) (k : Z) :
  0 <= k -> Z.pos q = Z.pos p * 2 ^ k ->
  Z.pos (digits2_pos q) = Z.pos (digits2_pos p) + k.
Proof.
  intros Hk Hq. apply digits2_pos_unique.
  pose proof (digits2_pos_bounds p) as [Blo Bhi].
  replace (Z.pos (digits2_pos p) + k - 1) with (Z.pos (digits2_pos p) - 1 + k) by lia.
  rewrite !Z.pow_add_r by lia. rewrite Hq.
  assert (0 < 2 ^ k) by (apply Z.pow_pos_nonneg; lia).
  split; nia.
Qed.

(** [shl_align] in arithmetic terms. *)
Lemma shl_align_spec (p : positive) (e e' : Z) :
  Z.pos (fst (shl_align p e e')) = Z.pos p * 2 ^ Z.max 0 (e - e') /\
  snd (shl_align p e e') = Z.min e e'.
Proof.
  unfold shl_align.
  destruct (e' - e) as [|d|d] eqn:Hd; cbn [fst snd].
  - replace (Z.max 0 (e - e')) with 0 by lia. cbn. lia.
  - replace (Z.max 0 (e - e')) with 0 by lia. cbn. lia.
  - rewrite iter_xO. replace (Z.max 0 (e - e')) with (Z.pos d) by lia. lia.
Qed.

(** Shifting right. *)
Lemma iter_pos_nat {A} (f : A -> A) (n : positive) :
  forall x, SpecFloat.iter_pos f n x = Nat.iter (Pos.to_nat n) f x.
Proof.
  induction n as [n IH|n IH|]; intros x; cbn [SpecFloat.iter_pos].
  - rewrite !IH, Pos2Nat.inj_xI.
    replace (Datatypes.S (2 * Pos.to_nat n))%nat
      with (Pos.to_nat n + (Pos.to_nat n + 1))%nat by lia.
    rewrite !Nat.iter_add. reflexivity.
  - rewrite !IH, Pos2Nat.inj_xO.
    replace (2 * Pos.to_nat n)%nat with (Pos.to_nat n + Pos.to_nat n)%nat by lia.
    rewrite Nat.iter_add. reflexivity.
  - reflexivity.
Qed.

Lemma shr_nat (mrs : shr_record) (e n : Z) :
  shr mrs e n = (Nat.iter (Z.to_nat n) shr_1 mrs, e + Z.max 0 n).
Proof.
  unfold shr. destruct n as [|p|p].
  - cbn. f_equal. lia.
  - rewrite iter_pos_nat. cbn [Z.to_nat]. f_equal.
  - cbn. f_equal. lia.
Qed.

Lemma shr_1_m (mrs : shr_record) :
  0 <= shr_m mrs -> shr_m (shr_1 mrs) = shr_m mrs / 2.
Proof.
  destruct mrs as [m r s]. cbn [shr_m]. intros Hm.
  destruct m as [|[p|p|]|p]; cbn [shr_1 shr_m]; [reflexivity| | |reflexivity|lia].
  - apply Z.div_unique with 1; lia.
  - apply Z.div_unique with 0; lia.
Qed.

Lemma shr_n_m (k : nat) (mrs : shr_record) :
  0 <= shr_m mrs ->
  shr_m (Nat.iter k shr_1 mrs) = shr_m mrs / 2 ^ Z.of_nat k.
Proof.
  intros Hm. induction k as [|k IH].
  - cbn. rewrite Z.div_1_r. reflexivity.
  - rewrite Nat.iter_succ, shr_1_m.
    + rewrite IH, Nat2Z.inj_succ, Z.pow_succ_r by lia.
      rewrite Z.div_div by (try apply Z.pow_pos_nonneg; lia).
      f_equal. lia.
    + rewrite IH. apply Z.div_pos; [assumption|].
      apply Z.pow_pos_nonneg; lia.
Qed.

(** Shifting out zeros loses nothing. *)
Lemma shr_1_exact (c : Z) :
  0 <= c -> shr_1 (Build_shr_record (c * 2) false false)
            = Build_shr_record c false false.
Proof.
  intros Hc. destruct c as [|p|p]; [reflexivity| |lia].
  replace (Z.pos p * 2) with (Z.pos p~0) by lia. reflexivity.
Qed.

Lemma shr_n_exact (j : nat) (c : Z) :
  0 <= c ->
  Nat.iter j shr_1 (Build_shr_record (c * 2 ^ Z.of_nat j) false false)
  = Build_shr_record c false false.
Proof.
  intros Hc. revert c Hc. induction j as [|j IH]; intros c Hc.
  - cbn. f_equal. lia.
  - rewrite Nat.iter_succ_r.
    rewrite Nat2Z.inj_succ, Z.pow_succ_r by lia.
    replace (c * (2 * 2 ^ Z.of_nat j)) with (c * 2 ^ Z.of_nat j * 2) by lia.
    rewrite shr_1_exact by (apply Z.mul_nonneg_nonneg; [assumption|apply Z.pow_nonneg; lia]).
    apply IH, Hc.
Qed.

Lemma shr_n_cancel (a j : nat) (c : Z) :
  0 <= c ->
  Nat.iter (a + j) shr_1 (Build_shr_record (c * 2 ^ Z.of_nat j) false false)
  = Nat.iter a shr_1 (Build_shr_record c false false).
Proof.
  intros Hc. rewrite Nat.iter_add, shr_n_exact by assumption. reflexivity.
Qed.

Lemma fexp_64 (e : Z) : fexp Js.prec Js.emax e = fexp64 e.
Proof. reflexivity. Qed.

(** [binary_round] in two steps. *)
Lemma binary_round_steps (s : bool) (p : positive) (e : Z) :
  binary_round Js.prec Js.emax s p e = second_step s (first_step p e).
Proof.
  unfold binary_round, first_step, binary_round_aux, second_step.
  destruct (shl_align _ _ _) as [mz ez]. reflexivity.
Qed.

(** After the first step the mantissa sits on the rounding grid of its
    magnitude: shifted left when it was too short, right when too long. *)
Lemma first_step_spec (p : positive) (e : Z) :
  let f := fexp64 (Z.pos (digits2_pos p) + e) in
  first_step p e
  = (Nat.iter (Z.to_nat (f - e)) shr_1
       (Build_shr_record (Z.pos p * 2 ^ Z.max 0 (e - f)) false false), f).
Proof.
  intros f. unfold first_step. rewrite fexp_64. fold f.
  pose proof (shl_align_spec p e f) as [Hm He].
  destruct (shl_align p e f) as [mz ez]. cbn [fst snd] in Hm, He.
  unfold shr_fexp. rewrite fexp_64, shr_nat. cbn [Zdigits2 shr_record_of_loc].
  assert (Z.pos (digits2_pos mz) = Z.pos (digits2_pos p) + Z.max 0 (e - f)) as Hd
    by (apply digits2_pos_shift; [lia|exact Hm]).
  rewrite Hd, Hm.
  destruct (Z.le_gt_cases f e) as [Hle|Hgt].
  - replace (Z.pos (digits2_pos p) + Z.max 0 (e - f) + ez)
      with (Z.pos (digits2_pos p) + e) by lia.
    fold f. f_equal; [|lia].
    replace (Z.to_nat (f - ez)) with (Z.to_nat (f - e)) by lia. reflexivity.
  - replace (Z.pos (digits2_pos p) + Z.max 0 (e - f) + ez)
      with (Z.pos (digits2_pos p) + e) by lia.
    fold f. f_equal; [|lia].
    replace (Z.to_nat (f - ez)) with (Z.to_nat (f - e)) by lia. reflexivity.
Qed.

(** Trailing zeros of the mantissa can be traded for exponent. *)
Lemma first_step_shift (p q : positive) (k e : Z) :
  0 <= k -> Z.pos q = Z.pos p * 2 ^ k ->
  first_step q (e - k) = first_step p e.
Proof.
  intros Hk Hq. rewrite !first_step_spec. cbv zeta.
  rewrite (digits2_pos_shift p q k Hk Hq).
  replace (Z.pos (digits2_pos p) + k + (e - k)) with (Z.pos (digits2_pos p) + e) by lia.
  set (f := fexp64 (Z.pos (digits2_pos p) + e)).
  f_equal. rewrite Hq.
  destruct (Z.le_gt_cases f (e - k)) as [H1|H1].
  - (* no right shift on either side *)
    replace (Z.to_nat (f - (e - k))) with 0%nat by lia.
    replace (Z.to_nat (f - e)) with 0%nat by lia.
    cbn [Nat.iter nat_rect].
    replace (Z.pos p * 2 ^ k * 2 ^ Z.max 0 (e - k - f))
      with (Z.pos p * 2 ^ Z.max 0 (e - f)); [reflexivity|].
    rewrite <- Z.mul_assoc, <- Z.pow_add_r by lia. f_equal. f_equal. lia.
  - destruct (Z.le_gt_cases f e) as [H2|H2].
    + replace (Z.to_nat (f - e)) with 0%nat by lia.
      replace (Z.max 0 (e - k - f)) with 0 by lia.
      replace (Z.max 0 (e - f)) with (e - f) by lia.
      rewrite Z.pow_0_r, Z.mul_1_r.
      replace (Z.pos p * 2 ^ k)
        with (Z.pos p * 2 ^ (e - f) * 2 ^ Z.of_nat (Z.to_nat (f - (e - k)))).
      * cbn [Nat.iter nat_rect]. apply shr_n_exact.
        apply Z.mul_nonneg_nonneg; [lia|apply Z.pow_nonneg; lia].
      * rewrite <- Z.mul_assoc, <- Z.pow_add_r by lia. f_equal. f_equal. lia.
    + replace (Z.max 0 (e - k - f)) with 0 by lia.
      replace (Z.max 0 (e - f)) with 0 by lia.
      rewrite Z.pow_0_r, !Z.mul_1_r.
      replace (Z.to_nat (f - (e - k))) with (Z.to_nat (f - e) + Z.to_nat k)%nat by lia.
      replace (2 ^ k) with (2 ^ Z.of_nat (Z.to_nat k)) by (f_equal; lia).
      apply shr_n_cancel. lia.
Qed.

(** [binary_round] depends on the value only. *)
Lemma binary_round_shift (s : bool) (p q : positive) (k e : Z) :
  0 <= k -> Z.pos q = Z.pos p * 2 ^ k ->
  binary_round Js.prec Js.emax s q (e - k) = binary_round Js.prec Js.emax s p e.
Proof.
  intros Hk Hq. rewrite !binary_round_steps, (first_step_shift p q k e Hk Hq).
  reflexivity.
Qed.

Lemma pos_times_pow (p : positive) (k : Z) :
  0 <= k -> exists q : positive, Z.pos q = Z.pos p * 2 ^ k.
Proof.
  intros Hk. assert (0 < Z.pos p * 2 ^ k) as H.
  { apply Z.mul_pos_pos; [lia|apply Z.pow_pos_nonneg; lia]. }
  destruct (Z.pos p * 2 ^ k) as [|q|q]; try lia. exists q. reflexivity.
Qed.

Lemma digits_small (p : positive) :
  Z.pos p < 2 ^ 53 -> Z.pos (digits2_pos p) <= 53.
Proof.
  intros Hp. pose proof (digits2_pos_bounds p) as [Blo _].
  destruct (Z.le_gt_cases (Z.pos (digits2_pos p)) 53) as [|Hgt]; [assumption|].
  assert (2 ^ 53 <= 2 ^ (Z.pos (digits2_pos p) - 1))
    by (apply Z.pow_le_mono_r; lia).
  lia.
Qed.

(** The number denoted by an integer below 2^53: its mantissa is the
    integer, shifted to 53 digits. *)
Lemma binary_round_small (s : bool) (p : positive) :
  Z.pos p < 2 ^ 53 ->
  exists mz : positive,
    binary_round Js.prec Js.emax s p 0
    = S754_finite s mz (Z.pos (digits2_pos p) - 53) /\
    Z.pos mz = Z.pos p * 2 ^ (53 - Z.pos (digits2_pos p)).
Proof.
  intros Hp. pose proof (digits_small p Hp) as Hd.
  destruct (pos_times_pow p (53 - Z.pos (digits2_pos p)) ltac:(lia)) as [mz Hmz].
  exists mz. split; [|exact Hmz].
  rewrite binary_round_steps, first_step_spec. cbv zeta.
  assert (fexp64 (Z.pos (digits2_pos p) + 0) = Z.pos (digits2_pos p) - 53) as ->
    by (unfold fexp64; lia).
  replace (Z.to_nat (Z.pos (digits2_pos p) - 53 - 0)) with 0%nat by lia.
  replace (Z.max 0 (0 - (Z.pos (digits2_pos p) - 53)))
    with (53 - Z.pos (digits2_pos p)) by lia.
  rewrite <- Hmz. cbn [Nat.iter nat_rect second_step shr_m loc_of_shr_record round_nearest_even].
  unfold shr_fexp. rewrite fexp_64, shr_nat. cbn [Zdigits2 shr_record_of_loc].
  rewrite (digits2_pos_shift p mz (53 - Z.pos (digits2_pos p)) ltac:(lia) Hmz).
  assert (fexp64 (Z.pos (digits2_pos p) + (53 - Z.pos (digits2_pos p))
                  + (Z.pos (digits2_pos p) - 53))
          = Z.pos (digits2_pos p) - 53) as -> by (unfold fexp64; lia).
  rewrite Z.sub_diag. cbn [Z.to_nat Nat.iter nat_rect shr_m Z.max].
  rewrite Z.add_0_r.
  replace (Z.pos (digits2_pos p) - 53 <=? Js.emax - Js.prec) with true; [reflexivity|].
  symmetry. apply Z.leb_le. unfold Js.emax, Js.prec. lia.
Qed.

Lemma of_Z_small (z : Z) :
  z <> 0 -> Z.abs z < 2 ^ 53 ->
  exists (m : positive) (k : Z),
    Js.of_Z z = S754_finite (z <? 0) m (- k) /\ 0 <= k /\
    Z.pos m = Z.abs z * 2 ^ k.
Proof.
  intros Hz Hb. unfold Js.of_Z, binary_normalize.
  destruct z as [|p|p]; [congruence| |].
  - destruct (binary_round_small false p Hb) as (mz & -> & Hmz).
    pose proof (digits_small p Hb).
    exists mz, (53 - Z.pos (digits2_pos p)). repeat split; [|lia|exact Hmz].
    cbn [Z.ltb Z.compare]. f_equal. lia.
  - destruct (binary_round_small true p Hb) as (mz & -> & Hmz).
    pose proof (digits_small p Hb).
    exists mz, (53 - Z.pos (digits2_pos p)). repeat split; [|lia|exact Hmz].
    cbn [Z.ltb Z.compare]. f_equal. lia.
Qed.

Lemma binary_normalize_shift (z : Z) (k : Z) :
  0 <= k ->
  binary_normalize Js.prec Js.emax (z * 2 ^ k) (- k) false = Js.of_Z z.
Proof.
  intros Hk. unfold Js.of_Z.
  destruct z as [|p|p].
  - reflexivity.
  - destruct (pos_times_pow p k Hk) as [q Hq]. rewrite <- Hq.
    cbn [binary_normalize].
    apply (binary_round_shift false p q k 0 Hk Hq).
  - destruct (pos_times_pow p k Hk) as [q Hq].
    replace (Z.neg p * 2 ^ k) with (Z.neg q) by lia.
    cbn [binary_normalize].
    apply (binary_round_shift true p q k 0 Hk Hq).
Qed.

Lemma aligned (m : positive) (a k K : Z) :
  0 <= k <= K -> Z.pos m = Z.abs a * 2 ^ k ->
  cond_Zopp (a <? 0) (Z.pos (fst (shl_align m (- k) (- K)))) = a * 2 ^ K.
Proof.
  intros HK Hm. destruct (shl_align_spec m (- k) (- K)) as [-> _].
  replace (Z.max 0 (- k - - K)) with (K - k) by lia.
  rewrite Hm, <- Z.mul_assoc, <- Z.pow_add_r by lia.
  replace (k + (K - k)) with K by lia.
  unfold cond_Zopp. destruct (Z.ltb_spec a 0); lia.
Qed.

(** The binary64 sum and difference of two integers below 2^53 are the
    numbers denoted by their exact sum and difference: one rounding of the
    exact result. *)
Lemma add_small (a b : Z) :
  Z.abs a < 2 ^ 53 -> Z.abs b < 2 ^ 53 ->
  Js.add (Js.of_Z a) (Js.of_Z b) = Js.of_Z (a + b).
Proof.
  intros Ha Hb.
  destruct (Z.eq_dec a 0) as [->|Hna].
  { rewrite Z.add_0_l.
    destruct (Z.eq_dec b 0) as [->|Hnb]; [reflexivity|].
    destruct (of_Z_small b Hnb Hb) as (m & k & -> & _). reflexivity. }
  destruct (Z.eq_dec b 0) as [->|Hnb].
  { rewrite Z.add_0_r.
    destruct (of_Z_small a Hna Ha) as (m & k & -> & _). reflexivity. }
  destruct (of_Z_small a Hna Ha) as (ma & ka & -> & Hka & Hma).
  destruct (of_Z_small b Hnb Hb) as (mb & kb & -> & Hkb & Hmb).
  unfold Js.add, SFadd.
  replace (Z.min (- ka) (- kb)) with (- Z.max ka kb) by lia.
  rewrite (aligned ma a ka (Z.max ka kb)) by (try exact Hma; lia).
  rewrite (aligned mb b kb (Z.max ka kb)) by (try exact Hmb; lia).
  rewrite <- Z.mul_add_distr_r.
  apply binary_normalize_shift. lia.
Qed.

Lemma sub_small (a b : Z) :
  Z.abs a < 2 ^ 53 -> Z.abs b < 2 ^ 53 ->
  Js.sub (Js.of_Z a) (Js.of_Z b) = Js.of_Z (a - b).
Proof.
  intros Ha Hb.
  destruct (Z.eq_dec b 0) as [->|Hnb].
  { rewrite Z.sub_0_r.
    destruct (Z.eq_dec a 0) as [->|Hna]; [reflexivity|].
    destruct (of_Z_small a Hna Ha) as (m & k & -> & _). reflexivity. }
  destruct (Z.eq_dec a 0) as [->|Hna].
  { rewrite Z.sub_0_l.
    destruct b as [|p|p]; [congruence| |].
    - change (Js.of_Z (Z.pos p)) with (binary_round Js.prec Js.emax false p 0).
      change (Js.of_Z (- Z.pos p)) with (binary_round Js.prec Js.emax true p 0).
      destruct (binary_round_small false p Hb) as (m & -> & Hm).
      destruct (binary_round_small true p Hb) as (m' & -> & Hm').
      assert (m' = m) as -> by lia. reflexivity.
    - change (Js.of_Z (Z.neg p)) with (binary_round Js.prec Js.emax true p 0).
      change (Js.of_Z (- Z.neg p)) with (binary_round Js.prec Js.emax false p 0).
      destruct (binary_round_small false p Hb) as (m & -> & Hm).
      destruct (binary_round_small true p Hb) as (m' & -> & Hm').
      assert (m' = m) as -> by lia. reflexivity. }
  destruct (of_Z_small a Hna Ha) as (ma & ka & -> & Hka & Hma).
  destruct (of_Z_small b Hnb Hb) as (mb & kb & -> & Hkb & Hmb).
  unfold Js.sub, SFsub.
  replace (Z.min (- ka) (- kb)) with (- Z.max ka kb) by lia.
  rewrite (aligned ma a ka (Z.max ka kb)) by (try exact Hma; lia).
  rewrite (aligned mb b kb (Z.max ka kb)) by (try exact Hmb; lia).
  rewrite <- Z.mul_sub_distr_r.
  apply binary_normalize_shift. lia.
Qed.

(** Rounding a positive mantissa whose exponent is in range never gives a
    zero: there is no underflow to [-0]. *)
Lemma shr_record_of_loc_m (m : Z) (l : location) :
  shr_m (shr_record_of_loc m l) = m.
Proof. destruct l as [|[]]; reflexivity. Qed.

Lemma shr_fexp_pos (m e : Z) (l : location) :
  1 <= m -> -1074 <= e ->
  1 <= shr_m (fst (shr_fexp Js.prec Js.emax m e l)) /\
  -1074 <= snd (shr_fexp Js.prec Js.emax m e l).
Proof.
  intros Hm He. unfold shr_fexp. rewrite fexp_64, shr_nat. cbn [fst snd].
  rewrite shr_n_m by (rewrite shr_record_of_loc_m; lia).
  rewrite shr_record_of_loc_m.
  destruct m as [|p|p]; try lia. cbn [Zdigits2].
  pose proof (digits2_pos_bounds p) as [Blo _].
  set (d := Z.pos (digits2_pos p)) in *.
  destruct (Z.le_gt_cases (fexp64 (d + e) - e) 0) as [Hn|Hn].
  - replace (Z.to_nat (fexp64 (d + e) - e)) with 0%nat by lia.
    rewrite Z.pow_0_r, Z.div_1_r. lia.
  - assert (fexp64 (d + e) = d + e - 53) as -> by (unfold fexp64 in *; lia).
    assert (fexp64 (d + e) = d + e - 53) as Hf by (unfold fexp64 in *; lia).
    rewrite Hf in Hn.
    rewrite Z2Nat.id by lia. split; [|unfold fexp64 in Hf; lia].
    apply Z.div_le_lower_bound; [apply Z.pow_pos_nonneg; lia|].
    rewrite Z.mul_1_r.
    transitivity (2 ^ (d - 1)); [|exact Blo].
    apply Z.pow_le_mono_r; lia.
Qed.

Lemma round_nearest_even_ge (m : Z) (l : location) :
  m <= round_nearest_even m l <= m + 1.
Proof.
  destruct l as [|[]]; cbn [round_nearest_even]; try lia.
  destruct (Z.even m); lia.
Qed.

Lemma second_step_regular (s : bool) (st : shr_record * Z) :
  1 <= shr_m (fst st) -> -1074 <= snd st ->
  regular (second_step s st) /\
  (forall s', second_step s st <> S754_zero s').
Proof.
  destruct st as [mrs' e']. cbn [fst snd]. intros Hm He.
  unfold second_step.
  pose proof (round_nearest_even_ge (shr_m mrs') (loc_of_shr_record mrs')) as Hr.
  pose proof (shr_fexp_pos
                (round_nearest_even (shr_m mrs') (loc_of_shr_record mrs'))
                e' loc_Exact ltac:(lia) He) as [H1 H2].
  destruct (shr_fexp _ _ _ _ _) as [mrs'' e'']. cbn [fst snd] in H1, H2.
  destruct (shr_m mrs'') as [|m|m]; try lia.
  destruct (e'' <=? Js.emax - Js.prec); split; cbn [regular]; try discriminate;
    auto.
Qed.

Lemma first_step_pos (p : positive) (e : Z) :
  -1074 <= e ->
  1 <= shr_m (fst (first_step p e)) /\ -1074 <= snd (first_step p e).
Proof.
  intros He. unfold first_step. rewrite fexp_64.
  pose proof (shl_align_spec p e (fexp64 (Z.pos (digits2_pos p) + e))) as [_ Hz].
  destruct (shl_align _ _ _) as [mz ez]. cbn [snd] in Hz.
  apply shr_fexp_pos; [lia|]. unfold fexp64 in Hz. lia.
Qed.

Lemma binary_round_regular (s : bool) (p : positive) (e : Z) :
  -1074 <= e ->
  regular (binary_round Js.prec Js.emax s p e) /\
  (forall s', binary_round Js.prec Js.emax s p e <> S754_zero s').
Proof.
  intros He. rewrite binary_round_steps.
  destruct (first_step_pos p e He). apply second_step_regular; assumption.
Qed.

Lemma binary_normalize_regular (m e : Z) :
  -1074 <= e -> regular (binary_normalize Js.prec Js.emax m e false).
Proof.
  intros He. destruct m as [|p|p]; cbn [binary_normalize].
  - reflexivity.
  - apply binary_round_regular, He.
  - apply binary_round_regular, He.
Qed.

Lemma of_Z_regular (z : Z) : regular (Js.of_Z z).
Proof. apply binary_normalize_regular. lia. Qed.

Lemma add_regular (x y : Js.number) :
  regular x -> regular y -> regular (Js.add x y).
Proof.
  destruct x as [sx|sx| |sx mx ex], y as [sy|sy| |sy my ey];
    cbn [regular]; intros Hx Hy; subst; cbn [Js.add SFadd regular];
    try exact I; try reflexivity; try assumption.
  - destruct sx, sy; exact I.
  - unfold Js.add, SFadd. apply binary_normalize_regular. lia.
Qed.

Lemma sub_regular (x y : Js.number) :
  regular x -> regular y -> regular (Js.sub x y).
Proof.
  destruct x as [sx|sx| |sx mx ex], y as [sy|sy| |sy my ey];
    cbn [regular]; intros Hx Hy; subst; cbn [Js.sub SFsub regular];
    try exact I; try reflexivity; try assumption.
  - destruct sx, sy; exact I.
  - unfold Js.sub, SFsub. apply binary_normalize_regular. lia.
Qed.

(** Adding [+0] to a number other than [-0] changes nothing. *)
Lemma add_zero_r (x : Js.number) :
  regular x -> Js.add x (Js.of_Z 0) = x.
Proof.
  destruct x as [sx|sx| |sx mx ex]; cbn [regular]; intros Hx; subst;
    reflexivity.
Qed.







(* ===================================================================== *)
(** * Properties: lifetime value *)
(* ===================================================================== *)

Section Sums.
Context {A : Type}.
Variable f : A -> Z.

Lemma fold_left_sum (xs : list A) (a : Z) :
  fold_left (fun sum x => sum + f x) xs a = a + exact_sum f xs.
Proof.
  unfold exact_sum. revert a.
  induction xs as [|x xs IH]; intros a; simpl.
  - lia.
  - rewrite (IH (a + f x)), (IH (0 + f x)). lia.
Qed.

Lemma exact_sum_nil : exact_sum f [] = 0.
Proof. reflexivity. Qed.

Lemma exact_sum_cons (x : A) (xs : list A) :
  exact_sum f (x :: xs) = f x + exact_sum f xs.
Proof. unfold exact_sum at 1. simpl. apply fold_left_sum. Qed.

Lemma exact_sum_app (xs ys : list A) :
  exact_sum f (xs ++ ys) = exact_sum f xs + exact_sum f ys.
Proof.
  induction xs as [|x xs IH]; cbn [app].
  - rewrite exact_sum_nil. lia.
  - rewrite !exact_sum_cons, IH. lia.
Qed.

Lemma exact_sum_filter_split (p : A -> bool) (xs : list A) :
  exact_sum f (List.filter (fun x => negb (p x)) xs)
  + exact_sum f (List.filter p xs)
  = exact_sum f xs.
Proof.
  induction xs as [|x xs IH]; simpl.
  - reflexivity.
  - destruct (p x); simpl; rewrite !exact_sum_cons; lia.
Qed.

Lemma exact_sum_Permutation (xs ys : list A) :
  Permutation xs ys -> exact_sum f xs = exact_sum f ys.
Proof.
  induction 1; rewrite ?exact_sum_cons; lia.
Qed.

Lemma exact_sum_nonneg (xs : list A) :
  (forall x, 0 <= f x) -> 0 <= exact_sum f xs.
Proof.
  intros Hf. induction xs as [|x xs IH]; [reflexivity|].
  rewrite exact_sum_cons. specialize (Hf x). lia.
Qed.

Lemma exact_sum_filter_le (p : A -> bool) (xs : list A) :
  (forall x, 0 <= f x) -> exact_sum f (List.filter p xs) <= exact_sum f xs.
Proof.
  intros Hf. induction xs as [|x xs IH]; [reflexivity|].
  cbn [List.filter]. specialize (Hf x).
  destruct (p x); rewrite ?exact_sum_cons; lia.
Qed.

End Sums.

Lemma exact_sum_abs {A} (f : A -> Z) (xs : list A) :
  Z.abs (exact_sum f xs) <= exact_sum (fun x => Z.abs (f x)) xs.
Proof.
  induction xs as [|x xs IH]; [reflexivity|].
  rewrite !exact_sum_cons. lia.
Qed.

(** The binary64 sum of integers is their exact sum as long as the
    absolute values add up to less than 2^53. *)
Lemma fold_add_exact {A} (f : A -> Z) (xs : list A) (a : Z) :
  Z.abs a + exact_sum (fun x => Z.abs (f x)) xs < 2 ^ 53 ->
  fold_left (fun sum x => Js.add sum (Js.of_Z (f x))) xs (Js.of_Z a)
  = Js.of_Z (a + exact_sum f xs).
Proof.
  revert a. induction xs as [|x xs IH]; intros a Hb; cbn [fold_left].
  - rewrite exact_sum_nil, Z.add_0_r. reflexivity.
  - rewrite !exact_sum_cons in *.
    pose proof (exact_sum_nonneg (fun x => Z.abs (f x)) xs
                  ltac:(intros; lia)) as Hnn.
    rewrite add_small by lia.
    rewrite IH by lia. f_equal. lia.
Qed.

Lemma sum_by_exact {A} (f : A -> Z) (xs : list A) :
  exact_sum (fun x => Z.abs (f x)) xs < 2 ^ 53 ->
  sum_by f xs = Js.of_Z (exact_sum f xs).
Proof.
  intros Hb. unfold sum_by.
  change Js.zero with (Js.of_Z 0).
  rewrite fold_add_exact by (cbn [Z.abs]; lia).
  reflexivity.
Qed.

(** A binary64 sum of integers is never [-0]. *)
Lemma fold_add_regular {A} (f : A -> Z) (xs : list A) (acc : Js.number) :
  regular acc ->
  regular (fold_left (fun sum x => Js.add sum (Js.of_Z (f x))) xs acc).
Proof.
  revert acc. induction xs as [|x xs IH]; intros acc Hacc; cbn [fold_left].
  - exact Hacc.
  - apply IH, add_regular; [exact Hacc|apply of_Z_regular].
Qed.

(** An element that contributes 0 can be left out of a binary64 sum. *)
Lemma sum_by_skip {A} (f : A -> Z) (before after : list A) (x : A) :
  f x = 0 -> sum_by f (before ++ x :: after) = sum_by f (before ++ after).
Proof.
  intros Hx. unfold sum_by. rewrite !fold_left_app. cbn [fold_left].
  rewrite Hx, add_zero_r; [reflexivity|].
  apply fold_add_regular. reflexivity.
Qed.

Lemma exact_sum_plus {A} (f g : A -> Z) (xs : list A) :
  exact_sum (fun x => f x + g x) xs = exact_sum f xs + exact_sum g xs.
Proof.
  induction xs as [|x xs IH]; [reflexivity|].
  rewrite !exact_sum_cons, IH. lia.
Qed.

Lemma filter_Permutation' {A} (p : A -> bool) (xs ys : list A) :
  Permutation xs ys -> Permutation (List.filter p xs) (List.filter p ys).
Proof.
  induction 1; simpl.
  - constructor.
  - destruct (p x); [constructor|]; assumption.
  - destruct (p x), (p y); try constructor; reflexivity.
  - etransitivity; eassumption.
Qed.

(** The amount that enters the total before refunds is the sum of all
    succeeded charges, whatever their billing link. *)
Lemma gross_total (charges : list Charge.t) :
  spec_oneTime charges + spec_subscription charges
  = exact_sum Charge.amount (List.filter is_succeeded charges).
Proof.
  induction charges as [|c cs IH]; [reflexivity|].
  cbn [List.filter spec_oneTime spec_subscription]. unfold is_succeeded at 1.
  destruct (Charge.status c); cbn [ChargeStatus_eqb];
    rewrite ?exact_sum_cons; destruct (truthy_ref (Charge.invoice c)); lia.
Qed.

Lemma spec_oneTime_sum (charges : list Charge.t) :
  exact_sum Charge.amount
    (List.filter (fun c => negb (has_invoice c))
       (List.filter is_succeeded charges))
  = spec_oneTime charges.
Proof.
  induction charges as [|c cs IH]; [reflexivity|].
  cbn [List.filter spec_oneTime]. unfold is_succeeded at 1.
  destruct (Charge.status c); cbn [ChargeStatus_eqb]; rewrite <- IH;
    try reflexivity.
  cbn [List.filter]. unfold has_invoice at 1.
  destruct (truthy_ref (Charge.invoice c)); cbn [negb];
    rewrite ?exact_sum_cons; reflexivity.
Qed.

Lemma spec_subscription_sum (charges : list Charge.t) :
  exact_sum Charge.amount
    (List.filter has_invoice (List.filter is_succeeded charges))
  = spec_subscription charges.
Proof.
  induction charges as [|c cs IH]; [reflexivity|].
  cbn [List.filter spec_subscription]. unfold is_succeeded at 1.
  destruct (Charge.status c); cbn [ChargeStatus_eqb]; rewrite <- IH;
    try reflexivity.
  cbn [List.filter]. unfold has_invoice at 1.
  destruct (truthy_ref (Charge.invoice c));
    rewrite ?exact_sum_cons; reflexivity.
Qed.

Lemma refund_of_spec (c : Charge.t) :
  refund_of c = match Charge.amount_refunded c with Some a => a | None => 0 end.
Proof.
  unfold refund_of, Js.truthyZ.
  destruct (Charge.amount_refunded c) as [a|]; [|reflexivity].
  destruct (Z.eqb_spec a 0); simpl; congruence.
Qed.

Lemma spec_refunded_sum (charges : list Charge.t) :
  exact_sum refund_of charges = spec_refunded charges.
Proof.
  induction charges as [|c cs IH]; simpl; [reflexivity|].
  rewrite exact_sum_cons, IH, refund_of_spec. reflexivity.
Qed.

Lemma volume_Permutation (cs cs' : list Charge.t) :
  Permutation cs cs' -> volume cs = volume cs'.
Proof. apply exact_sum_Permutation. Qed.

Lemma volume_split (cs : list Charge.t) :
  volume cs
  = exact_sum (fun c => Z.abs (Charge.amount c)) cs
    + exact_sum (fun c => Z.abs (refund_of c)) cs.
Proof. apply exact_sum_plus. Qed.

(** The three sums of the lifetime value, and the amount before refunds,
    are within the volume of the charges. *)
Lemma sums_within_volume (cs : list Charge.t) :
  exact_sum (fun c => Z.abs (Charge.amount c))
    (List.filter (fun c => negb (has_invoice c)) (List.filter is_succeeded cs))
  + exact_sum (fun c => Z.abs (Charge.amount c))
      (List.filter has_invoice (List.filter is_succeeded cs))
  + exact_sum (fun c => Z.abs (refund_of c)) cs
  <= volume cs.
Proof.
  rewrite exact_sum_filter_split, volume_split.
  pose proof (exact_sum_filter_le (fun c => Z.abs (Charge.amount c))
                is_succeeded cs ltac:(intros; lia)).
  lia.
Qed.

Lemma spec_sums_within_volume (cs : list Charge.t) :
  Z.abs (spec_oneTime cs) + Z.abs (spec_subscription cs)
  + Z.abs (spec_refunded cs) <= volume cs.
Proof.
  pose proof (sums_within_volume cs) as H.
  rewrite <- spec_oneTime_sum, <- spec_subscription_sum, <- spec_refunded_sum.
  pose proof (exact_sum_abs Charge.amount
                (List.filter (fun c => negb (has_invoice c))
                   (List.filter is_succeeded cs))).
  pose proof (exact_sum_abs Charge.amount
                (List.filter has_invoice (List.filter is_succeeded cs))).
  pose proof (exact_sum_abs refund_of cs).
  lia.
Qed.

(** Below 2^53 the aggregator's sums are the exact sums, and each reported
    field is one binary64 division of an exact integer by 100. *)
Lemma lifetime_value_exact
    (cs : list Charge.t) (subs : list Subscription.t) :
  volume cs < 2 ^ 53 ->
  total (calculateLifetimeValue cs subs)
  = Js.quot (spec_oneTime cs + spec_subscription cs - spec_refunded cs) 100 /\
  breakdown (calculateLifetimeValue cs subs)
  = {| oneTime := Js.quot (spec_oneTime cs) 100;
       subscription := Js.quot (spec_subscription cs) 100;
       refunded := Js.quot (spec_refunded cs) 100 |}.
Proof.
  intros Hv.
  pose proof (sums_within_volume cs) as Hsums.
  pose proof (spec_sums_within_volume cs) as Hspec.
  pose proof (exact_sum_nonneg (fun c => Z.abs (Charge.amount c))
                (List.filter (fun c => negb (has_invoice c))
                   (List.filter is_succeeded cs)) ltac:(intros; lia)).
  pose proof (exact_sum_nonneg (fun c => Z.abs (Charge.amount c))
                (List.filter has_invoice (List.filter is_succeeded cs))
                ltac:(intros; lia)).
  pose proof (exact_sum_nonneg (fun c => Z.abs (refund_of c)) cs
                ltac:(intros; lia)).
  assert (oneTimeTotal cs = Js.of_Z (spec_oneTime cs)) as Ho.
  { unfold oneTimeTotal. rewrite sum_by_exact by lia.
    rewrite spec_oneTime_sum. reflexivity. }
  assert (subscriptionTotal cs = Js.of_Z (spec_subscription cs)) as Hs.
  { unfold subscriptionTotal. rewrite sum_by_exact by lia.
    rewrite spec_subscription_sum. reflexivity. }
  assert (refundedTotal cs = Js.of_Z (spec_refunded cs)) as Hr.
  { unfold refundedTotal. rewrite sum_by_exact by lia.
    rewrite spec_refunded_sum. reflexivity. }
  unfold calculateLifetimeValue. cbn [total breakdown].
  rewrite Ho, Hs, Hr.
  rewrite add_small, sub_small by lia.
  split; reflexivity.
Qed.

Lemma spec_sums_Permutation (cs cs' : list Charge.t) :
  Permutation cs cs' ->
  spec_oneTime cs = spec_oneTime cs' /\
  spec_subscription cs = spec_subscription cs' /\
  spec_refunded cs = spec_refunded cs'.
Proof.
  intros H.
  rewrite <- !spec_oneTime_sum, <- !spec_subscription_sum, <- !spec_refunded_sum.
  repeat split; apply exact_sum_Permutation;
    try (do 2 apply filter_Permutation'); exact H.
Qed.

(** C1, as stated, does not hold: on scenario A the reported total is the
    display-unit amount 55 (5500 minor units divided by 100), and it is not
    5500. *)
Lemma total_of_scenario_A_is_55_not_5500 :
  total (calculateLifetimeValue scenario_A []) = Js.of_Z 55 /\
  Js.eqb (total (calculateLifetimeValue scenario_A [])) (Js.of_Z 5500) = false /\
  total (calculateLifetimeValue scenario_A []) <> Js.of_Z 5500.
Proof.
  split; [|split].
  - vm_compute. reflexivity.
  - vm_compute. reflexivity.
  - vm_compute. discriminate.
Qed.

(** C1 (amended): for an entity whose charges are exactly three succeeded
    charges of 1000, 2000 and 3000 minor units (in any order, with or without
    a billing link), with 500 refunded on the first and nothing refunded on
    the others, [lifetimeValue.total] is 55: the 5500 minor units converted to
    display units. *)
Theorem scenario_A_total
    (charges : list Charge.t) (subs : list Subscription.t)
    (c1 c2 c3 : Charge.t) :
  Permutation charges [c1; c2; c3] ->
  Charge.status c1 = succeeded -> Charge.amount c1 = 1000 ->
  Charge.status c2 = succeeded -> Charge.amount c2 = 2000 ->
  Charge.status c3 = succeeded -> Charge.amount c3 = 3000 ->
  Charge.amount_refunded c1 = Some 500 ->
  refund_of c2 = 0 -> refund_of c3 = 0 ->
  total (calculateLifetimeValue charges subs) = Js.of_Z 55.
Proof.
  intros Hperm S1 A1 S2 A2 S3 A3 R1 R2 R3.
  assert (refund_of c1 = 500) as R1' by (unfold refund_of; rewrite R1; reflexivity).
  destruct (lifetime_value_exact charges subs) as [-> _].
  { rewrite (volume_Permutation _ _ Hperm). unfold volume.
    rewrite !exact_sum_cons, exact_sum_nil, A1, A2, A3, R1', R2, R3.
    vm_compute. reflexivity. }
  destruct (spec_sums_Permutation _ _ Hperm) as (-> & -> & ->).
  rewrite gross_total, <- spec_refunded_sum.
  cbn [List.filter]. unfold is_succeeded. rewrite S1, S2, S3.
  cbn [ChargeStatus_eqb]. rewrite !exact_sum_cons, !exact_sum_nil.
  rewrite A1, A2, A3, R1', R2, R3.
  vm_compute. reflexivity.
Qed.

Lemma scenario_A_total_witness :
  total (calculateLifetimeValue scenario_A []) = Js.of_Z 55.
Proof.
  apply (scenario_A_total scenario_A []
           (sample_charge 1000 500 succeeded Absent)
           (sample_charge 2000 0 succeeded Absent)
           (sample_charge 3000 0 succeeded (Id "in_1")));
    reflexivity.
Defined.

(** On the reported display-unit fields the identity need not hold bit for
    bit: with 0.10 of one-time and 0.20 of subscription revenue the total is
    0.3 while [oneTime + subscription - refunded] evaluates to
    0.30000000000000004.  Both numbers read 30 minor units. *)
Lemma reported_fields_drift :
  let v := calculateLifetimeValue dime_and_twenty [] in
  let b := breakdown v in
  let sum := Js.sub (Js.add (oneTime b) (subscription b)) (refunded b) in
  total v = Js.lit_0_3 /\
  sum = S754_finite false 5404319552844596 (-54) /\
  Js.eqb (total v) sum = false /\
  reads_minor_units (total v) 30 /\
  reads_minor_units sum 30.
Proof. vm_compute. repeat split; reflexivity. Qed.

(** A number reads at most one amount of minor units. *)
Lemma reads_minor_units_unique (x : Js.number) (n n' : Z) :
  reads_minor_units x n -> reads_minor_units x n' -> n = n'.
Proof.
  destruct x as [s|s| |s m e]; cbn [reads_minor_units]; try tauto.
  - congruence.
  - destruct (Z.leb_spec 0 e); [congruence|].
    assert (0 < 2 ^ (- e)) as Hpos by (apply Z.pow_pos_nonneg; lia).
    intros R R'. nia.
Qed.




(** C9: when no charge has status [succeeded] (in particular when there is
    no charge at all), the currency of the lifetime value is ['usd']. *)
Theorem currency_defaults_to_usd
    (charges : list Charge.t) (subs : list Subscription.t) :
  (forall c, In c charges -> Charge.status c <> succeeded) ->
  currency (calculateLifetimeValue charges subs) = "usd".
Proof.
  intros Hnone. unfold calculateLifetimeValue. cbn [currency].
  assert (List.filter is_succeeded charges = []) as ->; [|reflexivity].
  induction charges as [|c cs IH]; [reflexivity|].
  cbn [List.filter]. unfold is_succeeded at 1.
  pose proof (Hnone c (or_introl eq_refl)) as Hc.
  destruct (Charge.status c); cbn [ChargeStatus_eqb]; try congruence;
    apply IH; intros d Hd; apply Hnone; right; exact Hd.
Qed.

Lemma currency_defaults_to_usd_witness :
  currency (calculateLifetimeValue
              [sample_charge 700 0 failed Absent;
               sample_charge 900 0 pending Absent] []) = "usd".
Proof.
  apply currency_defaults_to_usd.
  intros c [<-|[<-|[]]]; discriminate.
Defined.

(* ===================================================================== *)
(** * Properties: order of numbers *)
(* ===================================================================== *)

Ltac compare_cases :=
  repeat match goal with
         | H : context [Z.compare ?a ?b] |- _ => destruct (Z.compare_spec a b)
         | |- context [Z.compare ?a ?b] => destruct (Z.compare_spec a b)
         | H : context [Pos.compare_cont Eq ?a ?b] |- _ =>
             change (Pos.compare_cont Eq a b) with (Pos.compare a b) in H
         | |- context [Pos.compare_cont Eq ?a ?b] =>
             change (Pos.compare_cont Eq a b) with (Pos.compare a b)
         | H : context [Pos.compare ?a ?b] |- _ => destruct (Pos.compare_spec a b)
         | |- context [Pos.compare ?a ?b] => destruct (Pos.compare_spec a b)
         end.

(** [c < x] and [x <= y] give [c < y]. *)
Lemma ltb_leb_trans (c x y : Js.number) :
  Js.ltb c x = true -> Js.leb x y = true -> Js.ltb c y = true.
Proof.
  unfold Js.ltb, Js.leb, SFltb, SFleb.
  destruct c as [sc|sc| |sc mc ec], x as [sx|sx| |sx mx ex],
           y as [sy|sy| |sy my ey];
    cbn [SFcompare]; try discriminate; try reflexivity;
    repeat match goal with s : bool |- _ => destruct s end;
    try discriminate; try reflexivity;
    compare_cases; cbn [CompOpp]; intros; subst;
    try discriminate; try reflexivity; lia.
Qed.

(** [x <= y] and [y < c] give [x < c]. *)
Lemma leb_ltb_trans (x y c : Js.number) :
  Js.leb x y = true -> Js.ltb y c = true -> Js.ltb x c = true.
Proof.
  unfold Js.ltb, Js.leb, SFltb, SFleb.
  destruct c as [sc|sc| |sc mc ec], x as [sx|sx| |sx mx ex],
           y as [sy|sy| |sy my ey];
    cbn [SFcompare]; try discriminate; try reflexivity;
    repeat match goal with s : bool |- _ => destruct s end;
    try discriminate; try reflexivity;
    compare_cases; cbn [CompOpp]; intros; subst;
    try discriminate; try reflexivity; lia.
Qed.

(* ===================================================================== *)
(** * Properties: risk assessment *)
(* ===================================================================== *)

Ltac block_cases :=
  repeat match goal with
         | |- context [if ?b then _ else _] => destruct b
         end;
  cbn [flag riskScore acc_factors no_risk app];
  try rewrite app_nil_r; split; try reflexivity; try lia.

Lemma paymentFailures_additive charges : additive (paymentFailures charges).
Proof. intros acc. unfold paymentFailures. block_cases. Qed.

Lemma chargebackHistory_additive charges : additive (chargebackHistory charges).
Proof. intros acc. unfold chargebackHistory. block_cases. Qed.

Lemma newCustomerLargeAmount_additive now customer charges :
  additive (newCustomerLargeAmount now customer charges).
Proof.
  intros acc. unfold newCustomerLargeAmount.
  destruct (Js.ltb _ _ && _); block_cases.
Qed.

Lemma velocityCheck_additive charges : additive (velocityCheck charges).
Proof. intros acc. unfold velocityCheck. block_cases. Qed.

Lemma paymentFailures_points charges :
  0 <= riskScore (paymentFailures charges no_risk) <= 30.
Proof.
  unfold paymentFailures.
  repeat match goal with |- context [if ?b then _ else _] => destruct b end;
    cbn; lia.
Qed.

Lemma chargebackHistory_points charges :
  0 <= riskScore (chargebackHistory charges no_risk) <= 40.
Proof.
  unfold chargebackHistory.
  repeat match goal with |- context [if ?b then _ else _] => destruct b end;
    cbn; lia.
Qed.

Lemma newCustomerLargeAmount_points now customer charges :
  0 <= riskScore (newCustomerLargeAmount now customer charges no_risk) <= 15.
Proof.
  unfold newCustomerLargeAmount. destruct (Js.ltb _ _ && _); cbn; lia.
Qed.

Lemma velocityCheck_points charges :
  0 <= riskScore (velocityCheck charges no_risk) <= 10.
Proof.
  unfold velocityCheck.
  repeat match goal with |- context [if ?b then _ else _] => destruct b end;
    cbn; lia.
Qed.

(** The uncapped score is the sum of the points of the four blocks. *)
Lemma riskScore_sum now customer charges :
  riskScore
    (velocityCheck charges
       (newCustomerLargeAmount now customer charges
          (chargebackHistory charges (paymentFailures charges no_risk))))
  = riskScore (paymentFailures charges no_risk)
    + riskScore (chargebackHistory charges no_risk)
    + riskScore (newCustomerLargeAmount now customer charges no_risk)
    + riskScore (velocityCheck charges no_risk).
Proof.
  rewrite (proj1 (velocityCheck_additive charges _)).
  rewrite (proj1 (newCustomerLargeAmount_additive now customer charges _)).
  rewrite (proj1 (chargebackHistory_additive charges _)).
  reflexivity.
Qed.

Lemma score_sum now customer charges pis :
  score (assessRisk now customer charges pis)
  = riskScore (paymentFailures charges no_risk)
    + riskScore (chargebackHistory charges no_risk)
    + riskScore (newCustomerLargeAmount now customer charges no_risk)
    + riskScore (velocityCheck charges no_risk).
Proof.
  unfold assessRisk. cbn [score]. rewrite riskScore_sum.
  pose proof (paymentFailures_points charges).
  pose proof (chargebackHistory_points charges).
  pose proof (newCustomerLargeAmount_points now customer charges).
  pose proof (velocityCheck_points charges).
  lia.
Qed.

(** C10: for every input the risk score is at most 95: the four factors
    contribute at most 30 (failure rate), 40 (disputes), 15 (new customer
    with a large amount) and 10 (velocity), and the score is their sum, so
    the cap at 100 never binds. *)
Theorem score_at_most_95 now customer charges pis :
  let pf := riskScore (paymentFailures charges no_risk) in
  let cb := riskScore (chargebackHistory charges no_risk) in
  let nc := riskScore (newCustomerLargeAmount now customer charges no_risk) in
  let vc := riskScore (velocityCheck charges no_risk) in
  pf <= 30 /\ cb <= 40 /\ nc <= 15 /\ vc <= 10 /\
  score (assessRisk now customer charges pis) = pf + cb + nc + vc /\
  score (assessRisk now customer charges pis) <= 95.
Proof.
  cbn zeta. rewrite score_sum.
  pose proof (paymentFailures_points charges).
  pose proof (chargebackHistory_points charges).
  pose proof (newCustomerLargeAmount_points now customer charges).
  pose proof (velocityCheck_points charges).
  repeat split; lia.
Qed.

Lemma gtb_leb (c x y : Js.number) :
  Js.gtb x c = true -> Js.leb x y = true -> Js.gtb y c = true.
Proof. unfold Js.gtb. apply ltb_leb_trans. Qed.

Lemma paymentFailures_mono cs cs' :
  Js.leb (failureRate cs) (failureRate cs') = true ->
  riskScore (paymentFailures cs no_risk)
  <= riskScore (paymentFailures cs' no_risk).
Proof.
  intros Hle. unfold paymentFailures.
  destruct (Js.gtb (failureRate cs) Js.lit_0_3) eqn:E3.
  - rewrite (gtb_leb _ _ _ E3 Hle).
    destruct (Js.gtb (failureRate cs) Js.lit_0_5) eqn:E5.
    + rewrite (gtb_leb _ _ _ E5 Hle). cbn. lia.
    + destruct (Js.gtb (failureRate cs') Js.lit_0_5); cbn; lia.
  - pose proof (paymentFailures_points cs') as Hb.
    unfold paymentFailures in Hb. cbn [riskScore no_risk]. lia.
Qed.

Lemma chargebackHistory_mono cs cs' :
  chargebacks cs <= chargebacks cs' ->
  (0 < chargebacks cs ->
   Js.leb (chargebackRate cs) (chargebackRate cs') = true) ->
  riskScore (chargebackHistory cs no_risk)
  <= riskScore (chargebackHistory cs' no_risk).
Proof.
  intros Hcount Hrate. unfold chargebackHistory.
  destruct (Z.ltb_spec 0 (chargebacks cs)) as [Hpos|Hzero].
  - destruct (Z.ltb_spec 0 (chargebacks cs')); [|lia].
    specialize (Hrate Hpos).
    destruct (Js.gtb (chargebackRate cs) Js.lit_0_01) eqn:E.
    + rewrite (gtb_leb _ _ _ E Hrate). cbn. lia.
    + destruct (Js.gtb (chargebackRate cs') Js.lit_0_01); cbn; lia.
  - pose proof (chargebackHistory_points cs') as Hb.
    unfold chargebackHistory in Hb. cbn [riskScore no_risk]. lia.
Qed.

Lemma newCustomerLargeAmount_mono now customer cs cs' :
  (0 < largeCharges cs -> 0 < largeCharges cs') ->
  riskScore (newCustomerLargeAmount now customer cs no_risk)
  <= riskScore (newCustomerLargeAmount now customer cs' no_risk).
Proof.
  intros Hlarge. unfold newCustomerLargeAmount.
  destruct (Js.ltb (accountAge now customer) (Js.of_Z 1)); cbn [andb];
    [|cbn; lia].
  destruct (Z.ltb_spec 0 (largeCharges cs)) as [Hpos|Hzero].
  - destruct (Z.ltb_spec 0 (largeCharges cs')); [cbn; lia|].
    specialize (Hlarge Hpos). lia.
  - destruct (0 <? largeCharges cs'); cbn; lia.
Qed.

Lemma velocityCheck_mono cs cs' :
  len cs <= len cs' ->
  (10 < len cs -> Js.leb (daysBetween cs') (daysBetween cs) = true) ->
  riskScore (velocityCheck cs no_risk) <= riskScore (velocityCheck cs' no_risk).
Proof.
  intros Hlen Hspan. unfold velocityCheck.
  destruct (Z.ltb_spec 10 (len cs)) as [Hmany|Hfew].
  - destruct (Z.ltb_spec 10 (len cs')); [|lia].
    specialize (Hspan Hmany).
    destruct (Js.ltb (daysBetween cs) (Js.of_Z 7)) eqn:E.
    + rewrite (leb_ltb_trans _ _ _ Hspan E). cbn. lia.
    + destruct (Js.ltb (daysBetween cs') (Js.of_Z 7)); cbn; lia.
  - pose proof (velocityCheck_points cs') as Hb.
    unfold velocityCheck in Hb. cbn [riskScore no_risk]. lia.
Qed.

(** C3 (amended): for every input the risk score is in [0,100]; and between
    two charge lists assessed for the same customer at the same time, the
    score does not decrease when no factor magnitude decreases: the failure
    rate, the dispute count together with the dispute rate (disputes per
    record, which decides the severity), the presence of a large record,
    and the velocity count over a time span that does not grow. *)
Theorem score_range_and_monotone now customer pis cs cs' :
  0 <= score (assessRisk now customer cs pis) <= 100 /\
  (Js.leb (failureRate cs) (failureRate cs') = true ->
   chargebacks cs <= chargebacks cs' ->
   (0 < chargebacks cs ->
    Js.leb (chargebackRate cs) (chargebackRate cs') = true) ->
   (0 < largeCharges cs -> 0 < largeCharges cs') ->
   len cs <= len cs' ->
   (10 < len cs -> Js.leb (daysBetween cs') (daysBetween cs) = true) ->
   score (assessRisk now customer cs pis)
   <= score (assessRisk now customer cs' pis)).
Proof.
  split.
  - rewrite score_sum.
    pose proof (paymentFailures_points cs).
    pose proof (chargebackHistory_points cs).
    pose proof (newCustomerLargeAmount_points now customer cs).
    pose proof (velocityCheck_points cs).
    lia.
  - intros Hfail Hcount Hrate Hlarge Hlen Hspan.
    rewrite !score_sum.
    pose proof (paymentFailures_mono _ _ Hfail).
    pose proof (chargebackHistory_mono _ _ Hcount Hrate).
    pose proof (newCustomerLargeAmount_mono now customer _ _ Hlarge).
    pose proof (velocityCheck_mono _ _ Hlen Hspan).
    lia.
Qed.

Lemma assessRisk_nil now customer pis :
  assessRisk now customer [] pis
  = {| score := 0; factors := []; recommendation := low_risk |}.
Proof.
  unfold assessRisk.
  change (paymentFailures [] no_risk) with no_risk.
  change (chargebackHistory [] no_risk) with no_risk.
  unfold newCustomerLargeAmount.
  change (0 <? largeCharges []) with false.
  rewrite andb_false_r.
  reflexivity.
Qed.

(** C7: when charges, payment intents and subscriptions are all empty the
    aggregator returns (it does not throw) a bundle with lifetime value
    total 0, success rate 0, risk score 0 with no factor, recommendation
    [low_risk], and null first and last purchase dates. *)
Theorem empty_inputs_bundle now cust invs :
  exists b,
    calculateCustomerInsights now
      {| customer := cust; charges := []; paymentIntents := [];
         subscriptions := []; invoices := invs |} = Ok b /\
    total (lifetimeValue b) = Js.zero /\
    successRate (paymentPattern b) = Js.zero /\
    score (riskAssessment b) = 0 /\
    factors (riskAssessment b) = [] /\
    recommendation (riskAssessment b) = low_risk /\
    firstPurchaseDate (metadata b) = None /\
    lastPurchaseDate (metadata b) = None.
Proof.
  eexists. split.
  - unfold calculateCustomerInsights.
    cbn [charges subscriptions paymentIntents customer].
    rewrite assessRisk_nil. reflexivity.
  - cbn. repeat split; reflexivity.
Qed.

(* ===================================================================== *)
(** * Properties: the aggregator returns *)
(* ===================================================================== *)

Lemma toISOString_valid seconds :
  valid_time seconds ->
  toISOString (seconds * 1000) = Ok {| epoch_ms := seconds * 1000 |}.
Proof.
  unfold valid_time, toISOString. intros H.
  destruct (Z.leb_spec (Z.abs (seconds * 1000)) 8640000000000000);
    [reflexivity|lia].
Qed.

Lemma insert_by_created_In c d sorted :
  In d (insert_by_created c sorted) <-> d = c \/ In d sorted.
Proof.
  induction sorted as [|e rest IH]; cbn [insert_by_created].
  - cbn. intuition.
  - destruct (Charge.created c <? Charge.created e); cbn [In] in *;
      rewrite ?IH; intuition.
Qed.

Lemma sort_by_created_In d charges :
  In d (sort_by_created charges) <-> In d charges.
Proof.
  unfold sort_by_created.
  enough (forall acc,
             In d (fold_left (fun sorted c => insert_by_created c sorted)
                             charges acc)
             <-> In d acc \/ In d charges) as H.
  { rewrite H. cbn. intuition. }
  induction charges as [|c cs IH]; intros acc; cbn [fold_left In].
  - intuition.
  - rewrite IH, insert_by_created_In. intuition.
Qed.

Lemma item_In {A} (xs : list A) i x : item xs i = Some x -> In x xs.
Proof.
  unfold item. destruct (i <? 0); [discriminate|]. apply nth_error_In.
Qed.

Lemma analyzeSubscriptions_returns subs :
  (forall s, In s subs -> valid_time (Subscription.current_period_end s)) ->
  exists h, analyzeSubscriptions subs = Ok h.
Proof.
  intros Hvalid. unfold analyzeSubscriptions.
  destruct (List.filter is_active subs) as [|s rest] eqn:E.
  - eexists. reflexivity.
  - assert (In s subs) as Hin.
    { eapply (proj1 (filter_In is_active s subs)). rewrite E. left. reflexivity. }
    rewrite (toISOString_valid _ (Hvalid s Hin)). eexists. reflexivity.
Qed.

Lemma extractMetadata_returns now charges customer :
  (forall c, In c charges -> valid_time (Charge.created c)) ->
  exists m, extractMetadata now charges customer = Ok m.
Proof.
  intros Hvalid. unfold extractMetadata.
  assert (forall i c, item (sort_by_created charges) i = Some c ->
                      valid_time (Charge.created c)) as Hitem.
  { intros i c Hi. apply Hvalid, sort_by_created_In. eapply item_In, Hi. }
  destruct (item (sort_by_created charges) 0) as [c0|] eqn:E0;
    destruct (item (sort_by_created charges)
                   (len (sort_by_created charges) - 1)) as [c1|] eqn:E1;
    rewrite ?(toISOString_valid _ (Hitem _ _ E0)),
            ?(toISOString_valid _ (Hitem _ _ E1));
    eexists; reflexivity.
Qed.

(** A bundle that is returned holds the results of the component
    computations. *)
Lemma calculateCustomerInsights_components now data b :
  calculateCustomerInsights now data = Ok b ->
  lifetimeValue b = calculateLifetimeValue (charges data) (subscriptions data) /\
  paymentPattern b = analyzePaymentPattern (charges data) (paymentIntents data) /\
  riskAssessment b
  = assessRisk now (customer data) (charges data) (paymentIntents data).
Proof.
  unfold calculateCustomerInsights.
  destruct (analyzeSubscriptions (subscriptions data)) as [h|e];
    [|discriminate].
  destruct (extractMetadata now (charges data) (customer data)) as [m|e];
    [|discriminate].
  intros [= <-]. cbn. repeat split; reflexivity.
Qed.

(** With valid timestamps the aggregator returns. *)
Lemma calculateCustomerInsights_returns now data :
  valid_times data -> exists b, calculateCustomerInsights now data = Ok b.
Proof.
  intros [Hc Hs]. unfold calculateCustomerInsights.
  destruct (analyzeSubscriptions_returns _ Hs) as [h ->].
  destruct (extractMetadata_returns now _ (customer data) Hc) as [m ->].
  eexists. reflexivity.
Qed.

(* ===================================================================== *)
(** * Properties: scenario B *)
(* ===================================================================== *)

Lemma paymentFailures_3_of_4 charges acc :
  len charges = 4 -> count is_failed charges = 3 ->
  paymentFailures charges acc = flag failures_3_of_4 30 acc.
Proof.
  intros Hlen Hfailed. unfold paymentFailures, failureRate.
  rewrite Hlen, Hfailed. reflexivity.
Qed.

(** C8: for an entity with exactly 4 payment records, 1 succeeded and 3
    failed, the aggregator returns (whenever the timestamps are valid dates)
    and the bundle it returns has success rate 25, a risk factor
    [payment_failures] with severity [high] (failure rate 0.75), and a score
    made of 30 points for that factor plus the points of the other
    factors. *)
Theorem scenario_B_bundle now data :
  len (charges data) = 4 ->
  count is_succeeded (charges data) = 1 ->
  count is_failed (charges data) = 3 ->
  (valid_times data -> exists b, calculateCustomerInsights now data = Ok b) /\
  (forall b,
     calculateCustomerInsights now data = Ok b ->
     successRate (paymentPattern b) = Js.of_Z 25 /\
     In failures_3_of_4 (factors (riskAssessment b)) /\
     score (riskAssessment b)
     = 30 + other_points now (customer data) (charges data)).
Proof.
  intros Hlen Hsucc Hfailed.
  split; [apply calculateCustomerInsights_returns|].
  intros b Hb.
  destruct (calculateCustomerInsights_components now data b Hb)
    as (_ & -> & ->).
  repeat split.
  - unfold analyzePaymentPattern. cbn [successRate].
    rewrite Hlen, Hsucc. reflexivity.
  - unfold assessRisk. cbn [factors].
    rewrite (proj2 (velocityCheck_additive _ _)).
    rewrite (proj2 (newCustomerLargeAmount_additive _ _ _ _)).
    rewrite (proj2 (chargebackHistory_additive _ _)).
    rewrite (paymentFailures_3_of_4 _ _ Hlen Hfailed).
    cbn [flag acc_factors no_risk app]. left. reflexivity.
  - rewrite score_sum. unfold other_points.
    rewrite (paymentFailures_3_of_4 _ _ Hlen Hfailed).
    cbn [flag riskScore no_risk]. lia.
Qed.

Lemma scenario_B_bundle_witness :
  exists b,
    calculateCustomerInsights clock scenario_B = Ok b /\
    successRate (paymentPattern b) = Js.of_Z 25 /\
    In failures_3_of_4 (factors (riskAssessment b)) /\
    score (riskAssessment b) = 30.
Proof.
  destruct (scenario_B_bundle clock scenario_B eq_refl eq_refl eq_refl)
    as [Hreturns Hbundle].
  destruct Hreturns as [b Hb].
  - split.
    + intros c Hc. cbn in Hc.
      destruct Hc as [<-|[<-|[<-|[<-|[]]]]]; unfold valid_time; cbn; lia.
    + intros s [].
  - exists b. split; [exact Hb|].
    destruct (Hbundle b Hb) as (Hrate & Hfactor & Hscore).
    repeat split; [exact Hrate|exact Hfactor|].
    rewrite Hscore. reflexivity.
Defined.

(* ===================================================================== *)
(** * Properties: scenarios for the risk score *)
(* ===================================================================== *)

(** C3, as stated, does not hold for the velocity count: going from 99 to
    100 records with the failure rate (0), the dispute count (1), the number
    of large records (0) and the time span (0 days) unchanged lowers the
    score from 50 to 30, because the dispute rate falls from 1/99 to 1/100
    and is no longer above 0.01. *)
Lemma velocity_count_can_lower_score :
  failureRate one_dispute_in_99 = failureRate one_dispute_in_100 /\
  chargebacks one_dispute_in_99 = chargebacks one_dispute_in_100 /\
  largeCharges one_dispute_in_99 = largeCharges one_dispute_in_100 /\
  daysBetween one_dispute_in_99 = daysBetween one_dispute_in_100 /\
  len one_dispute_in_99 < len one_dispute_in_100 /\
  score (assessRisk clock settled_customer one_dispute_in_99 []) = 50 /\
  score (assessRisk clock settled_customer one_dispute_in_100 []) = 30.
Proof. vm_compute. repeat split; reflexivity. Qed.

Lemma score_range_and_monotone_witness :
  score (assessRisk clock settled_customer one_failure_in_3 [])
  <= score (assessRisk clock settled_customer two_failures_in_3 []).
Proof.
  apply (proj2 (score_range_and_monotone clock settled_customer []
                  one_failure_in_3 two_failures_in_3)).
  - vm_compute. reflexivity.
  - vm_compute. discriminate.
  - intros _. vm_compute. reflexivity.
  - intros _. vm_compute. reflexivity.
  - vm_compute. discriminate.
  - intros _. vm_compute. reflexivity.
Defined.

(** The bound of 95 is reached: 11 disputed, failed, large charges of a
    customer created a day before. *)
Example score_95_is_reached :
  score (assessRisk clock (Customer.mk "cus_new" 1699913600)
           (repeat disputed_failure 11) []) = 95.
Proof. vm_compute. reflexivity. Qed.

(* ===================================================================== *)
(** * Properties: cache *)
(* ===================================================================== *)

Ltac run_eff :=
  unfold mbind, mret, Eff_bind, Eff_ret, cache_get, cache_set, cache_delete,
         log, throw;
  cbn [cache processedEvents console negb].

Lemma lookup_fresh api now now' customerId st d t :
  cache st !! customerId = Some {| data := d; timestamp := t |} ->
  now - t < CACHE_TTL ->
  is_hit d customerId st
    (fetchCustomerDataWithCache api now now' customerId false st).
Proof.
  intros Hentry Hfresh. unfold is_hit, fetchCustomerDataWithCache. run_eff.
  rewrite Hentry. cbn [timestamp data].
  destruct (Z.ltb_spec (now - t) CACHE_TTL); [reflexivity|lia].
Qed.

Lemma miss_path api now' customerId st :
  is_miss api now' customerId st
    ((_ ← log (LogCacheMiss customerId);
      d ← fetchCustomerData api customerId;
      _ ← cache_set customerId {| data := d; timestamp := now' |};
      mret d) st).
Proof.
  unfold is_miss, fetchCustomerData. run_eff.
  destruct (api customerId) as [fresh|]; run_eff.
  - reflexivity.
  - eexists. rewrite <- app_assoc. reflexivity.
Qed.

Lemma lookup_absent api now now' customerId st :
  cache st !! customerId = None ->
  is_miss api now' customerId st
    (fetchCustomerDataWithCache api now now' customerId false st).
Proof.
  intros Hnone. pose proof (miss_path api now' customerId st) as Hmiss.
  unfold fetchCustomerDataWithCache. revert Hmiss. run_eff.
  rewrite Hnone. exact (fun H => H).
Qed.

Lemma lookup_expired api now now' customerId st d t :
  cache st !! customerId = Some {| data := d; timestamp := t |} ->
  CACHE_TTL <= now - t ->
  is_miss api now' customerId st
    (fetchCustomerDataWithCache api now now' customerId false st).
Proof.
  intros Hentry Hold. pose proof (miss_path api now' customerId st) as Hmiss.
  unfold fetchCustomerDataWithCache. revert Hmiss. run_eff.
  rewrite Hentry. cbn [timestamp data].
  destruct (Z.ltb_spec (now - t) CACHE_TTL); [lia|]. exact (fun H => H).
Qed.

(** A lookup that went to the payments API and got [d] leaves a state in
    which the next lookup within the TTL of the storing time hits on [d]. *)
Lemma refetch_then_lookup api api' now0 now0' now now' customerId st d :
  api customerId = Some d ->
  now - now0' < CACHE_TTL ->
  let st1 := snd (fetchCustomerDataWithCache api now0 now0' customerId true st) in
  fst (fetchCustomerDataWithCache api now0 now0' customerId true st) = Ok d /\
  is_hit d customerId st1
    (fetchCustomerDataWithCache api' now now' customerId false st1).
Proof.
  intros Hapi Hfresh.
  pose proof (miss_path api now0' customerId st) as Hmiss.
  unfold is_miss in Hmiss. rewrite Hapi in Hmiss.
  unfold fetchCustomerDataWithCache at 1 2. revert Hmiss. run_eff.
  intros ->. cbn [fst snd]. split; [reflexivity|].
  eapply lookup_fresh; [|exact Hfresh].
  cbn [cache]. apply lookup_insert_eq.
Qed.

(** C4: a lookup of [X] that follows a store of [(X, d)] by less than the
    TTL returns exactly [d] without consulting the payments API; a lookup of
    [X] after [invalidateCache X] is a miss; and a lookup of [X] at least a
    TTL after the last store of [X] is a miss, even though nothing was
    invalidated. *)
Theorem cache_lookup_after_store_invalidate_expiry
    (api : Upstream) (now now' : Z) (X : string) (st : State)
    (d : StripeCustomerData) (t : Z) :
  let stored := snd (cache_set X {| data := d; timestamp := t |} st) in
  let invalidated := snd (invalidateCache X st) in
  (now - t < CACHE_TTL ->
   is_hit d X stored (fetchCustomerDataWithCache api now now' X false stored))
  /\
  is_miss api now' X invalidated
    (fetchCustomerDataWithCache api now now' X false invalidated)
  /\
  (CACHE_TTL <= now - t ->
   is_miss api now' X stored
     (fetchCustomerDataWithCache api now now' X false stored)).
Proof.
  cbn zeta. split; [|split].
  - intros Hfresh. eapply lookup_fresh; [|exact Hfresh].
    cbn. apply lookup_insert_eq.
  - apply lookup_absent. cbn. apply lookup_delete_eq.
  - intros Hold. eapply lookup_expired; [|exact Hold].
    cbn. apply lookup_insert_eq.
Qed.

Lemma cache_lookup_after_store_witness :
  let stored :=
    snd (cache_set "cus_B" {| data := scenario_B; timestamp := 1000 |}
                   empty_state) in
  is_hit scenario_B "cus_B" stored
    (fetchCustomerDataWithCache api_down 2000 2001 "cus_B" false stored).
Proof.
  apply (proj1 (cache_lookup_after_store_invalidate_expiry
                  api_down 2000 2001 "cus_B" empty_state scenario_B 1000)).
  reflexivity.
Defined.

(* ===================================================================== *)
(** * Properties: webhook listener *)
(* ===================================================================== *)

Lemma invalidations_app (xs ys : list LogEntry) :
  invalidations (xs ++ ys) = (invalidations xs + invalidations ys)%nat.
Proof. unfold invalidations. rewrite List.filter_app, length_app. reflexivity. Qed.

(** Dispatching an event appends a console trace that starts with the
    dispatch line, deletes the cache entry of the invalidation target and
    invalidates exactly as many times as there is a target. *)
Lemma handleWebhook_effect (event : Event.t) (st : State) :
  exists trace,
    handleWebhook event st
    = (Ok tt, {| cache := invalidated_cache event st;
                 processedEvents := processedEvents st;
                 console := console st
                            ++ LogProcessing (Event.type event) :: trace |})
    /\ invalidations trace = invalidation_count event.
Proof.
  unfold handleWebhook, invalidated_cache, invalidation_count,
         invalidation_target, handleCustomerCreated, handleCustomerUpdated, handleChargeSucceeded,
         handleChargeFailed, handleSubscriptionCreated,
         handleSubscriptionDeleted, invalidateCache.
  run_eff.
  repeat match goal with
         | |- context [String.eqb (Event.type event) ?s] =>
             destruct (String.eqb (Event.type event) s)
         end;
    cbn [orb];
    try destruct (customerId_of event);
    run_eff; rewrite <- ?app_assoc; cbn [app];
    eexists; (split; [reflexivity|reflexivity]).
Qed.

Section Endpoint.
Variable constructEvent : ConstructEvent.
Variable env_secret : option string.

(** The endpoint on a request whose signature does not verify. *)
Lemma endpoint_bad_signature (req : Request) (st : State) :
  constructEvent (req_body req) (stripe_signature req)
                 (webhookSecret env_secret) = None ->
  createWebhookEndpoint constructEvent env_secret req st
  = (Ok {| status := 400; body := ErrorBody "Invalid signature" |},
     {| cache := cache st;
        processedEvents := processedEvents st;
        console := console st ++ [LogSignatureFailed; LogProcessingFailed] |}).
Proof.
  intros Hbad.
  unfold createWebhookEndpoint, try_catch, verifyWebhookSignature.
  cbn zeta. rewrite Hbad. run_eff. rewrite <- app_assoc. reflexivity.
Qed.

(** The endpoint on a verified event that was not processed before. *)
Lemma endpoint_first_delivery (req : Request) (event : Event.t) (st : State) :
  constructEvent (req_body req) (stripe_signature req)
                 (webhookSecret env_secret) = Some event ->
  Event.id event ∉ processedEvents st ->
  exists trace,
    createWebhookEndpoint constructEvent env_secret req st
    = (Ok acknowledged,
       {| cache := invalidated_cache event st;
          processedEvents := {[Event.id event]} ∪ processedEvents st;
          console := console st
                     ++ LogProcessing (Event.type event) :: trace |})
    /\ invalidations trace = invalidation_count event.
Proof.
  intros Hgood Hnew.
  destruct (handleWebhook_effect event st) as (trace & Hrun & Hcount).
  exists trace. split; [|exact Hcount].
  unfold createWebhookEndpoint, try_catch, verifyWebhookSignature,
         isEventProcessed, markEventProcessed.
  cbn zeta. rewrite Hgood. run_eff.
  rewrite bool_decide_eq_false_2 by exact Hnew.
  rewrite Hrun. reflexivity.
Qed.

(** The endpoint on a verified event that was processed before. *)
Lemma endpoint_duplicate (req : Request) (event : Event.t) (st : State) :
  constructEvent (req_body req) (stripe_signature req)
                 (webhookSecret env_secret) = Some event ->
  Event.id event ∈ processedEvents st ->
  createWebhookEndpoint constructEvent env_secret req st
  = (Ok acknowledged,
     {| cache := cache st;
        processedEvents := processedEvents st;
        console := console st ++ [LogDuplicate (Event.id event)] |}).
Proof.
  intros Hgood Hseen.
  unfold createWebhookEndpoint, try_catch, verifyWebhookSignature,
         isEventProcessed.
  cbn zeta. rewrite Hgood. run_eff.
  rewrite bool_decide_eq_true_2 by exact Hseen.
  reflexivity.
Qed.

(** C6: a notification whose signature does not verify against the secret
    is answered with the client-error status 400; nothing is dispatched to
    an event handler, no cache entry is invalidated and the delivery is not
    recorded as processed: cache and processed set are unchanged and the
    console gains only the two failure lines. *)
Theorem unverified_notification_rejected (req : Request) (st : State) :
  constructEvent (req_body req) (stripe_signature req)
                 (webhookSecret env_secret) = None ->
  exists st',
    createWebhookEndpoint constructEvent env_secret req st
    = (Ok {| status := 400; body := ErrorBody "Invalid signature" |}, st') /\
    cache st' = cache st /\
    processedEvents st' = processedEvents st /\
    console st' = console st ++ [LogSignatureFailed; LogProcessingFailed] /\
    (forall type, In (LogProcessing type) (console st') ->
                  In (LogProcessing type) (console st)) /\
    invalidations (console st') = invalidations (console st).
Proof.
  intros Hbad. rewrite (endpoint_bad_signature req st Hbad).
  eexists. split; [reflexivity|]. cbn [cache processedEvents console].
  repeat split.
  - intros type. rewrite in_app_iff.
    intros [H|[H|[H|[]]]]; [exact H|discriminate..].
  - rewrite invalidations_app. cbn. lia.
Qed.

(** C5 (amended): when a validly signed notification is delivered twice
    with the same delivery identifier, not processed before and with nothing
    in between, both deliveries are acknowledged with status 200 and the
    second performs no invalidation; across the two deliveries the cache is
    invalidated exactly once when the type tag is one of [customer.updated],
    [charge.succeeded], [charge.failed], [subscription.created],
    [subscription.deleted] and the object names a customer, and not at all
    otherwise (e.g. [customer.created] or an unknown type). *)
Theorem duplicate_delivery_idempotent
    (req1 req2 : Request) (event1 event2 : Event.t) (st : State) :
  constructEvent (req_body req1) (stripe_signature req1)
                 (webhookSecret env_secret) = Some event1 ->
  constructEvent (req_body req2) (stripe_signature req2)
                 (webhookSecret env_secret) = Some event2 ->
  Event.id event2 = Event.id event1 ->
  Event.id event1 ∉ processedEvents st ->
  exists st1 st2,
    createWebhookEndpoint constructEvent env_secret req1 st
    = (Ok acknowledged, st1) /\
    createWebhookEndpoint constructEvent env_secret req2 st1
    = (Ok acknowledged, st2) /\
    cache st1 = invalidated_cache event1 st /\
    cache st2 = cache st1 /\
    invalidations (console st1)
    = (invalidations (console st) + invalidation_count event1)%nat /\
    invalidations (console st2) = invalidations (console st1) /\
    (invalidation_count event1 <= 1)%nat.
Proof.
  intros Hgood1 Hgood2 Hid Hnew.
  destruct (endpoint_first_delivery req1 event1 st Hgood1 Hnew)
    as (trace & Hfirst & Hcount).
  eexists. eexists. split; [exact Hfirst|].
  split.
  - apply (endpoint_duplicate req2 event2); [exact Hgood2|].
    cbn [processedEvents]. rewrite Hid. set_solver.
  - cbn [cache console]. repeat split.
    + rewrite invalidations_app.
      change (LogProcessing (Event.type event1) :: trace)
        with ([LogProcessing (Event.type event1)] ++ trace).
      rewrite invalidations_app, Hcount. cbn. lia.
    + rewrite (invalidations_app _ [LogDuplicate (Event.id event2)]).
      cbn. lia.
    + unfold invalidation_count. destruct (invalidation_target event1); lia.
Qed.

End Endpoint.

(* ===================================================================== *)
(** * Scenarios for the webhook listener *)
(* ===================================================================== *)

(** C5, as stated, does not hold: a validly signed [customer.created]
    notification delivered twice is acknowledged twice with status 200, and
    no cache invalidation is performed at all. *)
Lemma customer_created_twice_invalidates_nothing :
  exists st1 st2,
    sample_endpoint (signed "created") empty_state = (Ok acknowledged, st1) /\
    sample_endpoint (signed "created") st1 = (Ok acknowledged, st2) /\
    invalidations (console st2) = 0%nat /\
    invalidations (console st2) <> 1%nat.
Proof.
  destruct (endpoint_first_delivery sample_constructEvent (Some "whsec_1")
              (signed "created") created_event empty_state eq_refl)
    as (trace & Hfirst & Hcount); [set_solver|].
  eexists. eexists. split; [exact Hfirst|]. split.
  - apply (endpoint_duplicate sample_constructEvent (Some "whsec_1")
             (signed "created") created_event); [reflexivity|].
    cbn [processedEvents]. set_solver.
  - cbn [console]. rewrite !invalidations_app.
    change (LogProcessing (Event.type created_event) :: trace)
      with ([LogProcessing (Event.type created_event)] ++ trace).
    rewrite invalidations_app, Hcount. cbn. split; [reflexivity|discriminate].
Qed.

Lemma duplicate_delivery_idempotent_witness :
  exists st1 st2,
    sample_endpoint (signed "charge") empty_state = (Ok acknowledged, st1) /\
    sample_endpoint (signed "charge") st1 = (Ok acknowledged, st2) /\
    cache st1 = invalidated_cache charge_event empty_state /\
    cache st2 = cache st1 /\
    invalidations (console st1)
    = (invalidations (console empty_state) + invalidation_count charge_event)%nat /\
    invalidations (console st2) = invalidations (console st1) /\
    (invalidation_count charge_event <= 1)%nat.
Proof.
  apply (duplicate_delivery_idempotent sample_constructEvent (Some "whsec_1")
           (signed "charge") (signed "charge") charge_event charge_event
           empty_state).
  - reflexivity.
  - reflexivity.
  - reflexivity.
  - cbn. apply not_elem_of_empty.
Defined.

Lemma unverified_notification_rejected_witness :
  exists st',
    sample_endpoint (forged "charge") empty_state
    = (Ok {| status := 400; body := ErrorBody "Invalid signature" |}, st') /\
    cache st' = cache empty_state /\
    processedEvents st' = processedEvents empty_state /\
    console st' = console empty_state ++ [LogSignatureFailed; LogProcessingFailed] /\
    (forall type, In (LogProcessing type) (console st') ->
                  In (LogProcessing type) (console empty_state)) /\
    invalidations (console st') = invalidations (console empty_state).
Proof.
  apply (unverified_notification_rejected sample_constructEvent (Some "whsec_1")
           (forged "charge") empty_state).
  reflexivity.
Defined.

(** The charge notification invalidates once. *)
Example charge_event_invalidates_once :
  invalidation_count charge_event = 1%nat /\
  invalidation_count created_event = 0%nat.
Proof. split; reflexivity. Qed.


(* ===================================================================== *)
(** * Further properties: the paginated fetches *)
(* ===================================================================== *)

Lemma item_last {A} (xs : list A) (x : A) :
  item (xs ++ [x]) (len (xs ++ [x]) - 1) = Some x.
Proof.
  unfold item, len. rewrite length_app. cbn [length].
  destruct (Z.ltb_spec (Z.of_nat (length xs + 1) - 1) 0); [lia|].
  replace (Z.to_nat (Z.of_nat (length xs + 1) - 1)) with (length xs) by lia.
  rewrite nth_error_app2 by lia. rewrite Nat.sub_diag. reflexivity.
Qed.

Section Pagination.
Context {A : Type}.
Variable id_of : A -> string.
Variable limit : nat.
Variable params : option string -> ListParams.
Hypothesis limit_positive : (0 < limit)%nat.
Hypothesis params_limit : forall cursor, lp_limit (params cursor) = Z.of_nat limit.
Hypothesis params_cursor :
  forall cursor, lp_starting_after (params cursor) = cursor.

Lemma after_id_found (before : list A) (x : A) (rest : list A) :
  NoDup (map id_of (before ++ x :: rest)) ->
  after_id id_of (id_of x) (before ++ x :: rest) = rest.
Proof.
  induction before as [|b before IH]; cbn [app map after_id]; intros Hdup.
  - rewrite String.eqb_refl. reflexivity.
  - apply NoDup_cons in Hdup as [Hfresh Hdup].
    destruct (String.eqb_spec (id_of b) (id_of x)) as [Heq|_].
    + exfalso. apply Hfresh. rewrite Heq, map_app. cbn [map].
      apply list_elem_of_In, in_or_app. right. left. reflexivity.
    + apply IH, Hdup.
Qed.

Lemma paginate_paged_server (fuel : nat) :
  forall (collected rest : list A) (cursor : option string) (s : unit),
    NoDup (map id_of (collected ++ rest)) ->
    cursor_of id_of collected cursor ->
    (length rest < limit * fuel)%nat ->
    paginate id_of (paged_server id_of (collected ++ rest)) params
             fuel collected cursor s
    = Some (Ok (collected ++ rest), s).
Proof.
  induction fuel as [|fuel IH]; intros collected rest cursor s Hdup Hcur Hlen;
    [lia|].
  cbn [paginate]. unfold paged_server at 1.
  rewrite params_cursor, params_limit, Nat2Z.id.
  assert ((match cursor with
           | None => collected ++ rest
           | Some c => after_id id_of c (collected ++ rest)
           end) = rest) as ->.
  { destruct cursor as [c|]; cbn [cursor_of] in Hcur.
    - destruct Hcur as (before & x & -> & ->).
      rewrite <- app_assoc in *. cbn [app] in *.
      apply after_id_found, Hdup.
    - subst collected. reflexivity. }
  cbn [page_data has_more]. unfold len at 1.
  destruct (Z.ltb_spec (Z.of_nat limit) (Z.of_nat (length rest))) as [Hmore|Hlast].
  - assert (firstn limit rest <> []) as Hne.
    { intros Hnil. apply (f_equal (@length A)) in Hnil.
      rewrite length_firstn in Hnil. cbn in Hnil. lia. }
    destruct (exists_last Hne) as (page & last & Hpage).
    rewrite Hpage.
    assert ((0 <? len (page ++ [last])) = true) as ->.
    { apply Z.ltb_lt. unfold len. rewrite length_app. cbn. lia. }
    rewrite item_last.
    assert (collected ++ rest
            = ((collected ++ page) ++ [last]) ++ skipn limit rest) as Hsplit.
    { rewrite <- (firstn_skipn limit rest) at 1.
      rewrite Hpage, !app_assoc. reflexivity. }
    rewrite app_assoc, Hsplit.
    apply IH.
    + rewrite <- Hsplit. exact Hdup.
    + cbn [cursor_of]. exists (collected ++ page), last.
      split; reflexivity.
    + rewrite length_skipn. lia.
  - rewrite firstn_all2 by lia. reflexivity.
Qed.

(** Against a server that never stops reporting more pages the loop has
    no exit. *)
Lemma paginate_never_returns {S}
    (list_call : ListParams -> S -> Result (Page A) * S) (fuel : nat) :
  (forall p s, exists page s',
      list_call p s = (Ok page, s') /\ has_more page = true) ->
  forall collected cursor s,
    paginate id_of list_call params fuel collected cursor s = None.
Proof.
  intros Hmore. induction fuel as [|fuel IH]; intros collected cursor s;
    [reflexivity|].
  cbn [paginate].
  destruct (Hmore (params cursor) s) as (page & s' & -> & ->).
  apply IH.
Qed.

End Pagination.

Lemma paginate_pages_of_100 {A} (id_of : A -> string)
    (customerId : string) (status : option string)
    (records : list A) (fuel : nat) (s : unit) :
  NoDup (map id_of records) ->
  (length records < 100 * fuel)%nat ->
  paginate id_of (paged_server id_of records)
    (fun startingAfter =>
       {| lp_customer := customerId; lp_limit := 100; lp_status := status;
          lp_starting_after := startingAfter |})
    fuel [] None s
  = Some (Ok records, s).
Proof.
  intros Hdup Hlen.
  exact (paginate_paged_server id_of 100
           (fun startingAfter =>
              {| lp_customer := customerId; lp_limit := 100;
                 lp_status := status;
                 lp_starting_after := startingAfter |})
           ltac:(lia) (fun _ => eq_refl) (fun _ => eq_refl)
           fuel [] records None s Hdup eq_refl Hlen).
Qed.

(** X1: each of the four fetchers is exhaustive: against an endpoint that
    serves a fixed sequence of records with pairwise distinct ids by cursor,
    pages of 100, it returns exactly that sequence, in order, whatever its
    length (given fuel for one request per page). *)
Theorem fetchers_exhaustive
    (api : StripeApi unit) (customerId : string) (fuel : nat) (s : unit) :
  (forall cs, charges_list api = paged_server Charge.id cs ->
     NoDup (map Charge.id cs) -> (length cs < 100 * fuel)%nat ->
     fetchCharges api customerId fuel s = Some (Ok cs, s)) /\
  (forall pis, paymentIntents_list api = paged_server PaymentIntent.id pis ->
     NoDup (map PaymentIntent.id pis) -> (length pis < 100 * fuel)%nat ->
     fetchPaymentIntents api customerId fuel s = Some (Ok pis, s)) /\
  (forall subs, subscriptions_list api = paged_server Subscription.id subs ->
     NoDup (map Subscription.id subs) -> (length subs < 100 * fuel)%nat ->
     fetchSubscriptions api customerId fuel s = Some (Ok subs, s)) /\
  (forall invs, invoices_list api = paged_server Invoice.id invs ->
     NoDup (map Invoice.id invs) -> (length invs < 100 * fuel)%nat ->
     fetchInvoices api customerId fuel s = Some (Ok invs, s)).
Proof.
  unfold fetchCharges, fetchPaymentIntents, fetchSubscriptions, fetchInvoices.
  repeat split; intros records -> Hdup Hlen;
    apply paginate_pages_of_100; assumption.
Qed.

Lemma numbered_charges_ids (n : nat) (id : string) :
  forall c, In c (numbered_charges n id) ->
            (String.length id <= String.length (Charge.id c))%nat.
Proof.
  revert id. induction n as [|n IH]; intros id c; cbn [numbered_charges In].
  - intros [].
  - intros [<-|Hin]; [cbn; lia|].
    specialize (IH _ _ Hin). cbn in IH. lia.
Qed.

Lemma numbered_charges_NoDup (n : nat) (id : string) :
  NoDup (map Charge.id (numbered_charges n id)).
Proof.
  revert id. induction n as [|n IH]; intros id; cbn [numbered_charges map].
  - constructor.
  - constructor; [|apply IH].
    rewrite list_elem_of_In, in_map_iff. intros (c & Hid & Hin).
    apply numbered_charges_ids in Hin. cbn [Charge.id] in Hid.
    rewrite Hid in Hin. cbn in Hin. lia.
Qed.

Lemma fetchers_exhaustive_witness :
  fetchCharges (sample_api (numbered_charges 250 "c") [] [] []) "cus_1" 3 tt
  = Some (Ok (numbered_charges 250 "c"), tt).
Proof.
  apply (proj1 (fetchers_exhaustive
                  (sample_api (numbered_charges 250 "c") [] [] [])
                  "cus_1" 3 tt)).
  - reflexivity.
  - apply numbered_charges_NoDup.
  - vm_compute. lia.
Defined.

(** X2: none of the four fetchers returns against a server that keeps
    reporting more pages (for instance one that answers an empty page with
    [has_more] set): the loop has no other exit. *)
Theorem fetchers_never_return_while_more
    {S} (api : StripeApi S) (customerId : string) :
  ((forall p s, exists page s',
       charges_list api p s = (Ok page, s') /\ has_more page = true) ->
   forall fuel s, fetchCharges api customerId fuel s = None) /\
  ((forall p s, exists page s',
       paymentIntents_list api p s = (Ok page, s') /\ has_more page = true) ->
   forall fuel s, fetchPaymentIntents api customerId fuel s = None) /\
  ((forall p s, exists page s',
       subscriptions_list api p s = (Ok page, s') /\ has_more page = true) ->
   forall fuel s, fetchSubscriptions api customerId fuel s = None) /\
  ((forall p s, exists page s',
       invoices_list api p s = (Ok page, s') /\ has_more page = true) ->
   forall fuel s, fetchInvoices api customerId fuel s = None).
Proof.
  unfold fetchCharges, fetchPaymentIntents, fetchSubscriptions, fetchInvoices.
  repeat split; intros Hmore fuel s;
    apply paginate_never_returns, Hmore.
Qed.

Lemma fetchers_never_return_while_more_witness :
  fetchCharges stalled_api "cus_1" 1000 tt = None.
Proof.
  apply (proj1 (fetchers_never_return_while_more stalled_api "cus_1")).
  intros p s'. eexists. eexists. split; reflexivity.
Defined.

(* ===================================================================== *)
(** * Further properties: lifetime value *)
(* ===================================================================== *)

(** Beyond 2^53 the order of the charges matters: with a charge of 2^53
    minor units first, two charges of one minor unit are lost one after the
    other; with the large charge last they are not. *)
Example order_matters_beyond_2_53 :
  Permutation large_first large_last /\
  volume large_first = 2 ^ 53 + 2 /\
  oneTime (breakdown (calculateLifetimeValue large_first []))
    = Js.quot (2 ^ 53) 100 /\
  oneTime (breakdown (calculateLifetimeValue large_last []))
    = Js.quot (2 ^ 53 + 2) 100 /\
  total (calculateLifetimeValue large_first [])
    <> total (calculateLifetimeValue large_last []).
Proof.
  split.
  { unfold large_first, large_last.
    apply (Permutation_cons_app [_; _] []). reflexivity. }
  split; [reflexivity|].
  split; [vm_compute; reflexivity|].
  split; [vm_compute; reflexivity|].
  vm_compute. discriminate.
Qed.

(** X3: as long as the amounts and refunded amounts add up, in absolute
    value, to less than 2^53 minor units, the amounts of the lifetime value
    do not depend on the order of the charges (nor on the subscriptions
    passed along): a permutation of the charges gives the same total and the
    same breakdown. *)
Theorem lifetime_value_order_independent
    (cs cs' : list Charge.t) (subs subs' : list Subscription.t) :
  Permutation cs cs' ->
  volume cs < 2 ^ 53 ->
  total (calculateLifetimeValue cs subs)
  = total (calculateLifetimeValue cs' subs') /\
  breakdown (calculateLifetimeValue cs subs)
  = breakdown (calculateLifetimeValue cs' subs').
Proof.
  intros H Hv.
  destruct (lifetime_value_exact cs subs Hv) as [-> ->].
  rewrite (volume_Permutation _ _ H) in Hv.
  destruct (lifetime_value_exact cs' subs' Hv) as [-> ->].
  destruct (spec_sums_Permutation _ _ H) as (-> & -> & ->).
  split; reflexivity.
Qed.

Lemma lifetime_value_order_independent_witness :
  total (calculateLifetimeValue scenario_A [])
  = total (calculateLifetimeValue (rev scenario_A) []) /\
  breakdown (calculateLifetimeValue scenario_A [])
  = breakdown (calculateLifetimeValue (rev scenario_A) []).
Proof.
  apply lifetime_value_order_independent.
  - apply Permutation_rev.
  - vm_compute. reflexivity.
Defined.

(** X4: a charge that did not succeed and carries no refund is invisible to
    the lifetime value: removing it anywhere in the list changes neither the
    amounts nor the currency. *)
Theorem unsuccessful_charge_is_invisible
    (before after : list Charge.t) (c : Charge.t)
    (subs : list Subscription.t) :
  Charge.status c <> succeeded ->
  refund_of c = 0 ->
  calculateLifetimeValue (before ++ c :: after) subs
  = calculateLifetimeValue (before ++ after) subs.
Proof.
  intros Hstatus Hrefund.
  assert (is_succeeded c = false) as Hc.
  { unfold is_succeeded. destruct (Charge.status c); try reflexivity.
    congruence. }
  assert (List.filter is_succeeded (before ++ c :: after)
          = List.filter is_succeeded (before ++ after)) as Hfilter.
  { rewrite !List.filter_app. cbn [List.filter]. rewrite Hc. reflexivity. }
  unfold calculateLifetimeValue, oneTimeTotal, subscriptionTotal, refundedTotal.
  rewrite Hfilter, (sum_by_skip refund_of before after c Hrefund).
  reflexivity.
Qed.

Lemma unsuccessful_charge_is_invisible_witness :
  calculateLifetimeValue
    (scenario_A ++ sample_charge 999 0 failed Absent :: dime_and_twenty) []
  = calculateLifetimeValue (scenario_A ++ dime_and_twenty) [].
Proof.
  apply unsuccessful_charge_is_invisible.
  - discriminate.
  - reflexivity.
Defined.

(* ===================================================================== *)
(** * Further properties: payment pattern *)
(* ===================================================================== *)

Lemma count_cons {A} (p : A -> bool) (x : A) (xs : list A) :
  count p (x :: xs) = (if p x then 1 else 0) + count p xs.
Proof.
  unfold count. cbn [List.filter]. destruct (p x); cbn [length]; lia.
Qed.

Lemma count_nonneg {A} (p : A -> bool) (xs : list A) : 0 <= count p xs.
Proof. unfold count. lia. Qed.

Lemma len_cons {A} (x : A) (xs : list A) : len (x :: xs) = 1 + len xs.
Proof. unfold len. cbn [length]. lia. Qed.

(** X5: the counters of the payment pattern are consistent: succeeded and
    failed payments are counted apart, together they never exceed the total,
    and the difference is the number of pending charges. *)
Theorem payment_counters_consistent
    (cs : list Charge.t) (pis : list PaymentIntent.t) :
  let p := analyzePaymentPattern cs pis in
  totalPayments p = len cs /\
  0 <= successfulPayments p /\ 0 <= failedPayments p /\
  successfulPayments p + failedPayments p
  + count (fun c => ChargeStatus_eqb (Charge.status c) pending) cs
  = totalPayments p.
Proof.
  cbn zeta. unfold analyzePaymentPattern.
  cbn [totalPayments successfulPayments failedPayments].
  split; [reflexivity|]. split; [apply count_nonneg|].
  split; [apply count_nonneg|].
  induction cs as [|c cs IH]; [reflexivity|].
  rewrite !count_cons, len_cons.
  assert ((if is_succeeded c then 1 else 0) + (if is_failed c then 1 else 0)
          + (if ChargeStatus_eqb (Charge.status c) pending then 1 else 0) = 1)
    as Hone.
  { unfold is_succeeded, is_failed. destruct (Charge.status c); reflexivity. }
  lia.
Qed.

Lemma paymentMethodCounts_fold (cs : list Charge.t) :
  paymentMethodCounts cs = fold_left count_method cs [].
Proof. reflexivity. Qed.

Lemma count_method_method_of (m : list (string * Z)) (c : Charge.t) :
  count_method m c
  = match method_of c with
    | Some type => map_set type (map_get_or0 type m + 1) m
    | None => m
    end.
Proof.
  unfold count_method, method_of.
  destruct (Charge.payment_method_type c) as [type|]; [|reflexivity].
  destruct (truthy_string type); reflexivity.
Qed.

Lemma map_get_set (t k : string) (v : Z) (m : list (string * Z)) :
  map_get t (map_set k v m)
  = if String.eqb t k then Some v else map_get t m.
Proof.
  induction m as [|[k' v'] m IH]; cbn [map_set map_get].
  - reflexivity.
  - destruct (String.eqb_spec k k') as [<-|Hkk']; cbn [map_get].
    + destruct (String.eqb t k); reflexivity.
    + rewrite IH.
      destruct (String.eqb_spec t k') as [->|_]; [|reflexivity].
      destruct (String.eqb_spec k' k); [congruence|reflexivity].
Qed.

Lemma map_set_keys (k : string) (v : Z) (m : list (string * Z)) :
  (In k (map fst m) /\ map fst (map_set k v m) = map fst m) \/
  (~ In k (map fst m) /\ map fst (map_set k v m) = map fst m ++ [k]).
Proof.
  induction m as [|[k' v'] m IH]; cbn [map_set map fst In app].
  - right. split; [tauto|reflexivity].
  - destruct (String.eqb_spec k k') as [<-|Hkk']; cbn [map fst].
    + left. split; [left|]; reflexivity.
    + destruct IH as [[Hin ->]|[Hout ->]].
      * left. split; [right; exact Hin|reflexivity].
      * right. split; [|reflexivity]. intros [H|H]; [congruence|tauto].
Qed.

Lemma map_set_NoDup (k : string) (v : Z) (m : list (string * Z)) :
  NoDup (map fst m) -> NoDup (map fst (map_set k v m)).
Proof.
  intros Hdup. destruct (map_set_keys k v m) as [[_ ->]|[Hout ->]].
  - exact Hdup.
  - apply NoDup_app. split; [exact Hdup|]. split.
    + intros x Hx Hk. apply list_elem_of_In in Hx, Hk.
      destruct Hk as [<-|[]]. tauto.
    + apply NoDup_singleton.
Qed.

Lemma map_get_In (k : string) (v : Z) (m : list (string * Z)) :
  map_get k m = Some v -> In (k, v) m.
Proof.
  induction m as [|[k' v'] m IH]; cbn [map_get]; [discriminate|].
  destruct (String.eqb_spec k k') as [<-|_].
  - intros [= ->]. left. reflexivity.
  - intros H. right. apply IH, H.
Qed.

Lemma In_map_get (k : string) (v : Z) (m : list (string * Z)) :
  NoDup (map fst m) -> In (k, v) m -> map_get k m = Some v.
Proof.
  induction m as [|[k' v'] m IH]; cbn [map fst In map_get]; [tauto|].
  intros Hdup. apply NoDup_cons in Hdup as [Hfresh Hdup].
  intros [[= -> ->]|Hin].
  - rewrite String.eqb_refl. reflexivity.
  - destruct (String.eqb_spec k k') as [<-|_]; [|apply IH; assumption].
    exfalso. apply Hfresh, list_elem_of_In, in_map_iff.
    exists (k, v). split; [reflexivity|exact Hin].
Qed.

Lemma map_get_or0_positive (k : string) (m : list (string * Z)) :
  positive_counts m ->
  map_get_or0 k m = match map_get k m with Some v => v | None => 0 end.
Proof.
  intros Hpos. unfold map_get_or0.
  destruct (map_get k m) as [v|] eqn:E; [|reflexivity].
  specialize (Hpos k v E). unfold Js.truthyZ.
  destruct (Z.eqb_spec v 0); [lia|reflexivity].
Qed.

Lemma map_get_or0_nonneg (k : string) (m : list (string * Z)) :
  positive_counts m -> 0 <= map_get_or0 k m.
Proof.
  intros Hpos. rewrite (map_get_or0_positive k m Hpos).
  destruct (map_get k m) as [v|] eqn:E; [|lia].
  specialize (Hpos k v E). lia.
Qed.

Lemma occurrences_cons (t : string) (c : Charge.t) (cs : list Charge.t) :
  occurrences t (c :: cs)
  = (match method_of c with
     | Some t' => if String.eqb t' t then 1 else 0
     | None => 0
     end) + occurrences t cs.
Proof.
  unfold occurrences. rewrite count_cons.
  destruct (method_of c) as [t'|]; reflexivity.
Qed.

(** The map built by the [forEach] holds, for every type, the number of
    charges counting for it; its keys are distinct and its counts positive. *)
Lemma counts_fold (cs : list Charge.t) :
  forall m,
    positive_counts m -> NoDup (map fst m) ->
    positive_counts (fold_left count_method cs m) /\
    NoDup (map fst (fold_left count_method cs m)) /\
    forall t, map_get_or0 t (fold_left count_method cs m)
              = map_get_or0 t m + occurrences t cs.
Proof.
  induction cs as [|c cs IH]; intros m Hpos Hdup; cbn [fold_left].
  - repeat split; try assumption. intros t. unfold occurrences, count. cbn. lia.
  - assert (positive_counts (count_method m c)) as Hpos'.
    { rewrite count_method_method_of.
      destruct (method_of c) as [type|]; [|exact Hpos].
      intros k v. rewrite map_get_set.
      destruct (String.eqb k type); [|apply Hpos].
      intros [= <-]. pose proof (map_get_or0_nonneg type m Hpos). lia. }
    assert (NoDup (map fst (count_method m c))) as Hdup'.
    { rewrite count_method_method_of.
      destruct (method_of c); [apply map_set_NoDup|]; exact Hdup. }
    destruct (IH _ Hpos' Hdup') as (Hp & Hd & Hget).
    repeat split; try assumption.
    intros t. rewrite Hget, occurrences_cons.
    rewrite (map_get_or0_positive t _ Hpos'), (map_get_or0_positive t m Hpos).
    rewrite count_method_method_of.
    destruct (method_of c) as [type|]; [|lia].
    rewrite map_get_set. rewrite (String.eqb_sym type t).
    destruct (String.eqb_spec t type) as [->|_]; [|lia].
    rewrite (map_get_or0_positive type m Hpos). lia.
Qed.

Lemma counts_of_charges (cs : list Charge.t) :
  positive_counts (paymentMethodCounts cs) /\
  NoDup (map fst (paymentMethodCounts cs)) /\
  forall t, map_get_or0 t (paymentMethodCounts cs) = occurrences t cs.
Proof.
  rewrite paymentMethodCounts_fold.
  destruct (counts_fold cs []) as (Hp & Hd & Hget).
  - intros k v. discriminate.
  - constructor.
  - split; [exact Hp|]. split; [exact Hd|]. intros t. exact (Hget t).
Qed.

Lemma preferred_fold (counts : list (string * Z)) :
  preferred counts = snd (fold_left prefer counts (0, None)).
Proof. reflexivity. Qed.

(** The [forEach] keeps the first entry that holds the largest count above
    the initial one, if there is any. *)
Lemma prefer_fold (entries : list (string * Z)) :
  forall (mx0 : Z) (b0 : option string),
    let r := fold_left prefer entries (mx0, b0) in
    (r = (mx0, b0) /\ forall k v, In (k, v) entries -> v <= mx0) \/
    (exists e1 k e2,
        entries = e1 ++ (k, fst r) :: e2 /\ snd r = Some k /\ mx0 < fst r /\
        (forall k' v', In (k', v') e1 -> v' < fst r) /\
        (forall k' v', In (k', v') e2 -> v' <= fst r)).
Proof.
  induction entries as [|[k v] entries IH]; intros mx0 b0; cbn zeta.
  - left. split; [reflexivity|]. intros k v [].
  - cbn [fold_left prefer fst].
    destruct (Z.ltb_spec mx0 v) as [Hlt|Hge].
    + destruct (IH v (Some k)) as [[Hr Hall]|(e1 & k' & e2 & He & Hs & Hm & H1 & H2)].
      * right. exists [], k, entries. rewrite Hr. cbn [fst snd app].
        repeat split; try assumption; try reflexivity. intros ? ? [].
      * right. exists ((k, v) :: e1), k', e2. rewrite He at 1.
        repeat split; try assumption; try lia.
        intros k'' v'' [[= <- <-]|Hin]; [exact Hm|]. eapply H1, Hin.
    + destruct (IH mx0 b0) as [[Hr Hall]|(e1 & k' & e2 & He & Hs & Hm & H1 & H2)].
      * left. split; [exact Hr|].
        intros k'' v'' [[= <- <-]|Hin]; [exact Hge|]. eapply Hall, Hin.
      * right. exists ((k, v) :: e1), k', e2. rewrite He at 1.
        repeat split; try assumption.
        intros k'' v'' [[= <- <-]|Hin]; [lia|]. eapply H1, Hin.
Qed.

Lemma occurrences_none (cs : list Charge.t) (t : string) :
  (forall c, In c cs -> method_of c = None) -> occurrences t cs = 0.
Proof.
  induction cs as [|c cs IH]; intros Hnone; [reflexivity|].
  rewrite occurrences_cons, (Hnone c (or_introl eq_refl)), IH; [reflexivity|].
  intros d Hd. apply Hnone. right. exact Hd.
Qed.

Lemma occurrences_some (cs : list Charge.t) (c : Charge.t) (t : string) :
  In c cs -> method_of c = Some t -> 0 < occurrences t cs.
Proof.
  induction cs as [|d cs IH]; intros Hin Hm; [destruct Hin|].
  rewrite occurrences_cons.
  pose proof (count_nonneg
                (fun c => match method_of c with
                          | Some t' => String.eqb t' t
                          | None => false
                          end) cs) as Hnn.
  fold (occurrences t cs) in Hnn.
  destruct Hin as [->|Hin].
  - rewrite Hm, String.eqb_refl. lia.
  - specialize (IH Hin Hm). destruct (method_of d) as [t'|]; [|lia].
    destruct (String.eqb t' t); lia.
Qed.

(** X6: no preferred payment method is reported exactly when no charge
    carries a (non-empty) payment method type. *)
Theorem no_preferred_method_iff
    (cs : list Charge.t) (pis : list PaymentIntent.t) :
  preferredPaymentMethod (analyzePaymentPattern cs pis) = None
  <-> forall c, In c cs -> method_of c = None.
Proof.
  unfold analyzePaymentPattern. cbn [preferredPaymentMethod].
  destruct (counts_of_charges cs) as (Hpos & Hdup & Hget).
  rewrite preferred_fold.
  destruct (prefer_fold (paymentMethodCounts cs) 0 None)
    as [[Hr Hall]|(e1 & k & e2 & He & Hs & _)]; cbn zeta in *.
  - rewrite Hr. cbn [snd]. split; [intros _|reflexivity].
    intros c Hc. destruct (method_of c) as [t|] eqn:Hm; [|reflexivity].
    exfalso. pose proof (occurrences_some cs c t Hc Hm) as Hocc.
    rewrite <- Hget, (map_get_or0_positive t _ Hpos) in Hocc.
    destruct (map_get t (paymentMethodCounts cs)) as [v|] eqn:E; [|lia].
    specialize (Hall t v (map_get_In _ _ _ E)). lia.
  - rewrite Hs. split; [discriminate|]. intros Hnone. exfalso.
    assert (In (k, fst (fold_left prefer (paymentMethodCounts cs) (0, None)))
               (paymentMethodCounts cs)) as Hin.
    { rewrite He at 2. apply in_or_app. right. left. reflexivity. }
    apply (In_map_get _ _ _ Hdup) in Hin.
    pose proof (Hpos _ _ Hin) as Hv.
    pose proof (Hget k) as Hk.
    rewrite (map_get_or0_positive k _ Hpos), Hin in Hk.
    rewrite (occurrences_none cs k Hnone) in Hk. lia.
Qed.

(** X7: a preferred payment method that is reported is used by some charge
    and is a most used one: no type counts more charges than it. *)
Theorem preferred_method_is_most_used
    (cs : list Charge.t) (pis : list PaymentIntent.t) (m : string) :
  preferredPaymentMethod (analyzePaymentPattern cs pis) = Some m ->
  0 < occurrences m cs /\ forall t, occurrences t cs <= occurrences m cs.
Proof.
  unfold analyzePaymentPattern. cbn [preferredPaymentMethod].
  destruct (counts_of_charges cs) as (Hpos & Hdup & Hget).
  rewrite preferred_fold.
  destruct (prefer_fold (paymentMethodCounts cs) 0 None)
    as [[Hr Hall]|(e1 & k & e2 & He & Hs & Hm & H1 & H2)]; cbn zeta in *.
  - rewrite Hr. discriminate.
  - rewrite Hs. intros [= ->].
    set (mx := fst (fold_left prefer (paymentMethodCounts cs) (0, None))) in *.
    assert (map_get m (paymentMethodCounts cs) = Some mx) as Hgetm.
    { apply (In_map_get _ _ _ Hdup). rewrite He.
      apply in_or_app. right. left. reflexivity. }
    assert (occurrences m cs = mx) as Hocc.
    { rewrite <- Hget, (map_get_or0_positive m _ Hpos), Hgetm. reflexivity. }
    split; [lia|]. intros t.
    rewrite Hocc, <- (Hget t), (map_get_or0_positive t _ Hpos).
    destruct (map_get t (paymentMethodCounts cs)) as [v|] eqn:E; [|lia].
    apply map_get_In in E. rewrite He in E.
    apply in_app_or in E as [E|[[= _ <-]|E]]; [|lia|].
    + specialize (H1 _ _ E). lia.
    + exact (H2 _ _ E).
Qed.

Lemma preferred_method_is_most_used_witness :
  0 < occurrences "sepa" method_charges /\
  forall t, occurrences t method_charges <= occurrences "sepa" method_charges.
Proof.
  apply (preferred_method_is_most_used method_charges [] "sepa").
  reflexivity.
Defined.

Lemma keys_prefix (cs : list Charge.t) :
  forall m, exists extra,
    map fst (fold_left count_method cs m) = map fst m ++ extra.
Proof.
  induction cs as [|c cs IH]; intros m; cbn [fold_left].
  - exists []. rewrite app_nil_r. reflexivity.
  - destruct (IH (count_method m c)) as [extra ->].
    rewrite count_method_method_of.
    destruct (method_of c) as [type|]; [|exists extra; reflexivity].
    destruct (map_set_keys type (map_get_or0 type m + 1) m)
      as [[_ ->]|[_ ->]].
    + exists extra. reflexivity.
    + exists ([type] ++ extra). rewrite app_assoc. reflexivity.
Qed.

Lemma fold_keys_NoDup (cs : list Charge.t) :
  forall m, NoDup (map fst m) -> NoDup (map fst (fold_left count_method cs m)).
Proof.
  induction cs as [|c cs IH]; intros m Hdup; cbn [fold_left]; [exact Hdup|].
  apply IH. rewrite count_method_method_of.
  destruct (method_of c); [apply map_set_NoDup|]; exact Hdup.
Qed.

Lemma NoDup_app_cons_l {A} (xs ys : list A) (x : A) :
  NoDup (xs ++ x :: ys) -> ~ In x xs /\ ~ In x ys.
Proof.
  intros H. apply NoDup_app in H as (_ & Hdisj & Hr).
  apply NoDup_cons in Hr as [Hfresh _].
  split.
  - intros Hin. apply (Hdisj x); apply list_elem_of_In; [exact Hin|left; reflexivity].
  - intros Hin. apply Hfresh, list_elem_of_In, Hin.
Qed.

(** The keys of the map are in the order in which the types are first met:
    a type [k] held before a type [t] that was not in the initial map either
    was in the initial map or is met in the charges before any use of [t]. *)
Lemma keys_order (cs : list Charge.t) :
  forall m front k back t,
    NoDup (map fst m) ->
    map fst (fold_left count_method cs m) = front ++ k :: back ->
    In t back ->
    ~ In t (map fst m) ->
    In k (map fst m) \/
    exists l1 c l2,
      cs = l1 ++ c :: l2 /\ method_of c = Some k /\
      forall c', In c' l1 -> method_of c' <> Some t.
Proof.
  induction cs as [|c cs IH]; intros m front k back t Hdup Hkeys Ht Hnew;
    cbn [fold_left] in Hkeys.
  - left. rewrite Hkeys. apply in_or_app. right. left. reflexivity.
  - pose proof (fold_keys_NoDup cs (count_method m c)) as Hnodup.
    rewrite count_method_method_of in Hkeys, Hnodup.
    destruct (method_of c) as [type|] eqn:Hm.
    + pose proof (map_set_NoDup type (map_get_or0 type m + 1) m Hdup) as Hdup1.
      specialize (Hnodup Hdup1).
      destruct (String.eqb_spec type t) as [->|Hne].
      * (* the charge uses [t]: [t] is appended now, so [k] was there before *)
        left.
        destruct (keys_prefix cs (map_set t (map_get_or0 t m + 1) m))
          as [extra Hpre].
        destruct (map_set_keys t (map_get_or0 t m + 1) m)
          as [[Hin _]|[_ Hset]]; [tauto|].
        rewrite Hkeys in Hnodup. rewrite Hpre, Hset, <- app_assoc in Hkeys.
        cbn [app] in Hkeys.
        destruct (NoDup_app_cons_l _ _ _ Hnodup) as [HkA HkB].
        apply app_eq_app in Hkeys as [l [[HA HB]|[HA HB]]].
        -- destruct l as [|x l]; cbn [app] in HB.
           ++ injection HB as -> _. tauto.
           ++ injection HB as <- HB. rewrite HA.
              apply in_or_app. right. left. reflexivity.
        -- destruct l as [|x l]; cbn [app] in HB.
           ++ injection HB as -> _. tauto.
           ++ injection HB as <- HB.
              exfalso.
              apply NoDup_app in Hnodup as (_ & Hdisj & _).
              apply (Hdisj t); apply list_elem_of_In.
              ** rewrite HA. apply in_or_app. right. left. reflexivity.
              ** right. exact Ht.
      * assert (~ In t (map fst (map_set type (map_get_or0 type m + 1) m)))
          as Hnew1.
        { destruct (map_set_keys type (map_get_or0 type m + 1) m)
            as [[_ ->]|[_ ->]]; [exact Hnew|].
          intros Hin. apply in_app_or in Hin as [Hin|[Hin|[]]];
            [tauto|congruence]. }
        destruct (IH _ front k back t Hdup1 Hkeys Ht Hnew1)
          as [Hin|(l1 & c' & l2 & -> & Hc' & Hl1)].
        -- destruct (map_set_keys type (map_get_or0 type m + 1) m)
             as [[_ Hset]|[_ Hset]]; rewrite Hset in Hin.
           ++ left. exact Hin.
           ++ apply in_app_or in Hin as [Hin|[<-|[]]]; [left; exact Hin|].
              right. exists [], c, cs.
              split; [reflexivity|]. split; [exact Hm|]. intros ? [].
        -- right. exists (c :: l1), c', l2.
           split; [reflexivity|]. split; [exact Hc'|].
           intros d [<-|Hd]; [rewrite Hm; congruence|apply Hl1, Hd].
    + specialize (Hnodup Hdup).
      destruct (IH _ front k back t Hdup Hkeys Ht Hnew)
        as [Hin|(l1 & c' & l2 & -> & Hc' & Hl1)]; [left; exact Hin|].
      right. exists (c :: l1), c', l2.
      split; [reflexivity|]. split; [exact Hc'|].
      intros d [<-|Hd]; [rewrite Hm; discriminate|apply Hl1, Hd].
Qed.

(** The entry of the preferred method in the map: no entry before it
    holds as large a count. *)
Lemma preferred_entry (cs : list Charge.t) (m : string) :
  preferred (paymentMethodCounts cs) = Some m ->
  exists e1 e2 mx,
    paymentMethodCounts cs = e1 ++ (m, mx) :: e2 /\
    0 < mx /\ occurrences m cs = mx /\
    forall k v, In (k, v) e1 -> v < mx.
Proof.
  destruct (counts_of_charges cs) as (Hpos & Hdup & Hget).
  rewrite preferred_fold.
  destruct (prefer_fold (paymentMethodCounts cs) 0 None)
    as [[Hr Hall]|(e1 & k & e2 & He & Hs & Hm & H1 & H2)]; cbn zeta in *.
  - rewrite Hr. discriminate.
  - rewrite Hs. intros [= ->].
    set (mx := fst (fold_left prefer (paymentMethodCounts cs) (0, None))) in *.
    exists e1, e2, mx. repeat split; try assumption.
    rewrite <- Hget, (map_get_or0_positive m _ Hpos).
    rewrite (In_map_get m mx _ Hdup); [reflexivity|].
    rewrite He. apply in_or_app. right. left. reflexivity.
Qed.

(** X8: ties go to the type met first: when another type counts as many
    charges as the preferred one, the preferred one is used by a charge
    that comes before every charge of the other type. *)
Theorem preferred_method_tie_first_met
    (cs : list Charge.t) (pis : list PaymentIntent.t) (m t : string) :
  preferredPaymentMethod (analyzePaymentPattern cs pis) = Some m ->
  t <> m ->
  occurrences t cs = occurrences m cs ->
  exists l1 c l2,
    cs = l1 ++ c :: l2 /\ method_of c = Some m /\
    forall c', In c' l1 -> method_of c' <> Some t.
Proof.
  intros Hpref Hne Htie.
  destruct (preferred_entry cs m Hpref) as (e1 & e2 & mx & He & Hmx & Hocc & H1).
  destruct (counts_of_charges cs) as (Hpos & Hdup & Hget).
  assert (In (t, mx) (paymentMethodCounts cs)) as Hin.
  { apply map_get_In.
    pose proof (Hget t) as Ht.
    rewrite (map_get_or0_positive t _ Hpos), Htie, Hocc in Ht.
    destruct (map_get t (paymentMethodCounts cs)) as [v|]; [congruence|lia]. }
  rewrite He in Hin. apply in_app_or in Hin as [Hin|[[= ?]|Hin]].
  - specialize (H1 _ _ Hin). lia.
  - congruence.
  - destruct (keys_order cs [] (map fst e1) m (map fst e2) t) as [[]|Hsplit].
    + constructor.
    + rewrite <- paymentMethodCounts_fold, He, map_app. reflexivity.
    + apply in_map_iff. exists (t, mx). split; [reflexivity|exact Hin].
    + intros [].
    + exact Hsplit.
Qed.

Lemma preferred_method_tie_first_met_witness :
  exists l1 c l2,
    method_charges = l1 ++ c :: l2 /\ method_of c = Some "sepa" /\
    forall c', In c' l1 -> method_of c' <> Some "card".
Proof.
  apply (preferred_method_tie_first_met method_charges [] "sepa" "card").
  - reflexivity.
  - discriminate.
  - reflexivity.
Defined.

(* ===================================================================== *)
(** * Further properties: risk assessment *)
(* ===================================================================== *)

Lemma paymentFailures_shape now customer cs :
  block_shape now customer cs payment_failures (paymentFailures cs no_risk).
Proof.
  unfold block_shape, paymentFailures, flagged.
  destruct (Js.gtb (failureRate cs) Js.lit_0_3).
  - right. eexists. cbn [flag acc_factors riskScore no_risk app type].
    split; [reflexivity|]. split; [reflexivity|]. split; [|reflexivity].
    unfold factor_points. cbn [type severity].
    destruct (Js.gtb (failureRate cs) Js.lit_0_5); reflexivity.
  - left. cbn. repeat split. discriminate.
Qed.

Lemma chargebackHistory_shape now customer cs :
  block_shape now customer cs high_chargeback_rate
              (chargebackHistory cs no_risk).
Proof.
  unfold block_shape, chargebackHistory, flagged.
  destruct (Z.ltb_spec 0 (chargebacks cs)).
  - right. eexists. cbn [flag acc_factors riskScore no_risk app type].
    split; [reflexivity|]. split; [reflexivity|]. split; [|assumption].
    unfold factor_points. cbn [type severity].
    destruct (Js.gtb (chargebackRate cs) Js.lit_0_01); reflexivity.
  - left. cbn. repeat split. lia.
Qed.

Lemma newCustomerLargeAmount_shape now customer cs :
  block_shape now customer cs new_customer_large_amount
              (newCustomerLargeAmount now customer cs no_risk).
Proof.
  unfold block_shape, newCustomerLargeAmount, flagged.
  destruct (Js.ltb (accountAge now customer) (Js.of_Z 1)); cbn [andb].
  - destruct (Z.ltb_spec 0 (largeCharges cs)).
    + right. eexists. cbn [flag acc_factors riskScore no_risk app type].
      repeat split; try reflexivity. assumption.
    + left. cbn. repeat split. intros [_ ?]. lia.
  - left. cbn. repeat split. intros [? _]. discriminate.
Qed.

Lemma velocityCheck_shape now customer cs :
  block_shape now customer cs velocity_check (velocityCheck cs no_risk).
Proof.
  unfold block_shape, velocityCheck, flagged.
  destruct (Z.ltb_spec 10 (len cs)).
  - destruct (Js.ltb (daysBetween cs) (Js.of_Z 7)).
    + right. eexists. cbn [flag acc_factors riskScore no_risk app type].
      repeat split; try reflexivity. assumption.
    + left. cbn. repeat split. intros [_ ?]. discriminate.
  - left. cbn. repeat split. intros [? _]. lia.
Qed.

Lemma factors_concat now customer cs pis :
  factors (assessRisk now customer cs pis)
  = acc_factors (paymentFailures cs no_risk)
    ++ acc_factors (chargebackHistory cs no_risk)
    ++ acc_factors (newCustomerLargeAmount now customer cs no_risk)
    ++ acc_factors (velocityCheck cs no_risk).
Proof.
  unfold assessRisk. cbn [factors].
  rewrite (proj2 (velocityCheck_additive _ _)).
  rewrite (proj2 (newCustomerLargeAmount_additive _ _ _ _)).
  rewrite (proj2 (chargebackHistory_additive _ _)).
  rewrite <- !app_assoc. reflexivity.
Qed.

Ltac risk_shapes now customer cs :=
  destruct (paymentFailures_shape now customer cs)
    as [(F1 & P1 & C1)|(f1 & F1 & T1 & P1 & C1)];
  destruct (chargebackHistory_shape now customer cs)
    as [(F2 & P2 & C2)|(f2 & F2 & T2 & P2 & C2)];
  destruct (newCustomerLargeAmount_shape now customer cs)
    as [(F3 & P3 & C3)|(f3 & F3 & T3 & P3 & C3)];
  destruct (velocityCheck_shape now customer cs)
    as [(F4 & P4 & C4)|(f4 & F4 & T4 & P4 & C4)].

(** X9: the recommendation is the bucket of the reported score: [low_risk]
    exactly below 20, [medium_risk] exactly from 20 to 49, [high_risk]
    exactly from 50 on. *)
Theorem recommendation_matches_score now customer cs pis :
  let r := assessRisk now customer cs pis in
  (recommendation r = low_risk <-> score r < 20) /\
  (recommendation r = medium_risk <-> 20 <= score r < 50) /\
  (recommendation r = high_risk <-> 50 <= score r).
Proof.
  cbn zeta.
  assert (recommendation (assessRisk now customer cs pis)
          = recommend (score (assessRisk now customer cs pis))) as ->.
  { rewrite score_sum. unfold assessRisk. cbn [recommendation].
    rewrite riskScore_sum. reflexivity. }
  unfold recommend.
  destruct (Z.ltb_spec (score (assessRisk now customer cs pis)) 20);
    [|destruct (Z.ltb_spec (score (assessRisk now customer cs pis)) 50)];
    repeat split; intros; try discriminate; try lia; reflexivity.
Qed.

(** X10: a factor of a given type is reported exactly when its condition
    holds, and the reported factors come in the order failure rate,
    disputes, new customer, velocity, each type at most once. *)
Theorem factors_reported_iff_flagged now customer cs pis :
  let r := assessRisk now customer cs pis in
  (forall t, In t (map type (factors r)) <-> flagged now customer cs t) /\
  sublist (map type (factors r))
          [payment_failures; high_chargeback_rate;
           new_customer_large_amount; velocity_check].
Proof.
  cbn zeta. rewrite factors_concat.
  risk_shapes now customer cs;
    rewrite F1, F2, F3, F4; cbn [app map]; rewrite ?T1, ?T2, ?T3, ?T4;
    (split;
     [ intros t; split;
       [ cbn [In]; intros Hin;
         repeat (destruct Hin as [<-|Hin]; [assumption|]); destruct Hin
       | intros Hflag; destruct t; cbn [In]; tauto ]
     | repeat first [apply sublist_nil | apply sublist_skip | apply sublist_cons] ]).
Qed.

(** X11: the score can be recomputed from the reported factors: it is the
    sum of 30 or 15 for the failure rate (high or medium), 40 or 20 for
    disputes, 15 for a new customer with a large amount and 10 for velocity;
    in particular it is 0 exactly when no factor is reported. *)
Theorem score_is_sum_of_factor_points now customer cs pis :
  let r := assessRisk now customer cs pis in
  score r = exact_sum factor_points (factors r) /\
  (score r = 0 <-> factors r = []).
Proof.
  cbn zeta. rewrite score_sum, factors_concat.
  assert (forall f, 0 < factor_points f) as Hpos.
  { intros f. unfold factor_points.
    destruct (type f), (severity f); lia. }
  risk_shapes now customer cs;
    rewrite F1, F2, F3, F4; cbn [app];
    rewrite ?exact_sum_cons, ?exact_sum_nil;
    repeat match goal with
           | H : factor_points ?f = _ |- _ =>
               pose proof (Hpos f); rewrite <- H; clear H
           end;
    rewrite ?P1, ?P2, ?P3, ?P4;
    (split; [lia|split; [intros; try lia; reflexivity|intros; try discriminate; lia]]).
Qed.

(* ===================================================================== *)
(** * Further properties: subscription health *)
(* ===================================================================== *)

Lemma analyzeSubscriptions_inv subs h :
  analyzeSubscriptions subs = Ok h ->
  activeSubscriptions h = count is_active subs /\
  totalSubscriptions h = len subs /\
  churnedSubscriptions h = count is_churned subs /\
  nextBillingDate h
  = match first_active subs with
    | Some sub =>
        Some {| epoch_ms := Subscription.current_period_end sub * 1000 |}
    | None => None
    end.
Proof.
  unfold analyzeSubscriptions, first_active.
  destruct (List.filter is_active subs) as [|sub rest]; cbn [head].
  - intros [= <-]. cbn. repeat split; reflexivity.
  - unfold toISOString.
    destruct (Z.abs (Subscription.current_period_end sub * 1000)
              <=? 8640000000000000); [|discriminate].
    intros [= <-]. cbn. repeat split; reflexivity.
Qed.

(** X12: the subscription counters are consistent: a subscription is never
    counted both as active and as churned, so active plus churned is at
    most the total, which is the number of subscriptions received. *)
Theorem subscription_counters_consistent subs h :
  analyzeSubscriptions subs = Ok h ->
  totalSubscriptions h = len subs /\
  0 <= activeSubscriptions h /\ 0 <= churnedSubscriptions h /\
  activeSubscriptions h + churnedSubscriptions h <= totalSubscriptions h.
Proof.
  intros Hok. destruct (analyzeSubscriptions_inv subs h Hok)
    as (-> & -> & -> & _).
  split; [reflexivity|]. split; [apply count_nonneg|].
  split; [apply count_nonneg|].
  clear Hok. induction subs as [|s subs IH]; [reflexivity|].
  rewrite !count_cons, len_cons.
  assert ((if is_active s then 1 else 0) + (if is_churned s then 1 else 0) <= 1)
    as Hone.
  { unfold is_active, is_churned. destruct (Subscription.status s); lia. }
  lia.
Qed.

(** X13: the outcome of [analyzeSubscriptions] is decided by the first
    active subscription in input order: without one, it returns with no next
    billing date and a zero monthly revenue; with one whose period end is a
    valid date, it returns with that date; with one whose period end is not
    a valid date, it throws a [RangeError], whatever the other
    subscriptions. *)
Theorem subscriptions_outcome subs :
  (first_active subs = None ->
   exists h, analyzeSubscriptions subs = Ok h /\
             nextBillingDate h = None /\
             activeSubscriptions h = 0 /\
             monthlyRecurringRevenue h = Js.zero) /\
  (forall sub, first_active subs = Some sub ->
     valid_time (Subscription.current_period_end sub) ->
     exists h, analyzeSubscriptions subs = Ok h /\
               nextBillingDate h
               = Some {| epoch_ms := Subscription.current_period_end sub * 1000 |}) /\
  (forall sub, first_active subs = Some sub ->
     ~ valid_time (Subscription.current_period_end sub) ->
     analyzeSubscriptions subs = Throw (RangeError "Invalid time value")).
Proof.
  unfold first_active, analyzeSubscriptions, count.
  destruct (List.filter is_active subs) as [|s rest]; cbn [head].
  - split; [|split]; [|discriminate..]. intros _.
    eexists. split; [reflexivity|]. cbn. repeat split; reflexivity.
  - split; [discriminate|]. split; intros sub [= <-] Hvalid.
    + rewrite (toISOString_valid _ Hvalid). eexists. split; reflexivity.
    + unfold toISOString, valid_time in *.
      destruct (Z.leb_spec (Z.abs (Subscription.current_period_end s * 1000))
                           8640000000000000); [tauto|reflexivity].
Qed.

(* ===================================================================== *)
(** * Further properties: metadata *)
(* ===================================================================== *)

Lemma insert_by_created_sorted c sorted :
  StronglySorted not_after sorted ->
  StronglySorted not_after (insert_by_created c sorted).
Proof.
  induction 1 as [|d rest Hsorted IH Hall]; cbn [insert_by_created].
  - repeat constructor.
  - destruct (Z.ltb_spec (Charge.created c) (Charge.created d)) as [Hlt|Hge].
    + constructor; [constructor; assumption|].
      constructor; [unfold not_after; lia|].
      rewrite Forall_forall in Hall |- *. intros e He.
      specialize (Hall e He). unfold not_after in *. lia.
    + constructor; [exact IH|].
      apply Forall_forall. intros e He. apply list_elem_of_In in He.
      apply insert_by_created_In in He as [->|He]; [exact Hge|].
      rewrite Forall_forall in Hall. apply Hall, list_elem_of_In, He.
Qed.

Lemma sort_by_created_sorted charges :
  StronglySorted not_after (sort_by_created charges).
Proof.
  unfold sort_by_created.
  enough (forall acc, StronglySorted not_after acc ->
                      StronglySorted not_after
                        (fold_left (fun sorted c => insert_by_created c sorted)
                                   charges acc)) as H.
  { apply H. constructor. }
  induction charges as [|c cs IH]; intros acc Hacc; cbn [fold_left];
    [exact Hacc|].
  apply IH, insert_by_created_sorted, Hacc.
Qed.

Lemma insert_by_created_length c sorted :
  length (insert_by_created c sorted) = S (length sorted).
Proof.
  induction sorted as [|d rest IH]; cbn [insert_by_created]; [reflexivity|].
  destruct (Charge.created c <? Charge.created d); cbn [length]; lia.
Qed.

Lemma sort_by_created_length charges :
  length (sort_by_created charges) = length charges.
Proof.
  unfold sort_by_created.
  enough (forall acc,
             length (fold_left (fun sorted c => insert_by_created c sorted)
                               charges acc)
             = (length acc + length charges)%nat) as H.
  { rewrite H. reflexivity. }
  induction charges as [|c cs IH]; intros acc; cbn [fold_left length]; [lia|].
  rewrite IH, insert_by_created_length. lia.
Qed.

Lemma sorted_last_is_latest (front : list Charge.t) (y : Charge.t) :
  StronglySorted not_after (front ++ [y]) ->
  forall x, In x (front ++ [y]) -> not_after x y.
Proof.
  induction front as [|a front IH]; cbn [app]; intros Hsorted x Hx.
  - destruct Hx as [<-|[]]. unfold not_after. lia.
  - apply StronglySorted_inv in Hsorted as [Hrest Hall].
    destruct Hx as [<-|Hx]; [|apply IH; assumption].
    rewrite Forall_forall in Hall. apply Hall, list_elem_of_In.
    apply in_or_app. right. left. reflexivity.
Qed.

(** The earliest and the latest charge of a non-empty list, as the sort
    finds them. *)
Lemma sort_by_created_ends (charges : list Charge.t) :
  charges <> [] ->
  exists lo hi,
    item (sort_by_created charges) 0 = Some lo /\
    item (sort_by_created charges) (len (sort_by_created charges) - 1) = Some hi /\
    In lo charges /\ In hi charges /\
    forall c, In c charges -> not_after lo c /\ not_after c hi.
Proof.
  intros Hne.
  pose proof (sort_by_created_sorted charges) as Hsorted.
  pose proof (sort_by_created_length charges) as Hlen.
  assert (sort_by_created charges <> []) as Hne'.
  { intros E. rewrite E in Hlen. destruct charges; [congruence|discriminate]. }
  destruct (exists_last Hne') as (front & hi & Hlast).
  destruct (sort_by_created charges) as [|lo rest] eqn:E; [congruence|].
  exists lo, hi. split; [reflexivity|]. split.
  - rewrite Hlast. apply item_last.
  - assert (forall c, In c charges <-> In c (lo :: rest)) as Hin.
    { intros c. rewrite <- E. symmetry. apply sort_by_created_In. }
    split; [apply Hin; left; reflexivity|]. split.
    + apply Hin. rewrite Hlast. apply in_or_app. right. left. reflexivity.
    + intros c Hc. apply Hin in Hc. split.
      * apply StronglySorted_inv in Hsorted as [_ Hall].
        destruct Hc as [<-|Hc]; [unfold not_after; lia|].
        rewrite Forall_forall in Hall. apply Hall, list_elem_of_In, Hc.
      * rewrite Hlast in Hsorted, Hc.
        apply (sorted_last_is_latest front hi Hsorted c Hc).
Qed.

(** X14: when [extractMetadata] returns for a non-empty list of charges,
    the first and last purchase dates are the earliest and the latest
    creation time among the charges, whatever their order, and the number
    of transactions is the number of charges. *)
Theorem metadata_dates_are_extremes now charges customer m :
  extractMetadata now charges customer = Ok m ->
  charges <> [] ->
  totalTransactions m = len charges /\
  exists lo hi,
    In lo charges /\ In hi charges /\
    firstPurchaseDate m = Some {| epoch_ms := Charge.created lo * 1000 |} /\
    lastPurchaseDate m = Some {| epoch_ms := Charge.created hi * 1000 |} /\
    forall c, In c charges ->
              Charge.created lo <= Charge.created c <= Charge.created hi.
Proof.
  intros Hok Hne.
  destruct (sort_by_created_ends charges Hne)
    as (lo & hi & Hlo & Hhi & Inlo & Inhi & Hext).
  unfold extractMetadata in Hok. rewrite Hlo, Hhi in Hok.
  unfold toISOString in Hok.
  destruct (Z.abs (Charge.created lo * 1000) <=? 8640000000000000);
    [|discriminate].
  destruct (Z.abs (Charge.created hi * 1000) <=? 8640000000000000);
    [|discriminate].
  injection Hok as <-. cbn. split; [reflexivity|].
  exists lo, hi. repeat split; try assumption; apply Hext; assumption.
Qed.

(** X15: [extractMetadata] returns exactly when every charge was created at
    a valid date, and otherwise throws a [RangeError]; without charges it
    returns null dates. *)
Theorem metadata_outcome now charges customer :
  ((forall c, In c charges -> valid_time (Charge.created c)) <->
   exists m, extractMetadata now charges customer = Ok m) /\
  (~ (forall c, In c charges -> valid_time (Charge.created c)) ->
   extractMetadata now charges customer
   = Throw (RangeError "Invalid time value")) /\
  (charges = [] ->
   exists m, extractMetadata now charges customer = Ok m /\
             firstPurchaseDate m = None /\ lastPurchaseDate m = None /\
             daysSinceLastPurchase m = None).
Proof.
  assert ((exists m, extractMetadata now charges customer = Ok m) ->
          forall c, In c charges -> valid_time (Charge.created c)) as Hconv.
  { intros [m Hok] c Hc.
    assert (charges <> []) as Hne by (intros ->; destruct Hc).
    destruct (sort_by_created_ends charges Hne)
      as (lo & hi & Hlo & Hhi & _ & _ & Hext).
    unfold extractMetadata in Hok. rewrite Hlo, Hhi in Hok.
    unfold toISOString in Hok.
    destruct (Z.leb_spec (Z.abs (Charge.created lo * 1000)) 8640000000000000);
      [|discriminate].
    destruct (Z.leb_spec (Z.abs (Charge.created hi * 1000)) 8640000000000000);
      [|discriminate].
    destruct (Hext c Hc) as [H1 H2]. unfold not_after, valid_time in *. lia. }
  split; [split; [apply extractMetadata_returns|exact Hconv]|].
  split.
  - intros Hbad.
    destruct (extractMetadata now charges customer) as [m|e] eqn:E.
    + exfalso. apply Hbad, Hconv. exists m. reflexivity.
    + revert E. unfold extractMetadata, toISOString.
      repeat match goal with
             | |- context [match ?x with _ => _ end] => destruct x
             | |- context [if ?b then _ else _] => destruct b
             end; cbn; congruence.
  - intros ->. eexists. split; [reflexivity|]. cbn. repeat split; reflexivity.
Qed.

(* ===================================================================== *)
(** * Further properties: the aggregator's only failure *)
(* ===================================================================== *)

Lemma analyzeSubscriptions_result subs :
  (analyzeSubscriptions subs = Throw (RangeError "Invalid time value") /\
   exists sub, first_active subs = Some sub /\
               ~ valid_time (Subscription.current_period_end sub)) \/
  ((exists h, analyzeSubscriptions subs = Ok h) /\
   forall sub, first_active subs = Some sub ->
               valid_time (Subscription.current_period_end sub)).
Proof.
  unfold first_active, analyzeSubscriptions.
  destruct (List.filter is_active subs) as [|s rest]; cbn [head].
  - right. split; [eexists; reflexivity|discriminate].
  - unfold toISOString, valid_time.
    destruct (Z.leb_spec (Z.abs (Subscription.current_period_end s * 1000))
                         8640000000000000) as [Hv|Hv].
    + right. split; [eexists; reflexivity|]. intros sub [= <-]. exact Hv.
    + left. split; [reflexivity|]. exists s. split; [reflexivity|lia].
Qed.

Lemma extractMetadata_result now charges customer :
  (extractMetadata now charges customer
   = Throw (RangeError "Invalid time value") /\
   ~ forall c, In c charges -> valid_time (Charge.created c)) \/
  ((exists m, extractMetadata now charges customer = Ok m) /\
   forall c, In c charges -> valid_time (Charge.created c)).
Proof.
  destruct charges as [|c0 cs].
  { right. split; [eexists; reflexivity|]. intros c []. }
  destruct (sort_by_created_ends (c0 :: cs) ltac:(discriminate))
    as (lo & hi & Hlo & Hhi & Inlo & Inhi & Hext).
  unfold extractMetadata. rewrite Hlo, Hhi. unfold toISOString.
  destruct (Z.leb_spec (Z.abs (Charge.created lo * 1000)) 8640000000000000)
    as [Hvlo|Hvlo].
  - destruct (Z.leb_spec (Z.abs (Charge.created hi * 1000)) 8640000000000000)
      as [Hvhi|Hvhi].
    + right. split; [eexists; reflexivity|]. intros c Hc.
      destruct (Hext c Hc) as [H1 H2]. unfold not_after, valid_time in *. lia.
    + left. split; [reflexivity|]. intros Hall.
      specialize (Hall hi Inhi). unfold valid_time in Hall. lia.
  - left. split; [reflexivity|]. intros Hall.
    specialize (Hall lo Inlo). unfold valid_time in Hall. lia.
Qed.

(** X16: the aggregator returns a bundle exactly when every charge was
    created at a valid date and the first active subscription, if there is
    one, ends its period at a valid date; in every other case it throws a
    [RangeError], and it throws nothing else. *)
Theorem aggregator_outcome now data :
  let well_dated :=
    (forall c, In c (charges data) -> valid_time (Charge.created c)) /\
    (forall sub, first_active (subscriptions data) = Some sub ->
                 valid_time (Subscription.current_period_end sub)) in
  (well_dated <-> exists b, calculateCustomerInsights now data = Ok b) /\
  (~ well_dated ->
   calculateCustomerInsights now data
   = Throw (RangeError "Invalid time value")).
Proof.
  cbn zeta. unfold calculateCustomerInsights.
  destruct (analyzeSubscriptions_result (subscriptions data))
    as [[-> (sub & Hsub & Hbad)]|[[h ->] Hsubs]].
  - split.
    + split.
      * intros [_ Hs]. exfalso. apply Hbad, Hs, Hsub.
      * intros [b Hb]. discriminate.
    + intros _. reflexivity.
  - destruct (extractMetadata_result now (charges data) (customer data))
      as [[-> Hbad]|[[m ->] Hcs]].
    + split.
      * split; [intros [Hc _]; tauto|intros [b Hb]; discriminate].
      * intros _. reflexivity.
    + split.
      * split; [intros _; eexists; reflexivity|intros _; split; assumption].
      * intros Hbad. exfalso. apply Hbad. split; assumption.
Qed.

(* ===================================================================== *)
(** * Further properties: cache *)
(* ===================================================================== *)

Lemma bypass_miss api now now' customerId st :
  is_miss api now' customerId st
    (fetchCustomerDataWithCache api now now' customerId true st).
Proof.
  pose proof (miss_path api now' customerId st) as Hmiss.
  unfold fetchCustomerDataWithCache. revert Hmiss. run_eff.
  exact (fun H => H).
Qed.

(** X17: a lookup with [bypassCache] set ignores whatever entry is stored:
    it returns what the payments API answers and stores it, so that the
    next plain lookup within the TTL returns that answer without consulting
    the API. *)
Theorem bypass_refreshes_entry api api' now0 now0' now now' customerId st d :
  api customerId = Some d ->
  now - now0' < CACHE_TTL ->
  let st1 := snd (fetchCustomerDataWithCache api now0 now0' customerId true st) in
  fst (fetchCustomerDataWithCache api now0 now0' customerId true st) = Ok d /\
  is_hit d customerId st1
    (fetchCustomerDataWithCache api' now now' customerId false st1).
Proof.
  intros Hapi Hfresh.
  pose proof (bypass_miss api now0 now0' customerId st) as Hmiss.
  unfold is_miss in Hmiss. rewrite Hapi in Hmiss.
  cbn zeta. rewrite Hmiss. cbn [fst snd]. split; [reflexivity|].
  eapply lookup_fresh; [|exact Hfresh].
  cbn [cache]. apply lookup_insert_eq.
Qed.

Lemma fetch_outcome api now now' customerId bypass st :
  (exists d, is_hit d customerId st
               (fetchCustomerDataWithCache api now now' customerId bypass st)) \/
  is_miss api now' customerId st
    (fetchCustomerDataWithCache api now now' customerId bypass st).
Proof.
  destruct bypass; [right; apply bypass_miss|].
  destruct (cache st !! customerId) as [[d t]|] eqn:E.
  - destruct (Z.lt_ge_cases (now - t) CACHE_TTL).
    + left. exists d. eapply lookup_fresh; eassumption.
    + right. eapply lookup_expired; eassumption.
  - right. apply lookup_absent, E.
Qed.

(** X18: when the payments API fails, a lookup that is not answered from
    the cache throws "Failed to fetch data for customer <id>", and in no
    case does a failing API change the cache: a stale entry stays where it
    is. *)
Theorem failed_fetch_keeps_cache api now now' customerId bypass st :
  api customerId = None ->
  let out := fetchCustomerDataWithCache api now now' customerId bypass st in
  cache (snd out) = cache st /\
  processedEvents (snd out) = processedEvents st /\
  ((exists d, fst out = Ok d /\
              exists t, cache st !! customerId
                        = Some {| data := d; timestamp := t |} /\
                        now - t < CACHE_TTL /\ bypass = false) \/
   fst out
   = Throw (Error ("Failed to fetch data for customer " ++ customerId)%string)).
Proof.
  intros Hdown. cbn zeta.
  unfold fetchCustomerDataWithCache, fetchCustomerData. run_eff.
  rewrite Hdown.
  destruct bypass; cbn [negb]; run_eff.
  - repeat split. right. reflexivity.
  - destruct (cache st !! customerId) as [[d t]|] eqn:E; cbn [timestamp data].
    + destruct (Z.ltb_spec (now - t) CACHE_TTL); run_eff; cbn [fst snd cache processedEvents].
      * repeat split. left. exists d. split; [reflexivity|].
        exists t. repeat split; assumption.
      * repeat split. right. reflexivity.
    + run_eff. cbn [fst snd cache processedEvents]. repeat split.
      right. reflexivity.
Qed.

(** X19: a lookup for one customer and an invalidation of one customer
    leave the cache entries of every other customer as they are. *)
Theorem other_customers_untouched api now now' customerId bypass st other :
  other <> customerId ->
  cache (snd (fetchCustomerDataWithCache api now now' customerId bypass st))
    !! other = cache st !! other /\
  cache (snd (invalidateCache customerId st)) !! other = cache st !! other.
Proof.
  intros Hother. split.
  - destruct (fetch_outcome api now now' customerId bypass st)
      as [[d Hhit]|Hmiss].
    + unfold is_hit in Hhit. rewrite Hhit. reflexivity.
    + unfold is_miss in Hmiss. destruct (api customerId).
      * rewrite Hmiss. cbn [snd cache].
        apply lookup_insert_ne. congruence.
      * destruct Hmiss as [msg ->]. reflexivity.
  - cbn. apply lookup_delete_ne. congruence.
Qed.

(* ===================================================================== *)
(** * Further properties: webhook listener *)
(* ===================================================================== *)

Lemma invalidated_cache_subseteq event st :
  invalidated_cache event st ⊆ cache st.
Proof.
  unfold invalidated_cache.
  destruct (invalidation_target event); [apply delete_subseteq|reflexivity].
Qed.

Lemma invalidation_count_le_1 event : (invalidation_count event <= 1)%nat.
Proof.
  unfold invalidation_count. destruct (invalidation_target event); lia.
Qed.

(** What one delivery does, whatever the request and the state. *)
Lemma endpoint_step constructEvent env_secret req st :
  exists response st',
    createWebhookEndpoint constructEvent env_secret req st = (Ok response, st') /\
    processedEvents st ⊆ processedEvents st' /\
    cache st' ⊆ cache st /\
    (invalidations (console st') + size (processedEvents st)
     <= invalidations (console st) + size (processedEvents st'))%nat.
Proof.
  destruct (constructEvent (req_body req) (stripe_signature req)
                           (webhookSecret env_secret)) as [event|] eqn:Hsig.
  - destruct (decide (Event.id event ∈ processedEvents st)) as [Hseen|Hnew].
    + rewrite (endpoint_duplicate _ _ req event st Hsig Hseen).
      eexists. eexists. split; [reflexivity|].
      cbn [processedEvents cache console]. repeat split; try reflexivity.
      rewrite invalidations_app. cbn. lia.
    + destruct (endpoint_first_delivery _ _ req event st Hsig Hnew)
        as (trace & -> & Hcount).
      eexists. eexists. split; [reflexivity|].
      cbn [processedEvents cache console].
      split; [set_solver|]. split; [apply invalidated_cache_subseteq|].
      rewrite invalidations_app.
      change (LogProcessing (Event.type event) :: trace)
        with ([LogProcessing (Event.type event)] ++ trace).
      rewrite invalidations_app, Hcount.
      rewrite size_union by set_solver. rewrite size_singleton.
      pose proof (invalidation_count_le_1 event). cbn. lia.
  - rewrite (endpoint_bad_signature _ _ req st Hsig).
    eexists. eexists. split; [reflexivity|].
    cbn [processedEvents cache console]. repeat split; try reflexivity.
    rewrite invalidations_app. cbn. lia.
Qed.

(** X20: over any sequence of deliveries, valid or not, duplicated or not,
    in any order, every request is answered, the processed set only grows,
    the cache only loses entries, and the number of cache invalidations
    performed is at most the number of delivery identifiers newly recorded
    as processed: at most one invalidation per identifier. *)
Theorem deliveries_invalidate_once_per_id
    constructEvent env_secret (reqs : list Request) (st : State) :
  let '(responses, st') := deliver_all constructEvent env_secret reqs st in
  length responses = length reqs /\
  processedEvents st ⊆ processedEvents st' /\
  cache st' ⊆ cache st /\
  (invalidations (console st') + size (processedEvents st)
   <= invalidations (console st) + size (processedEvents st'))%nat.
Proof.
  revert st. induction reqs as [|req reqs IH]; intros st; cbn [deliver_all].
  - repeat split; reflexivity.
  - destruct (endpoint_step constructEvent env_secret req st)
      as (response & st1 & -> & Hp & Hc & Hn).
    specialize (IH st1).
    destruct (deliver_all constructEvent env_secret reqs st1)
      as [responses st2].
    destruct IH as (Hl & Hp' & Hc' & Hn').
    cbn [length]. repeat split.
    + lia.
    + set_solver.
    + etransitivity; eassumption.
    + lia.
Qed.

(** X21: a verified notification whose identifier is new and that targets
    customer [X] makes the next lookup of [X] a miss, however fresh the
    entry was: the API is consulted again. *)
Theorem notification_forces_refetch
    constructEvent env_secret req event st api now now' X :
  constructEvent (req_body req) (stripe_signature req)
                 (webhookSecret env_secret) = Some event ->
  Event.id event ∉ processedEvents st ->
  invalidation_target event = Some X ->
  let st1 := snd (createWebhookEndpoint constructEvent env_secret req st) in
  is_miss api now' X st1 (fetchCustomerDataWithCache api now now' X false st1).
Proof.
  intros Hsig Hnew Htarget. cbn zeta.
  destruct (endpoint_first_delivery _ _ req event st Hsig Hnew)
    as (trace & -> & _).
  apply lookup_absent. cbn [snd cache].
  unfold invalidated_cache. rewrite Htarget. apply lookup_delete_eq.
Qed.

(** X22: a redelivered notification does not undo a refresh: once a
    notification has been processed and the customer's data fetched again,
    a second delivery of the same identifier leaves the new entry in place
    and the next lookup within the TTL is answered from the cache. *)
Theorem redelivery_keeps_refreshed_entry
    constructEvent env_secret req event st api d now0' now now' X :
  constructEvent (req_body req) (stripe_signature req)
                 (webhookSecret env_secret) = Some event ->
  Event.id event ∈ processedEvents st ->
  cache st !! X = Some {| data := d; timestamp := now0' |} ->
  now - now0' < CACHE_TTL ->
  let st1 := snd (createWebhookEndpoint constructEvent env_secret req st) in
  fst (createWebhookEndpoint constructEvent env_secret req st) = Ok acknowledged /\
  is_hit d X st1 (fetchCustomerDataWithCache api now now' X false st1).
Proof.
  intros Hsig Hseen Hentry Hfresh. cbn zeta.
  rewrite (endpoint_duplicate _ _ req event st Hsig Hseen).
  cbn [fst snd]. split; [reflexivity|].
  eapply lookup_fresh; [|exact Hfresh]. exact Hentry.
Qed.

(* ===================================================================== *)
(** * Further properties: signs of quotients *)
(* ===================================================================== *)

Lemma shr_1_nonneg (mrs : shr_record) :
  0 <= shr_m mrs -> 0 <= shr_m (shr_1 mrs).
Proof.
  destruct mrs as [m r s]. cbn [shr_m].
  destruct m as [|[p|p|]|p]; cbn; lia.
Qed.

Lemma iter_shr_1_nonneg (p : positive) :
  forall mrs, 0 <= shr_m mrs -> 0 <= shr_m (SpecFloat.iter_pos shr_1 p mrs).
Proof.
  induction p as [p IH|p IH|]; intros mrs H; cbn [SpecFloat.iter_pos].
  - apply IH, IH, shr_1_nonneg, H.
  - apply IH, IH, H.
  - apply shr_1_nonneg, H.
Qed.

Lemma shr_fexp_nonneg (m e : Z) (l : location) :
  0 <= m -> 0 <= shr_m (fst (shr_fexp Js.prec Js.emax m e l)).
Proof.
  intros Hm. unfold shr_fexp, shr.
  assert (shr_m (shr_record_of_loc m l) = m) as Hrec.
  { destruct l as [|[]]; reflexivity. }
  destruct (fexp Js.prec Js.emax (Zdigits2 m + e) - e)%Z; cbn [fst];
    rewrite ?Hrec; try assumption.
  apply iter_shr_1_nonneg. rewrite Hrec. exact Hm.
Qed.

Lemma round_nearest_even_nonneg (m : Z) (l : location) :
  0 <= m -> 0 <= round_nearest_even m l.
Proof.
  intros Hm. destruct l as [|[]]; cbn [round_nearest_even]; try assumption.
  - destruct (Z.even m); lia.
  - lia.
Qed.

(** Rounding a non-negative mantissa never produces NaN and keeps the
    sign it is given. *)
Lemma binary_round_aux_sign (sx : bool) (mx ex : Z) (lx : location) :
  0 <= mx -> has_sign sx (binary_round_aux Js.prec Js.emax sx mx ex lx).
Proof.
  intros Hm. unfold binary_round_aux.
  pose proof (shr_fexp_nonneg mx ex lx Hm) as H1.
  destruct (shr_fexp Js.prec Js.emax mx ex lx) as [mrs' e']. cbn [fst] in H1.
  pose proof (shr_fexp_nonneg
                (round_nearest_even (shr_m mrs') (loc_of_shr_record mrs'))
                e' loc_Exact (round_nearest_even_nonneg _ _ H1)) as H2.
  destruct (shr_fexp Js.prec Js.emax
              (round_nearest_even (shr_m mrs') (loc_of_shr_record mrs'))
              e' loc_Exact) as [mrs'' e'']. cbn [fst] in H2.
  unfold has_sign.
  destruct (shr_m mrs'') as [|m|m]; [left; reflexivity| |lia].
  destruct (e'' <=? Js.emax - Js.prec)%Z; right; [right|left];
    eauto.
Qed.

Lemma of_Z_sign (z : Z) :
  has_sign (z <? 0) (Js.of_Z z).
Proof.
  unfold Js.of_Z, binary_normalize.
  destruct z as [|p|p]; cbn [Z.ltb Z.compare].
  - left. reflexivity.
  - unfold binary_round.
    destruct (shl_align p 0 (fexp Js.prec Js.emax (Z.pos (digits2_pos p) + 0)))
      as [mz ez].
    apply binary_round_aux_sign. lia.
  - unfold binary_round.
    destruct (shl_align p 0 (fexp Js.prec Js.emax (Z.pos (digits2_pos p) + 0)))
      as [mz ez].
    apply binary_round_aux_sign. lia.
Qed.

(** Dividing a number of sign [s] by a positive finite number gives a
    number of sign [s]. *)
Lemma div_by_positive_sign (s : bool) (x : Js.number) (my : positive) (ey : Z) :
  has_sign s x -> has_sign s (Js.div x (S754_finite false my ey)).
Proof.
  intros [->|[->|(mx & ex & ->)]]; unfold Js.div, SFdiv.
  - left. rewrite xorb_false_r. reflexivity.
  - right. left. rewrite xorb_false_r. reflexivity.
  - rewrite xorb_false_r. unfold SFdiv_core_binary.
    set (m' := match _ with Z0 => Z.pos mx | Z.pos _ => _ | Z.neg _ => 0 end).
    assert (0 <= m') as Hm'.
    { subst m'. destruct (_ - _ - _)%Z; try lia.
      apply Z.shiftl_nonneg. lia. }
    pose proof (Z_div_mod m' (Z.pos my) ltac:(lia)) as Hdiv.
    destruct (Z.div_eucl m' (Z.pos my)) as [q r].
    apply binary_round_aux_sign. nia.
Qed.

Lemma created_or0_created (c : Charge.t) :
  created_or0 (Some c) = Charge.created c.
Proof.
  unfold created_or0, Js.truthyZ.
  destruct (Z.eqb_spec (Charge.created c) 0) as [->|_]; reflexivity.
Qed.

(** A quotient of a non-positive number of seconds by the length of a day
    is below 7. *)
Lemma nonpositive_span_below_7 (seconds : Z) :
  seconds <= 0 -> Js.ltb (Js.quot seconds 86400) (Js.of_Z 7) = true.
Proof.
  intros Hz.
  destruct (Z.eq_dec seconds 0) as [->|Hne]; [vm_compute; reflexivity|].
  unfold Js.quot.
  replace (Js.of_Z 86400) with (S754_finite false 5937362789990400 (-36))
    by (vm_compute; reflexivity).
  replace (Js.of_Z 7) with (S754_finite false 7881299347898368 (-50))
    by (vm_compute; reflexivity).
  pose proof (of_Z_sign seconds) as Hsign.
  replace (seconds <? 0) with true in Hsign by (symmetry; apply Z.ltb_lt; lia).
  apply (div_by_positive_sign _ _ 5937362789990400 (-36)) in Hsign.
  destruct Hsign as [->|[->|(m & e & ->)]]; reflexivity.
Qed.

(** A rate with a zero numerator is not above a positive threshold. *)
Lemma zero_rate_not_above (total : Z) (threshold : Js.number) :
  0 < total ->
  (exists m e, threshold = S754_finite false m e) ->
  Js.gtb (Js.quot 0 total) threshold = false.
Proof.
  intros Hpos (m & e & ->). unfold Js.quot.
  pose proof (of_Z_sign total) as Hsign.
  replace (total <? 0) with false in Hsign by (symmetry; apply Z.ltb_ge; lia).
  change (Js.of_Z 0) with (S754_zero false).
  destruct Hsign as [->|[->|(mt & et & ->)]]; reflexivity.
Qed.

(** X23: a customer with no failed charge, no disputed charge and no charge
    above 50000 minor units is never rated above [low_risk]: the only factor
    that can be reported is the velocity check, the score is at most 10, and
    with at most 10 charges nothing is reported at all. *)
Theorem clean_history_is_low_risk now customer cs pis :
  count is_failed cs = 0 ->
  chargebacks cs = 0 ->
  largeCharges cs = 0 ->
  let r := assessRisk now customer cs pis in
  score r <= 10 /\ recommendation r = low_risk /\
  (forall f, In f (factors r) -> type f = velocity_check) /\
  (len cs <= 10 -> score r = 0 /\ factors r = []).
Proof.
  intros Hfailed Hdisputed Hlarge. cbn zeta.
  assert (paymentFailures cs no_risk = no_risk) as Hpf.
  { unfold paymentFailures, failureRate. rewrite Hfailed.
    destruct (Z.ltb_spec 0 (len cs)) as [Hpos|Hempty].
    - rewrite (zero_rate_not_above (len cs) Js.lit_0_3 Hpos); [reflexivity|].
      eexists. eexists. reflexivity.
    - reflexivity. }
  assert (chargebackHistory cs no_risk = no_risk) as Hcb.
  { unfold chargebackHistory. rewrite Hdisputed. reflexivity. }
  assert (newCustomerLargeAmount now customer cs no_risk = no_risk) as Hnc.
  { unfold newCustomerLargeAmount. rewrite Hlarge, andb_false_r. reflexivity. }
  pose proof (velocityCheck_points cs) as Hvc.
  assert (recommendation (assessRisk now customer cs pis)
          = recommend (score (assessRisk now customer cs pis))) as Hrec.
  { rewrite score_sum. unfold assessRisk. cbn [recommendation].
    rewrite riskScore_sum. reflexivity. }
  rewrite Hrec, score_sum, factors_concat, Hpf, Hcb, Hnc.
  cbn [riskScore acc_factors no_risk app].
  split; [lia|]. split.
  { unfold recommend.
    destruct (Z.ltb_spec (0 + 0 + 0 + riskScore (velocityCheck cs no_risk)) 20);
      [reflexivity|lia]. }
  split.
  - intros f Hf.
    destruct (velocityCheck_shape now customer cs)
      as [(F4 & _)|(f4 & F4 & T4 & _)]; rewrite F4 in Hf.
    + destruct Hf.
    + destruct Hf as [<-|[]]. exact T4.
  - intros Hfew. unfold velocityCheck.
    destruct (Z.ltb_spec 10 (len cs)); [lia|]. split; reflexivity.
Qed.

(** X24: the velocity check measures the span between the first and the
    last element of the list only, newest first: when the first element is
    not more recent than the last one (a list in ascending order, or all
    charges at one instant), any list of more than 10 charges is reported
    for velocity and scores at least 10, however long its time span. *)
Theorem ascending_list_always_flags_velocity
    now customer cs pis (first last : Charge.t) :
  10 < len cs ->
  item cs 0 = Some first ->
  item cs (len cs - 1) = Some last ->
  Charge.created first <= Charge.created last ->
  let r := assessRisk now customer cs pis in
  In velocity_check (map type (factors r)) /\ 10 <= score r.
Proof.
  intros Hmany Hfirst Hlast Horder. cbn zeta.
  assert (flagged now customer cs velocity_check) as Hflag.
  { split; [exact Hmany|]. unfold daysBetween.
    rewrite Hfirst, Hlast, !created_or0_created.
    apply nonpositive_span_below_7. lia. }
  rewrite score_sum, factors_concat.
  pose proof (paymentFailures_points cs).
  pose proof (chargebackHistory_points cs).
  pose proof (newCustomerLargeAmount_points now customer cs).
  destruct (velocityCheck_shape now customer cs)
    as [(_ & _ & Hno)|(f4 & F4 & T4 & P4 & _)]; [tauto|].
  rewrite F4, <- P4. split.
  - rewrite !map_app, !in_app_iff. cbn [map In]. tauto.
  - unfold factor_points. rewrite T4. lia.
Qed.

(** X25: a customer whose creation time is missing (zero) counts as brand
    new: a single charge above 50000 minor units is enough to report
    [new_customer_large_amount] and to score at least 15, whatever the
    clock says. *)
Theorem undated_customer_is_new now customer cs pis :
  Customer.created customer = 0 ->
  0 < largeCharges cs ->
  let r := assessRisk now customer cs pis in
  In new_customer_large_amount (map type (factors r)) /\ 15 <= score r.
Proof.
  intros Hcreated Hlarge. cbn zeta.
  assert (flagged now customer cs new_customer_large_amount) as Hflag.
  { split; [|exact Hlarge]. unfold accountAge. rewrite Hcreated. reflexivity. }
  rewrite score_sum, factors_concat.
  pose proof (paymentFailures_points cs).
  pose proof (chargebackHistory_points cs).
  pose proof (velocityCheck_points cs).
  destruct (newCustomerLargeAmount_shape now customer cs)
    as [(_ & _ & Hno)|(f3 & F3 & T3 & P3 & _)]; [tauto|].
  rewrite F3, <- P3. split.
  - rewrite !map_app, !in_app_iff. cbn [map In]. tauto.
  - unfold factor_points. rewrite T3. lia.
Qed.

(* ===================================================================== *)
(** * Further properties at concrete inputs *)
(* ===================================================================== *)

Lemma no_preferred_method_iff_witness :
  preferredPaymentMethod (analyzePaymentPattern scenario_A []) <> None.
Proof.
  intros Hnone.
  pose proof (proj1 (no_preferred_method_iff scenario_A []) Hnone
                (sample_charge 1000 500 succeeded Absent)
                (or_introl eq_refl)) as H.
  discriminate H.
Defined.

Lemma recommendation_matches_score_witness :
  recommendation (assessRisk clock settled_customer one_dispute_in_99 [])
  = high_risk.
Proof.
  apply (proj2 (proj2 (recommendation_matches_score
                         clock settled_customer one_dispute_in_99 []))).
  vm_compute. discriminate.
Defined.

Lemma factors_reported_iff_flagged_witness :
  In high_chargeback_rate
     (map type (factors (assessRisk clock settled_customer
                                    one_dispute_in_100 []))).
Proof.
  apply (proj1 (factors_reported_iff_flagged
                  clock settled_customer one_dispute_in_100 [])).
  vm_compute. reflexivity.
Defined.

Lemma score_is_sum_of_factor_points_witness :
  score (assessRisk clock settled_customer scenario_A []) = 0.
Proof.
  apply (proj2 (score_is_sum_of_factor_points
                  clock settled_customer scenario_A [])).
  vm_compute. reflexivity.
Defined.

Lemma subscription_counters_consistent_witness :
  exists h,
    analyzeSubscriptions sample_subscriptions = Ok h /\
    totalSubscriptions h = 3 /\
    activeSubscriptions h + churnedSubscriptions h <= totalSubscriptions h.
Proof.
  eexists. split; [reflexivity|].
  destruct (subscription_counters_consistent sample_subscriptions _ eq_refl)
    as (Htotal & _ & _ & Hle).
  split; [exact Htotal|exact Hle].
Defined.

Lemma subscriptions_outcome_witness :
  analyzeSubscriptions misdated_subscriptions
  = Throw (RangeError "Invalid time value").
Proof.
  apply (proj2 (proj2 (subscriptions_outcome misdated_subscriptions))
           (Subscription.mk "sub_4" active [monthly_price] 8640000000001)).
  - reflexivity.
  - unfold valid_time. cbn. lia.
Defined.

Lemma metadata_dates_are_extremes_witness :
  exists m lo hi,
    extractMetadata clock dated_charges settled_customer = Ok m /\
    firstPurchaseDate m = Some {| epoch_ms := Charge.created lo * 1000 |} /\
    lastPurchaseDate m = Some {| epoch_ms := Charge.created hi * 1000 |} /\
    forall c, In c dated_charges ->
              Charge.created lo <= Charge.created c <= Charge.created hi.
Proof.
  eexists.
  destruct (metadata_dates_are_extremes clock dated_charges settled_customer
              _ eq_refl ltac:(discriminate))
    as (_ & lo & hi & _ & _ & Hfirst & Hlast & Hall).
  exists lo, hi. split; [reflexivity|]. repeat split; try assumption;
    apply Hall; assumption.
Defined.

Lemma metadata_outcome_witness :
  extractMetadata clock (dated_charges ++ [undated_charge]) settled_customer
  = Throw (RangeError "Invalid time value").
Proof.
  apply (proj1 (proj2 (metadata_outcome
                         clock (dated_charges ++ [undated_charge])
                         settled_customer))).
  intros Hall.
  assert (In undated_charge (dated_charges ++ [undated_charge])) as Hin.
  { apply in_or_app. right. left. reflexivity. }
  specialize (Hall undated_charge Hin).
  unfold valid_time in Hall. cbn in Hall. lia.
Defined.

Lemma aggregator_outcome_witness :
  calculateCustomerInsights clock
    {| customer := settled_customer; charges := dated_charges;
       paymentIntents := []; subscriptions := misdated_subscriptions;
       invoices := [] |}
  = Throw (RangeError "Invalid time value").
Proof.
  apply (proj2 (aggregator_outcome clock
                  {| customer := settled_customer; charges := dated_charges;
                     paymentIntents := [];
                     subscriptions := misdated_subscriptions;
                     invoices := [] |})).
  intros [_ Hsub].
  specialize (Hsub (Subscription.mk "sub_4" active [monthly_price]
                                    8640000000001) eq_refl).
  unfold valid_time in Hsub. cbn in Hsub. lia.
Defined.

Lemma bypass_refreshes_entry_witness :
  let st1 :=
    snd (fetchCustomerDataWithCache api_up 2000 2001 "cus_E" true stocked_state) in
  fst (fetchCustomerDataWithCache api_up 2000 2001 "cus_E" true stocked_state)
  = Ok scenario_B /\
  is_hit scenario_B "cus_E" st1
    (fetchCustomerDataWithCache api_down 3000 3001 "cus_E" false st1).
Proof.
  apply (bypass_refreshes_entry api_up api_down 2000 2001 3000 3001
           "cus_E" stocked_state scenario_B).
  - reflexivity.
  - reflexivity.
Defined.

Lemma failed_fetch_keeps_cache_witness :
  cache (snd (fetchCustomerDataWithCache api_down 900000 900001 "cus_E" false
                                         stocked_state))
  = cache stocked_state.
Proof.
  apply (failed_fetch_keeps_cache api_down 900000 900001 "cus_E" false
           stocked_state).
  reflexivity.
Defined.

Lemma other_customers_untouched_witness :
  cache (snd (invalidateCache "cus_other" stocked_state)) !! "cus_E"
  = cache stocked_state !! "cus_E".
Proof.
  apply (other_customers_untouched api_down 0 0 "cus_other" false
           stocked_state "cus_E").
  discriminate.
Defined.

Lemma notification_forces_refetch_witness :
  let st1 := snd (sample_endpoint (signed "charge") stocked_state) in
  is_miss api_down 1101 "cus_E" st1
    (fetchCustomerDataWithCache api_down 1100 1101 "cus_E" false st1).
Proof.
  apply (notification_forces_refetch sample_constructEvent (Some "whsec_1")
           (signed "charge") charge_event stocked_state api_down 1100 1101
           "cus_E").
  - reflexivity.
  - cbn. apply not_elem_of_empty.
  - reflexivity.
Defined.

Lemma redelivery_keeps_refreshed_entry_witness :
  let st1 := snd (sample_endpoint (signed "charge") refreshed_state) in
  fst (sample_endpoint (signed "charge") refreshed_state) = Ok acknowledged /\
  is_hit scenario_B "cus_E" st1
    (fetchCustomerDataWithCache api_down 6000 6001 "cus_E" false st1).
Proof.
  apply (redelivery_keeps_refreshed_entry sample_constructEvent
           (Some "whsec_1") (signed "charge") charge_event refreshed_state
           api_down scenario_B 5000 6000 6001 "cus_E").
  - reflexivity.
  - unfold refreshed_state, sample_endpoint.
    destruct (endpoint_first_delivery sample_constructEvent (Some "whsec_1")
                (signed "charge") charge_event stocked_state eq_refl)
      as (trace & -> & _); [cbn; apply not_elem_of_empty|].
    cbn. set_solver.
  - unfold refreshed_state. cbn. apply lookup_insert_eq.
  - reflexivity.
Defined.

Lemma clean_history_is_low_risk_witness :
  recommendation (assessRisk clock settled_customer scenario_A []) = low_risk.
Proof.
  apply (clean_history_is_low_risk clock settled_customer scenario_A []);
    reflexivity.
Defined.

Lemma ascending_list_always_flags_velocity_witness :
  In velocity_check
     (map type (factors (assessRisk clock settled_customer
                                    ascending_charges []))).
Proof.
  apply (ascending_list_always_flags_velocity clock settled_customer
           ascending_charges []
           (Charge.mk "asc" 1000 (Some 0) "usd" succeeded Absent false
                      1600000000 (Some "card"))
           (Charge.mk "asc" 1000 (Some 0) "usd" succeeded Absent false
                      1695040000 (Some "card"))).
  - reflexivity.
  - reflexivity.
  - reflexivity.
  - cbn. lia.
Defined.

Lemma undated_customer_is_new_witness :
  In new_customer_large_amount
     (map type (factors (assessRisk clock (Customer.mk "cus_0" 0)
                                    [disputed_success] []))).
Proof.
  apply (undated_customer_is_new clock (Customer.mk "cus_0" 0)
           [disputed_success] []).
  - reflexivity.
  - reflexivity.
Defined.
